(** * stt: a shallow embedding of the speech-to-text command line tool

    The development follows [stt.py]: path expansion and collision-free
    output placement, transcript serialization (txt, json, srt, vtt) with
    timestamp formatting, and the batch loop with per-file failure isolation.

    Python values are modelled as follows.
    - [str] is [string]: the UTF-8 bytes of the text.  Byte-wise
      lexicographic order on UTF-8 coincides with Python's code point order.
    - [float] is an IEEE 754 binary64 value, [spec_float] with precision 53
      and maximal exponent 1024.
    - [int] is [Z]; loop counters are [nat].
    - a raised exception is a value of [exn]; a computation that may raise
      returns an [outcome].
    - the file system is the one of Linux: names of at most 255 bytes,
      paths of less than 4096 bytes, no symbolic links. *)

From Stdlib Require Import ZArith Lia SpecFloat Ascii QArith Qround Qpower.
From stdpp Require Import base option list gmap strings pretty sorting.

Local Open Scope Z_scope.

(** ** Exceptions and outcomes *)

(** A raised exception: the name of its class, what [str] gives for it,
    and whether the class derives from [Exception], so that
    [except Exception] catches it.  [KeyboardInterrupt], [SystemExit] and
    [GeneratorExit] derive from [BaseException] only. *)
Record exn := mkBaseExn {
  exn_class : string;
  exn_msg : string;
  exn_is_exception : bool
}.

(** An exception of a class that derives from [Exception]. *)
Definition mkExn (cls msg : string) : exn := mkBaseExn cls msg true.

Inductive outcome (A : Type) : Type :=
| Ok (a : A)
| Raise (e : exn).
Arguments Ok {A} a.
Arguments Raise {A} e.

Global Instance outcome_ret : MRet outcome := fun A a => Ok a.

Global Instance outcome_bind : MBind outcome := fun A B k m =>
  match m with
  | Ok a => k a
  | Raise e => Raise e
  end.

(** ** Python floats *)

Module PyFloat.

Definition prec : Z := 53.
Definition emax : Z := 1024.

Definition float := spec_float.

Global Instance float_eq_dec : EqDecision float.
Proof. unfold float. solve_decision. Defined.

Definition fadd : float -> float -> float := SFadd prec emax.
Definition fsub : float -> float -> float := SFsub prec emax.
Definition fmul : float -> float -> float := SFmul prec emax.
Definition fdiv : float -> float -> float := SFdiv prec emax.
Definition flt : float -> float -> bool := SFltb.

(** [float(n)] for an integer small enough to be represented exactly,
    and the decimal literal [n / 10^k] rounded to nearest. *)
Definition of_Z (n : Z) : float := binary_normalize prec emax n 0 false.
Definition of_decimal (n : Z) (k : nat) : float :=
  fdiv (of_Z n) (of_Z (10 ^ Z.of_nat k)).

Definition is_zero (x : float) : bool :=
  match x with S754_zero _ => true | _ => false end.

(** C truth value of a double: everything but a zero. *)
Definition truthy (x : float) : bool := negb (is_zero x).

Definition lt0 (x : float) : bool := flt x (S754_zero false).

Definition signbit (x : float) : bool :=
  match x with
  | S754_zero s | S754_infinity s | S754_finite s _ _ => s
  | S754_nan => false
  end.

(** [copysign(0.0, y)] *)
Definition copysign0 (y : float) : float := S754_zero (signbit y).

(** C [fmod]: the result has the sign of [x] and is exact. *)
Definition c_fmod (x y : float) : float :=
  match x, y with
  | S754_nan, _ | _, S754_nan => S754_nan
  | S754_infinity _, _ => S754_nan
  | _, S754_zero _ => S754_nan
  | _, S754_infinity _ => x
  | S754_zero _, _ => x
  | S754_finite sx mx ex, S754_finite _ my ey =>
      let e := Z.min ex ey in
      let X := Zpos mx * 2 ^ (ex - e) in
      let Y := Zpos my * 2 ^ (ey - e) in
      binary_normalize prec emax (cond_Zopp sx (X mod Y)) e sx
  end.

(** C [floor] *)
Definition c_floor (x : float) : float :=
  match x with
  | S754_finite s m e =>
      if 0 <=? e then x
      else binary_normalize prec emax (cond_Zopp s (Zpos m) / 2 ^ (- e)) 0 s
  | _ => x
  end.

Definition ZeroDivisionError (msg : string) : exn := mkExn "ZeroDivisionError" msg.
Definition ValueError (msg : string) : exn := mkExn "ValueError" msg.
Definition OverflowError (msg : string) : exn := mkExn "OverflowError" msg.

(** [vx % wx] on floats (CPython [float_rem]). *)
Definition py_mod (vx wx : float) : outcome float :=
  if is_zero wx then Raise (ZeroDivisionError "float modulo by zero")
  else
    let md := c_fmod vx wx in
    Ok (if truthy md
        then (if xorb (lt0 wx) (lt0 md) then fadd md wx else md)
        else copysign0 wx).

(** [vx // wx] on floats (CPython [float_floor_div]). *)
Definition py_floordiv (vx wx : float) : outcome float :=
  if is_zero wx then Raise (ZeroDivisionError "float floor division by zero")
  else
    let md := c_fmod vx wx in
    let dv := fdiv (fsub vx md) wx in
    let dv := if truthy md && xorb (lt0 wx) (lt0 md)
              then fsub dv (of_Z 1) else dv in
    Ok (if truthy dv
        then
          let fl := c_floor dv in
          if flt (of_decimal 5 1) (fsub dv fl) then fadd fl (of_Z 1) else fl
        else copysign0 (fdiv vx wx)).

(** [int(x)]: truncation towards zero. *)
Definition py_int (x : float) : outcome Z :=
  match x with
  | S754_nan => Raise (ValueError "cannot convert float NaN to integer")
  | S754_infinity _ =>
      Raise (OverflowError "cannot convert float infinity to integer")
  | S754_zero _ => Ok 0
  | S754_finite s m e =>
      Ok (cond_Zopp s (if 0 <=? e then Zpos m * 2 ^ e else Zpos m / 2 ^ (- e)))
  end.

(** *** Decimal conversions

    [float(s)] rounds the decimal [n * 10^k] to the nearest binary64
    value, ties to even. *)
Definition of_scaled (neg : bool) (n : Z) (k : Z) : float :=
  match n with
  | Zpos _ =>
      if 0 <=? k then binary_normalize prec emax (cond_Zopp neg (n * 10 ^ k)) 0 neg
      else
        let '(q, e, l) := SFdiv_core_binary prec emax n 0 (10 ^ (- k)) 0 in
        binary_round_aux prec emax neg q e l
  | _ => S754_zero neg
  end.

(** The exact value of a positive finite float as a fraction. *)
Definition ratio_of (m : positive) (e : Z) : Z * Z :=
  if 0 <=? e then (Zpos m * 2 ^ e, 1) else (Zpos m, 2 ^ (- e)).

(** The position of the decimal point: the [p] with
    [10^(p-1) <= num/den < 10^p]. *)
Fixpoint decpt_up (fuel : nat) (num den p : Z) : Z :=
  match fuel with
  | O => p
  | S fuel' => if num <? den * 10 ^ p then p else decpt_up fuel' num den (p + 1)
  end.

Fixpoint decpt_down (fuel : nat) (num den j : Z) : Z :=
  match fuel with
  | O => - j
  | S fuel' =>
      if den <=? num * 10 ^ (j + 1) then - j else decpt_down fuel' num den (j + 1)
  end.

Definition decpt (num den : Z) : Z :=
  if den <=? num then decpt_up 400 num den 1 else decpt_down 400 num den 0.

(** The two decimals of [n] significant digits that enclose the value,
    as integers to be scaled by [10^(p-n)], and the nearer of them. *)
Definition digits_below (num den p : Z) (n : Z) : Z :=
  if 0 <=? n - p then (num * 10 ^ (n - p)) / den
  else num / (den * 10 ^ (p - n)).

Definition upper_is_nearer (num den p n lo : Z) : bool :=
  let '(a, b) := if 0 <=? n - p then (num * 10 ^ (n - p), den)
                 else (num, den * 10 ^ (p - n)) in
  (* compare a/b - lo with 1/2 *)
  match (2 * (a - lo * b)) ?= b with
  | Lt => false
  | Gt => true
  | Eq => Z.odd lo
  end.

(** The shortest decimal that reads back as the same float; among the
    candidates of that length, the one nearest to the value. *)
Fixpoint shortest_from (fuel : nat) (x : float) (num den p n : Z) : Z * Z :=
  let lo := digits_below num den p n in
  let hi := lo + 1 in
  let up := upper_is_nearer num den p n lo in
  match fuel with
  | O => (if up then hi else lo, p - n)
  | S fuel' =>
      let ok_lo := bool_decide (of_scaled false lo (p - n) = x) in
      let ok_hi := bool_decide (of_scaled false hi (p - n) = x) in
      if ok_lo && ok_hi then (if up then hi else lo, p - n)
      else if ok_lo then (lo, p - n)
      else if ok_hi then (hi, p - n)
      else shortest_from fuel' x num den p (n + 1)
  end.

Definition shortest (m : positive) (e : Z) : Z * Z :=
  let '(num, den) := ratio_of m e in
  shortest_from 16 (S754_finite false m e) num den (decpt num den) 1.

Fixpoint strip_zeros (fuel : nat) (d k : Z) : Z * Z :=
  match fuel with
  | O => (d, k)
  | S fuel' =>
      if (d mod 10 =? 0) && negb (d =? 0) then strip_zeros fuel' (d / 10) (k + 1)
      else (d, k)
  end.

End PyFloat.

(** ** Strings *)

Definition str_len (s : string) : nat := String.length s.

Fixpoint str_repeat (c : ascii) (n : nat) : string :=
  match n with
  | O => ""
  | S n' => String c (str_repeat c n')
  end.

(** [sep.join(parts)] *)
Fixpoint str_join (sep : string) (parts : list string) : string :=
  match parts with
  | [] => ""
  | [x] => x
  | x :: rest => x +:+ sep +:+ str_join sep rest
  end.

(** [c in s] *)
Fixpoint str_contains (c : ascii) (s : string) : bool :=
  match s with
  | EmptyString => false
  | String a s' => if decide (a = c) then true else str_contains c s'
  end.

(** The format specification [0<width>d] applied to an integer: zero
    padding up to the width, the sign counting for one column. *)
Definition zfill (width : nat) (digits : string) : string :=
  str_repeat "0"%char (width - str_len digits) +:+ digits.

Definition format_0d (width : nat) (z : Z) : string :=
  if z <? 0 then "-" +:+ zfill (width - 1) (pretty (- z))
  else zfill width (pretty z).

Definition newline : string := String (ascii_of_nat 10) "".

(** [repr(x)] of a float: the shortest digits, with a decimal point or,
    when the decimal point falls outside [(-4, 16]], an exponent. *)
Definition repr_finite (neg : bool) (m : positive) (e : Z) : string :=
  let '(d0, k0) := PyFloat.shortest m e in
  let '(d, k) := PyFloat.strip_zeros 20 d0 k0 in
  let ds := pretty d in
  let n := Z.of_nat (str_len ds) in
  let p := n + k in
  (if neg then "-" else "") +:+
  (if (p <=? -4) || (16 <? p) then
     String.substring 0 1 ds +:+
     (if 1 <? n then "." +:+ String.substring 1 (str_len ds - 1) ds else "") +:+
     "e" +:+ (if p - 1 <? 0 then "-" else "+") +:+ zfill 2 (pretty (Z.abs (p - 1)))
   else if p <=? 0 then "0." +:+ str_repeat "0"%char (Z.to_nat (- p)) +:+ ds
   else if n <=? p then ds +:+ str_repeat "0"%char (Z.to_nat (p - n)) +:+ ".0"
   else String.substring 0 (Z.to_nat p) ds +:+ "." +:+
        String.substring (Z.to_nat p) (Z.to_nat (n - p)) ds).

Definition float_repr (x : PyFloat.float) : string :=
  match x with
  | S754_zero s => if s then "-0.0" else "0.0"
  | S754_infinity s => if s then "-inf" else "inf"
  | S754_nan => "nan"
  | S754_finite s m e => repr_finite s m e
  end.

(** ** The transcript handed back by the model *)

Record Sentence := mkSentence {
  s_text : string;
  s_start : PyFloat.float;
  s_end : PyFloat.float
}.

Record TranscriptResult := mkResult {
  r_text : string;
  r_sentences : list Sentence
}.

(** ** Timestamps and subtitle formats *)

Definition format_timestamp (seconds : PyFloat.float) (fmt : string) : outcome string :=
  h ← PyFloat.py_floordiv seconds (PyFloat.of_Z 3600);
  hours ← PyFloat.py_int h;
  r ← PyFloat.py_mod seconds (PyFloat.of_Z 3600);
  m ← PyFloat.py_floordiv r (PyFloat.of_Z 60);
  minutes ← PyFloat.py_int m;
  s ← PyFloat.py_mod seconds (PyFloat.of_Z 60);
  secs ← PyFloat.py_int s;
  f ← PyFloat.py_mod seconds (PyFloat.of_Z 1);
  millis ← PyFloat.py_int (PyFloat.fmul f (PyFloat.of_Z 1000));
  if decide (fmt = "srt") then
    Ok (format_0d 2 hours +:+ ":" +:+ format_0d 2 minutes +:+ ":" +:+
        format_0d 2 secs +:+ "," +:+ format_0d 3 millis)
  else
    Ok (format_0d 2 hours +:+ ":" +:+ format_0d 2 minutes +:+ ":" +:+
        format_0d 2 secs +:+ "." +:+ format_0d 3 millis).

(** The body of the [for i, sentence in enumerate(result.sentences, 1)]
    loop: the four lines appended for each sentence. *)
Fixpoint cue_lines (fmt : string) (i : nat) (sentences : list Sentence)
  : outcome (list string) :=
  match sentences with
  | [] => Ok []
  | sentence :: rest =>
      start ← format_timestamp (s_start sentence) fmt;
      end_ ← format_timestamp (s_end sentence) fmt;
      more ← cue_lines fmt (S i) rest;
      Ok (pretty i :: (start +:+ " --> " +:+ end_) :: s_text sentence :: "" :: more)
  end.


(** ** JSON values and [json.dumps(obj, indent=2, ensure_ascii=False)] *)

#[warnings="-register-all"]
Inductive json : Type :=
| JNull
| JBool (b : bool)
| JInt (z : Z)
| JFloat (x : PyFloat.float)
| JStr (s : string)
| JArr (items : list json)
| JObj (members : list (string * json)).

Definition dquote : ascii := ascii_of_nat 34.

Definition hex_digit (n : nat) : ascii :=
  match n with
  | 0 => "0" | 1 => "1" | 2 => "2" | 3 => "3" | 4 => "4" | 5 => "5" | 6 => "6"
  | 7 => "7" | 8 => "8" | 9 => "9" | 10 => "a" | 11 => "b" | 12 => "c"
  | 13 => "d" | 14 => "e" | _ => "f"
  end%char%nat.

(** One character of a string literal.  With [ensure_ascii=False] only the
    quote, the backslash and the control characters are escaped. *)
Definition escape_char (c : ascii) : string :=
  let n := nat_of_ascii c in
  if decide (c = dquote) then String "\" (String dquote "")
  else if decide (c = "\"%char) then "\\"
  else if decide (n = 10%nat) then "\n"
  else if decide (n = 13%nat) then "\r"
  else if decide (n = 9%nat) then "\t"
  else if decide (n = 8%nat) then "\b"
  else if decide (n = 12%nat) then "\f"
  else if decide (n < 32)%nat then
    "\u00" +:+ String (hex_digit (n / 16)) (String (hex_digit (n mod 16)) "")
  else String c "".

Fixpoint escape (s : string) : string :=
  match s with
  | EmptyString => ""
  | String c s' => escape_char c +:+ escape s'
  end.

Definition encode_string (s : string) : string :=
  String dquote (escape s +:+ String dquote "").

(** Floats are written with [float.__repr__], the non-finite ones as the
    JavaScript names. *)
Definition float_token (x : PyFloat.float) : string :=
  match x with
  | S754_nan => "NaN"
  | S754_infinity false => "Infinity"
  | S754_infinity true => "-Infinity"
  | _ => float_repr x
  end.

Definition newline_indent (level : nat) : string :=
  newline +:+ str_repeat " "%char (2 * level).

Fixpoint dumps_at (level : nat) (v : json) : string :=
  match v with
  | JNull => "null"
  | JBool true => "true"
  | JBool false => "false"
  | JInt z => pretty z
  | JFloat x => float_token x
  | JStr s => encode_string s
  | JArr [] => "[]"
  | JArr items =>
      "[" +:+ newline_indent (S level) +:+
      str_join ("," +:+ newline_indent (S level)) (map (dumps_at (S level)) items) +:+
      newline_indent level +:+ "]"
  | JObj [] => "{}"
  | JObj members =>
      "{" +:+ newline_indent (S level) +:+
      str_join ("," +:+ newline_indent (S level))
        (map (fun kv => encode_string (fst kv) +:+ ": " +:+ dumps_at (S level) (snd kv))
             members) +:+
      newline_indent level +:+ "}"
  end.

Definition dumps (v : json) : string := dumps_at 0 v.

(** ** [json.loads] *)

Definition JSONDecodeError (msg : string) : exn := mkExn "JSONDecodeError" msg.

(** JSON whitespace: space, tab, line feed, carriage return. *)
Definition is_ws (c : ascii) : bool :=
  let n := nat_of_ascii c in
  bool_decide (n = 32 \/ n = 9 \/ n = 10 \/ n = 13)%nat.

Fixpoint skip_ws (s : string) : string :=
  match s with
  | EmptyString => ""
  | String c s' => if is_ws c then skip_ws s' else s
  end.

Definition is_digit (c : ascii) : bool :=
  bool_decide (48 <= nat_of_ascii c <= 57)%nat.

Definition digit_value (c : ascii) : Z := Z.of_nat (nat_of_ascii c) - 48.

(** [int(digits)] for a string of decimal digits. *)
Fixpoint digits_value (acc : Z) (digits : string) : Z :=
  match digits with
  | EmptyString => acc
  | String c s' => digits_value (10 * acc + digit_value c) s'
  end.

Definition hex_value (c : ascii) : option N :=
  let n := N_of_ascii c in
  if (48 <=? n)%N && (n <=? 57)%N then Some (n - 48)%N
  else if (97 <=? n)%N && (n <=? 102)%N then Some (n - 87)%N
  else if (65 <=? n)%N && (n <=? 70)%N then Some (n - 55)%N
  else None.

(** The four hex digits of a [\uXXXX] escape. *)
Definition hex4 (a b c d : ascii) : option N :=
  match hex_value a, hex_value b, hex_value c, hex_value d with
  | Some x, Some y, Some z, Some t => Some (((x * 16 + y) * 16 + z) * 16 + t)%N
  | _, _, _, _ => None
  end.

(** [chr(n)] as UTF-8 bytes. *)
Definition utf8_encode (n : N) : string :=
  let byte (k : N) := ascii_of_N k in
  if (n <? 128)%N then String (byte n) ""
  else if (n <? 2048)%N then
    String (byte (192 + n / 64)%N) (String (byte (128 + n mod 64)%N) "")
  else if (n <? 65536)%N then
    String (byte (224 + n / 4096)%N)
      (String (byte (128 + (n / 64) mod 64)%N) (String (byte (128 + n mod 64)%N) ""))
  else
    String (byte (240 + n / 262144)%N)
      (String (byte (128 + (n / 4096) mod 64)%N)
         (String (byte (128 + (n / 64) mod 64)%N) (String (byte (128 + n mod 64)%N) ""))).

(** The character of a one-letter escape. *)
Definition unescape (esc : ascii) : option ascii :=
  if decide (esc = dquote) then Some dquote
  else if decide (esc = "\"%char) then Some "\"%char
  else if decide (esc = "/"%char) then Some "/"%char
  else if decide (esc = "b"%char) then Some (ascii_of_nat 8)
  else if decide (esc = "f"%char) then Some (ascii_of_nat 12)
  else if decide (esc = "n"%char) then Some (ascii_of_nat 10)
  else if decide (esc = "r"%char) then Some (ascii_of_nat 13)
  else if decide (esc = "t"%char) then Some (ascii_of_nat 9)
  else None.

Definition prepend (chunk : string) (r : outcome (string * string))
  : outcome (string * string) :=
  match r with
  | Ok (s, rest) => Ok (chunk +:+ s, rest)
  | Raise e => Raise e
  end.

(** The low half of a surrogate pair written as [\uXXXX], if the text
    starts with one. *)
Definition low_surrogate (s : string) : option N :=
  match s with
  | String b (String u (String h1 (String h2 (String h3 (String h4 _))))) =>
      if bool_decide (b = "\"%char) && bool_decide (u = "u"%char) then
        match hex4 h1 h2 h3 h4 with
        | Some lo => if (56320 <=? lo)%N && (lo <=? 57343)%N then Some lo else None
        | None => None
        end
      else None
  | _ => None
  end.

(** [scanstring], after the opening quote: the decoded text and what
    follows the closing quote. *)
Fixpoint scanstring (s : string) : outcome (string * string) :=
  match s with
  | EmptyString => Raise (JSONDecodeError "Unterminated string")
  | String c rest =>
      if decide (c = dquote) then Ok ("", rest)
      else if decide (c = "\"%char) then
        match rest with
        | EmptyString => Raise (JSONDecodeError "Unterminated string")
        | String esc rest1 =>
            if decide (esc = "u"%char) then
              match rest1 with
              | String h1 (String h2 (String h3 (String h4 rest2))) =>
                  match hex4 h1 h2 h3 h4 with
                  | None => Raise (JSONDecodeError "Invalid \uXXXX escape")
                  | Some uni =>
                      match (if (55296 <=? uni)%N && (uni <=? 56319)%N
                             then low_surrogate rest2 else None), rest2 with
                      | Some lo, String _ (String _ (String _ (String _
                                   (String _ (String _ rest3))))) =>
                          prepend
                            (utf8_encode (65536 + ((uni - 55296) * 1024 + (lo - 56320)))%N)
                            (scanstring rest3)
                      | _, _ => prepend (utf8_encode uni) (scanstring rest2)
                      end
                  end
              | _ => Raise (JSONDecodeError "Invalid \uXXXX escape")
              end
            else
              match unescape esc with
              | Some ch => prepend (String ch "") (scanstring rest1)
              | None => Raise (JSONDecodeError "Invalid \escape")
              end
        end
      else if (nat_of_ascii c <? 32)%nat then
        Raise (JSONDecodeError "Invalid control character")
      else prepend (String c "") (scanstring rest)
  end.

(** *** Numbers

    A number is an optional minus sign, an integer part (a zero, or a
    digit from 1 to 9 followed by digits), optionally a point followed by
    digits, and optionally an [e] or [E] with an optional sign and digits. *)

Fixpoint take_digits (s : string) : string * string :=
  match s with
  | EmptyString => ("", "")
  | String c s' =>
      if is_digit c then let '(d, r) := take_digits s' in (String c d, r)
      else ("", s)
  end.

Definition scan_integer (s : string) : option (string * string) :=
  match s with
  | EmptyString => None
  | String c s' =>
      if decide (c = "0"%char) then Some ("0", s')
      else if is_digit c then let '(d, r) := take_digits s' in Some (String c d, r)
      else None
  end.

(** The digits after the point, when there is a point followed by a digit. *)
Definition scan_frac (s : string) : option (string * string) :=
  match s with
  | String c s' =>
      if decide (c = "."%char) then
        match take_digits s' with
        | (EmptyString, _) => None
        | (d, r) => Some (d, r)
        end
      else None
  | EmptyString => None
  end.

(** The exponent, when there is an [e] followed by an optional sign and a
    digit. *)
Definition scan_exp (s : string) : option (Z * string) :=
  match s with
  | String c s' =>
      if bool_decide (c = "e"%char) || bool_decide (c = "E"%char) then
        let '(neg, s'') :=
          match s' with
          | String sg t =>
              if decide (sg = "-"%char) then (true, t)
              else if decide (sg = "+"%char) then (false, t)
              else (false, s')
          | EmptyString => (false, s')
          end in
        match take_digits s'' with
        | (EmptyString, _) => None
        | (d, r) => Some (cond_Zopp neg (digits_value 0 d), r)
        end
      else None
  | EmptyString => None
  end.

(** [float(text)] for the text of a number with a fraction or an exponent:
    the decimal [digits * 10^(exp - len(frac))], rounded. *)
Definition float_of_literal (neg : bool) (int_digits frac_digits : string) (exp : Z)
  : PyFloat.float :=
  PyFloat.of_scaled neg (digits_value 0 (int_digits +:+ frac_digits))
    (exp - Z.of_nat (str_len frac_digits)).

Definition match_number (s : string) : option (json * string) :=
  let '(neg, s1) :=
    match s with
    | String c s' => if decide (c = "-"%char) then (true, s') else (false, s)
    | EmptyString => (false, s)
    end in
  match scan_integer s1 with
  | None => None
  | Some (int_digits, s2) =>
      match scan_frac s2 with
      | Some (frac_digits, s3) =>
          match scan_exp s3 with
          | Some (e, s4) => Some (JFloat (float_of_literal neg int_digits frac_digits e), s4)
          | None => Some (JFloat (float_of_literal neg int_digits frac_digits 0), s3)
          end
      | None =>
          match scan_exp s2 with
          | Some (e, s4) => Some (JFloat (float_of_literal neg int_digits "" e), s4)
          | None => Some (JInt (cond_Zopp neg (digits_value 0 int_digits)), s2)
          end
      end
  end.

(** [s.startswith(prefix)], giving what follows the prefix. *)
Fixpoint strip_prefix (prefix s : string) : option string :=
  match prefix, s with
  | EmptyString, _ => Some s
  | String a p', String b s' => if decide (a = b) then strip_prefix p' s' else None
  | String _ _, EmptyString => None
  end.

(** Numbers and the bare words. *)
Definition scan_scalar (s : string) : outcome (json * string) :=
  match strip_prefix "null" s, strip_prefix "true" s, strip_prefix "false" s with
  | Some r, _, _ => Ok (JNull, r)
  | _, Some r, _ => Ok (JBool true, r)
  | _, _, Some r => Ok (JBool false, r)
  | _, _, _ =>
      match match_number s with
      | Some res => Ok res
      | None =>
          match strip_prefix "NaN" s, strip_prefix "Infinity" s,
                strip_prefix "-Infinity" s with
          | Some r, _, _ => Ok (JFloat S754_nan, r)
          | _, Some r, _ => Ok (JFloat (S754_infinity false), r)
          | _, _, Some r => Ok (JFloat (S754_infinity true), r)
          | _, _, _ => Raise (JSONDecodeError "Expecting value")
          end
      end
  end.

(** [d[key] = value] on a dictionary kept in insertion order. *)
Fixpoint dict_set (d : list (string * json)) (key : string) (value : json)
  : list (string * json) :=
  match d with
  | [] => [(key, value)]
  | (k, v) :: rest =>
      if decide (k = key) then (k, value) :: rest
      else (k, v) :: dict_set rest key value
  end.

(** The scanner.  [fuel] bounds the number of values, members and items
    that are read. *)
Fixpoint scan_once (fuel : nat) (s : string) : outcome (json * string) :=
  match fuel with
  | O => Raise (mkExn "RecursionError" "maximum recursion depth exceeded")
  | S fuel' =>
      match s with
      | EmptyString => Raise (JSONDecodeError "Expecting value")
      | String c rest =>
          if decide (c = dquote) then
            '(text, r) ← scanstring rest; Ok (JStr text, r)
          else if decide (c = "{"%char) then
            match skip_ws rest with
            | String c' r' =>
                if decide (c' = "}"%char) then Ok (JObj [], r')
                else '(members, r) ← scan_members fuel' [] (skip_ws rest);
                     Ok (JObj members, r)
            | EmptyString =>
                Raise (JSONDecodeError "Expecting property name enclosed in double quotes")
            end
          else if decide (c = "["%char) then
            match skip_ws rest with
            | String c' r' =>
                if decide (c' = "]"%char) then Ok (JArr [], r')
                else '(items, r) ← scan_items fuel' [] (skip_ws rest);
                     Ok (JArr items, r)
            | EmptyString => Raise (JSONDecodeError "Expecting value")
            end
          else scan_scalar s
      end
  end

with scan_members (fuel : nat) (acc : list (string * json)) (s : string)
  : outcome (list (string * json) * string) :=
  match fuel with
  | O => Raise (mkExn "RecursionError" "maximum recursion depth exceeded")
  | S fuel' =>
      match s with
      | String q rest =>
          if decide (q = dquote) then
            '(key, r1) ← scanstring rest;
            match skip_ws r1 with
            | String colon r2 =>
                if decide (colon = ":"%char) then
                  '(value, r3) ← scan_once fuel' (skip_ws r2);
                  let acc := dict_set acc key value in
                  match skip_ws r3 with
                  | String c r4 =>
                      if decide (c = "}"%char) then Ok (acc, r4)
                      else if decide (c = ","%char)
                           then scan_members fuel' acc (skip_ws r4)
                           else Raise (JSONDecodeError "Expecting ',' delimiter")
                  | EmptyString => Raise (JSONDecodeError "Expecting ',' delimiter")
                  end
                else Raise (JSONDecodeError "Expecting ':' delimiter")
            | EmptyString => Raise (JSONDecodeError "Expecting ':' delimiter")
            end
          else Raise (JSONDecodeError "Expecting property name enclosed in double quotes")
      | EmptyString =>
          Raise (JSONDecodeError "Expecting property name enclosed in double quotes")
      end
  end

with scan_items (fuel : nat) (acc : list json) (s : string)
  : outcome (list json * string) :=
  match fuel with
  | O => Raise (mkExn "RecursionError" "maximum recursion depth exceeded")
  | S fuel' =>
      '(value, r1) ← scan_once fuel' s;
      match skip_ws r1 with
      | String c r2 =>
          if decide (c = "]"%char) then Ok (acc ++ [value], r2)
          else if decide (c = ","%char)
               then scan_items fuel' (acc ++ [value]) (skip_ws r2)
               else Raise (JSONDecodeError "Expecting ',' delimiter")
      | EmptyString => Raise (JSONDecodeError "Expecting ',' delimiter")
      end
  end.

(** [json.loads(s)]: one value, with white space around it and nothing
    else.  The text is its own bound on the number of values. *)
Definition loads (s : string) : outcome json :=
  '(value, rest) ← scan_once (S (str_len s)) (skip_ws s);
  match skip_ws rest with
  | EmptyString => Ok value
  | _ => Raise (JSONDecodeError "Extra data")
  end.

(** ** [format_output] *)

Definition sentence_object (s : Sentence) : json :=
  JObj [("text", JStr (s_text s)); ("start", JFloat (s_start s)); ("end", JFloat (s_end s))].

Definition result_object (result : TranscriptResult) : json :=
  JObj [("text", JStr (r_text result));
        ("sentences", JArr (map sentence_object (r_sentences result)))].

Definition format_output (result : TranscriptResult) (fmt : string) : outcome string :=
  if decide (fmt = "txt") then Ok (r_text result)
  else if decide (fmt = "json") then Ok (dumps (result_object result))
  else if decide (fmt = "srt" \/ fmt = "vtt") then
    let header := if decide (fmt = "vtt") then ["WEBVTT" +:+ newline] else [] in
    cues ← cue_lines fmt 1 (r_sentences result);
    Ok (str_join newline (header ++ cues))
  else Ok (r_text result).

(** ** Paths ([pathlib.PurePosixPath])

    A path is its root and its components.  The root is empty, one
    slash, or two slashes: exactly two leading slashes are kept, three or
    more count as one.  Parsing drops empty components and single dots;
    [..] is kept. *)

Inductive root := NoRoot | Slash | TwoSlashes.

Global Instance root_eq_dec : EqDecision root.
Proof. solve_decision. Defined.

Record Path := mkPath { p_root : root; p_parts : list string }.

Global Instance Path_eq_dec : EqDecision Path.
Proof. solve_decision. Defined.

(** [p.is_absolute()] *)
Definition p_abs (p : Path) : bool :=
  match p_root p with
  | NoRoot => false
  | _ => true
  end.

Definition root_str (r : root) : string :=
  match r with
  | NoRoot => ""
  | Slash => "/"
  | TwoSlashes => "//"
  end.

Fixpoint str_split (sep : ascii) (s : string) : list string :=
  match s with
  | EmptyString => [""]
  | String a s' =>
      if decide (a = sep) then "" :: str_split sep s'
      else match str_split sep s' with
           | x :: xs => String a x :: xs
           | [] => [String a ""]
           end
  end.

Definition keep_segment (c : string) : bool :=
  negb (bool_decide (c = "")) && negb (bool_decide (c = ".")).

(** [Path(s)] *)
Definition root_of (s : string) : root :=
  match s with
  | String "/" (String "/" (String "/" _)) => Slash
  | String "/" (String "/" _) => TwoSlashes
  | String "/" _ => Slash
  | _ => NoRoot
  end.

Definition Path_of (s : string) : Path :=
  {| p_root := root_of s;
     p_parts := List.filter keep_segment (str_split "/" s) |}.

(** [str(p)] *)
Definition path_str (p : Path) : string :=
  match p_root p, p_parts p with
  | NoRoot, [] => "."
  | r, parts => root_str r +:+ str_join "/" parts
  end.

(** [p.name] *)
Definition path_name (p : Path) : string := List.last (p_parts p) "".

(** [s.rfind(c)] *)
Fixpoint str_rfind (c : ascii) (s : string) : option nat :=
  match s with
  | EmptyString => None
  | String a s' =>
      match str_rfind c s' with
      | Some i => Some (S i)
      | None => if decide (a = c) then Some O else None
      end
  end.

(** The index at which the suffix of a file name starts: the last dot,
    unless it is the first or the last character. *)
Definition suffix_index (name : string) : option nat :=
  match str_rfind "." name with
  | Some i => if (0 <? i)%nat && (i <? str_len name - 1)%nat then Some i else None
  | None => None
  end.

(** [p.suffix] and [p.stem] *)
Definition path_suffix (p : Path) : string :=
  let name := path_name p in
  match suffix_index name with
  | Some i => String.substring i (str_len name - i) name
  | None => ""
  end.

Definition path_stem (p : Path) : string :=
  let name := path_name p in
  match suffix_index name with
  | Some i => String.substring 0 i name
  | None => name
  end.

(** [p.parent] *)
Definition path_parent (p : Path) : Path :=
  {| p_root := p_root p; p_parts := removelast (p_parts p) |}.

(** [p / s] *)
Definition joinpath (p : Path) (s : string) : Path :=
  let q := Path_of s in
  if p_abs q then q
  else {| p_root := p_root p; p_parts := p_parts p ++ p_parts q |}.

(** ** The file system

    Nodes are keyed by their components from the root; the root itself is
    a directory.  There are no symbolic links.  An entry of [fs_readonly]
    refuses writes: a directory refuses new entries, a file refuses to be
    overwritten.  A name has at most [NAME_MAX] bytes and the text of a
    path less than [PATH_MAX]; the system calls fail with an error number,
    which Python raises as an [OSError]. *)

Inductive node := File (content : string) | Dir.

Global Instance node_eq_dec : EqDecision node.
Proof. solve_decision. Defined.

Record FS := mkFS {
  fs_cwd : string;
  fs_nodes : gmap (list string) node;
  fs_readonly : gset (list string)
}.

Definition fs_node (fs : FS) (key : list string) : option node :=
  match key with
  | [] => Some Dir
  | _ => fs_nodes fs !! key
  end.

Definition is_dir_key (fs : FS) (key : list string) : bool :=
  bool_decide (fs_node fs key = Some Dir).

(** Components of a path counted from the root. *)
Definition abs_parts (fs : FS) (p : Path) : list string :=
  (if p_abs p then [] else p_parts (Path_of (fs_cwd fs))) ++ p_parts p.

Definition NAME_MAX : nat := 255.
Definition PATH_MAX : nat := 4096.

Inductive errno := ENOENT | EACCES | ENOTDIR | EISDIR | ENAMETOOLONG.

Definition errno_number (e : errno) : nat :=
  match e with
  | ENOENT => 2
  | EACCES => 13
  | ENOTDIR => 20
  | EISDIR => 21
  | ENAMETOOLONG => 36
  end.

Definition strerror (e : errno) : string :=
  match e with
  | ENOENT => "No such file or directory"
  | EACCES => "Permission denied"
  | ENOTDIR => "Not a directory"
  | EISDIR => "Is a directory"
  | ENAMETOOLONG => "File name too long"
  end.

(** The subclass of [OSError] that Python raises for an error number. *)
Definition error_class (e : errno) : string :=
  match e with
  | ENOENT => "FileNotFoundError"
  | EACCES => "PermissionError"
  | ENOTDIR => "NotADirectoryError"
  | EISDIR => "IsADirectoryError"
  | ENAMETOOLONG => "OSError"
  end.

(** [repr(s)] of a string, as it stands in the text of an [OSError]: in
    single quotes, or in double quotes when the text has a single quote
    and no double quote; the quote in use, the backslash and the control
    characters are escaped.  Bytes outside ASCII stand for printable
    characters, which are kept. *)
Definition repr_quote (s : string) : ascii :=
  if str_contains "'" s && negb (str_contains dquote s) then dquote else "'"%char.

Definition repr_char (quote c : ascii) : string :=
  let n := nat_of_ascii c in
  if decide (c = quote) then String "\" (String c "")
  else if decide (c = "\"%char) then "\\"
  else if decide (n = 9%nat) then "\t"
  else if decide (n = 10%nat) then "\n"
  else if decide (n = 13%nat) then "\r"
  else if decide (n < 32 \/ n = 127)%nat then
    "\x" +:+ String (hex_digit (n / 16)) (String (hex_digit (n mod 16)) "")
  else String c "".

Fixpoint repr_chars (quote : ascii) (s : string) : string :=
  match s with
  | EmptyString => ""
  | String c s' => repr_char quote c +:+ repr_chars quote s'
  end.

Definition py_repr (s : string) : string :=
  let quote := repr_quote s in
  String quote (repr_chars quote s +:+ String quote "").

(** The exception for a system call that failed on [filename]; its text
    is [[Errno n] message: 'filename']. *)
Definition OSError (e : errno) (filename : string) : exn :=
  mkExn (error_class e)
    ("[Errno " +:+ pretty (errno_number e) +:+ "] " +:+ strerror e +:+ ": " +:+
     py_repr filename).

(** Follow components from the node [cur]: every step needs a directory
    to step from, a name that is not too long, and an entry to step to. *)
Fixpoint walk (fs : FS) (cur : list string) (todo : list string)
  : errno + list string :=
  match todo with
  | [] => inr cur
  | c :: rest =>
      if is_dir_key fs cur then
        if decide (c = "..") then walk fs (removelast cur) rest
        else if (NAME_MAX <? str_len c)%nat then inl ENAMETOOLONG
        else match fs_node fs (cur ++ [c]) with
             | Some _ => walk fs (cur ++ [c]) rest
             | None => inl ENOENT
             end
      else inl ENOTDIR
  end.

(** [os.stat(p)], as far as the node it finds: the text of the path is
    checked first, then the components are followed. *)
Definition stat (fs : FS) (p : Path) : errno + list string :=
  if (PATH_MAX <=? str_len (path_str p))%nat then inl ENAMETOOLONG
  else walk fs [] (abs_parts fs p).

(** The errors that [exists] and [is_dir] take for the answer [False];
    any other error is raised, as pathlib does in Python 3.11. *)
Definition ignored (e : errno) : bool :=
  match e with
  | ENOENT | ENOTDIR => true
  | _ => false
  end.

(** [p.exists()] and [p.is_dir()] *)
Definition path_exists (fs : FS) (p : Path) : outcome bool :=
  match stat fs p with
  | inr _ => Ok true
  | inl e => if ignored e then Ok false else Raise (OSError e (path_str p))
  end.

Definition path_is_dir (fs : FS) (p : Path) : outcome bool :=
  match stat fs p with
  | inr key => Ok (is_dir_key fs key)
  | inl e => if ignored e then Ok false else Raise (OSError e (path_str p))
  end.

(** [p.resolve()]: without symbolic links this is the lexical
    normalization of the absolute path; it asks the file system nothing
    that can fail. *)
Fixpoint normalize (acc : list string) (parts : list string) : list string :=
  match parts with
  | [] => acc
  | c :: rest =>
      if decide (c = "..") then normalize (removelast acc) rest
      else normalize (acc ++ [c]) rest
  end.

Definition resolve (fs : FS) (p : Path) : Path :=
  {| p_root := Slash; p_parts := normalize [] (abs_parts fs p) |}.

(** [p.write_text(content)] *)
Definition write_text (fs : FS) (p : Path) (content : string) : outcome FS :=
  let parts := abs_parts fs p in
  let name := List.last parts ".." in
  if (PATH_MAX <=? str_len (path_str p))%nat
  then Raise (OSError ENAMETOOLONG (path_str p))
  else
    match walk fs [] (removelast parts) with
    | inl e => Raise (OSError e (path_str p))
    | inr d =>
        if negb (is_dir_key fs d) then Raise (OSError ENOTDIR (path_str p))
        else if decide (name = "..") then Raise (OSError EISDIR (path_str p))
        else if (NAME_MAX <? str_len name)%nat
        then Raise (OSError ENAMETOOLONG (path_str p))
        else
          let key := d ++ [name] in
          match fs_node fs key with
          | Some Dir => Raise (OSError EISDIR (path_str p))
          | Some (File _) =>
              if decide (key ∈ fs_readonly fs)
              then Raise (OSError EACCES (path_str p))
              else Ok (mkFS (fs_cwd fs) (<[key := File content]> (fs_nodes fs))
                         (fs_readonly fs))
          | None =>
              if decide (d ∈ fs_readonly fs)
              then Raise (OSError EACCES (path_str p))
              else Ok (mkFS (fs_cwd fs) (<[key := File content]> (fs_nodes fs))
                         (fs_readonly fs))
          end
    end.

(** ** The collaborators

    [glob.glob], the model cache probe, model loading and the model's
    [transcribe] are outside the program.  The answer of [transcribe] may
    depend on the calls made before; when it raises, the exception says
    whether [except Exception] catches it. *)

Record Env := mkEnv {
  env_glob : string -> list string;
  env_cached : bool;
  env_load : option exn;
  env_transcribe : list string -> string -> outcome TranscriptResult
}.

Definition MODEL_ID : string := "mlx-community/parakeet-tdt-0.6b-v3".

Definition EXTENSION_MAP : list (string * string) :=
  [("txt", ".txt"); ("srt", ".srt"); ("vtt", ".vtt"); ("json", ".json")].

(** [d.get(key, default)] *)
Fixpoint dict_get (d : list (string * string)) (key default : string) : string :=
  match d with
  | [] => default
  | (k, v) :: rest => if decide (k = key) then v else dict_get rest key default
  end.

(** ** Input expansion *)

(** [any(c in pattern for c in "*?[")] *)
Definition has_glob_char (pattern : string) : bool :=
  existsb (fun c => str_contains c pattern) ["*"; "?"; "["]%char.

(** [sorted(names)] on strings *)
Definition sorted (names : list string) : list string :=
  merge_sort String.le names.

Fixpoint expand_paths (env : Env) (fs : FS) (patterns : list string) : list Path :=
  match patterns with
  | [] => []
  | pattern :: rest =>
      (if has_glob_char pattern
       then map (fun p => resolve fs (Path_of p)) (sorted (env_glob env pattern))
       else [resolve fs (Path_of pattern)])
      ++ expand_paths env fs rest
  end.

(** ** Output placement

    A search for a free name gives [None] when it runs out of rounds,
    [Some (Raise e)] when a probe of the file system raises, and
    [Some (Ok p)] when it returns [p]. *)

(** The [while True] loop of [get_unique_output_path], run for at most
    [fuel] rounds. *)
Fixpoint unique_loop (fuel : nat) (fs : FS) (parent : Path) (stem suffix : string)
    (counter : nat) : option (outcome Path) :=
  match fuel with
  | O => None
  | S fuel' =>
      let new_path := joinpath parent (stem +:+ "-" +:+ pretty counter +:+ suffix) in
      match path_exists fs new_path with
      | Raise e => Some (Raise e)
      | Ok false => Some (Ok new_path)
      | Ok true => unique_loop fuel' fs parent stem suffix (S counter)
      end
  end.

Definition unique_from (fuel : nat) (fs : FS) (base_path : Path)
  : option (outcome Path) :=
  match path_exists fs base_path with
  | Raise e => Some (Raise e)
  | Ok false => Some (Ok base_path)
  | Ok true =>
      unique_loop fuel fs (path_parent base_path) (path_stem base_path)
        (path_suffix base_path) 1
  end.

(** One round more than there are nodes always suffices
    (see [unique_loop_enough]). *)
Definition get_unique_output_path (fs : FS) (base_path : Path)
  : option (outcome Path) :=
  unique_from (S (size (fs_nodes fs))) fs base_path.

(** [if output:] holds for a string that is given and not empty. *)
Definition given (output : option string) : option string :=
  match output with
  | Some "" => None
  | _ => output
  end.

(** The path handed to [get_unique_output_path]. *)
Definition output_candidate (fs : FS) (input_path : Path) (output : option string)
    (fmt : string) : outcome Path :=
  let ext := dict_get EXTENSION_MAP fmt ".txt" in
  match given output with
  | Some out =>
      let output_path := Path_of out in
      is_dir ← path_is_dir fs output_path;
      Ok (if is_dir : bool
          then joinpath output_path (path_stem input_path +:+ ext)
          else output_path)
  | None => Ok (joinpath (path_parent input_path) (path_stem input_path +:+ ext))
  end.

Definition get_output_path (fs : FS) (input_path : Path) (output : option string)
    (fmt : string) : option (outcome Path) :=
  match output_candidate fs input_path output fmt with
  | Raise e => Some (Raise e)
  | Ok base_path => get_unique_output_path fs base_path
  end.

(** ** The run *)

Record World := mkWorld {
  w_fs : FS;
  w_stdout : list string;
  w_stderr : list string;
  w_calls : list string
}.

Definition print (line : string) (w : World) : World :=
  mkWorld (w_fs w) (w_stdout w ++ [line]) (w_stderr w) (w_calls w).

Definition eprint (line : string) (w : World) : World :=
  mkWorld (w_fs w) (w_stdout w) (w_stderr w ++ [line]) (w_calls w).

Definition eprint_unless (quiet : bool) (line : string) (w : World) : World :=
  if quiet then w else eprint line w.

Definition called (arg : string) (w : World) : World :=
  mkWorld (w_fs w) (w_stdout w) (w_stderr w) (w_calls w ++ [arg]).

Definition stored (fs : FS) (w : World) : World :=
  mkWorld fs (w_stdout w) (w_stderr w) (w_calls w).

(** [except Exception] catches what derives from [Exception]; any other
    exception of the model leaves [transcribe]. *)
Definition transcribe (env : Env) (input_path output_path : Path) (fmt : string)
    (quiet : bool) (w : World) : outcome bool * World :=
  let w := eprint_unless quiet ("Processing " +:+ path_name input_path +:+ "...") w in
  let answer := env_transcribe env (w_calls w) (path_str input_path) in
  let w := called (path_str input_path) w in
  match answer with
  | Raise e =>
      if exn_is_exception e then
        (Ok false,
         eprint_unless quiet
           ("Error: Transcription failed for " +:+ path_name input_path +:+ ": " +:+
            exn_msg e) w)
      else (Raise e, w)
  | Ok result =>
      match format_output result fmt with
      | Raise e => (Raise e, w)
      | Ok content =>
          match write_text (w_fs w) output_path content with
          | Raise e => (Raise e, w)
          | Ok fs' => (Ok true, print (path_str output_path) (stored fs' w))
          end
      end
  end.

(** The parsed command line. *)
Record Args := mkArgs {
  a_input : list string;
  a_output : option string;
  a_format : string;
  a_quiet : bool
}.

(** How a run ends: [sys.exit(code)], an exception nobody caught, or a
    [while True] loop that never leaves. *)
Inductive ending :=
| Exit (code : Z)
| Uncaught (e : exn)
| Diverge.

(** The [for input_path in input_paths] loop with the final [sys.exit]. *)
Fixpoint batch (env : Env) (args : Args) (input_paths : list Path) (success : bool)
    (w : World) : ending * World :=
  match input_paths with
  | [] => (Exit (if success then 0 else 1), w)
  | input_path :: rest =>
      match get_output_path (w_fs w) input_path (a_output args) (a_format args) with
      | None => (Diverge, w)
      | Some (Raise e) => (Uncaught e, w)
      | Some (Ok output_path) =>
          match transcribe env input_path output_path (a_format args) (a_quiet args) w with
          | (Raise e, w') => (Uncaught e, w')
          | (Ok ok, w') => batch env args rest (if ok then success else false) w'
          end
      end
  end.

(** [[p for p in input_paths if not p.exists()]] *)
Fixpoint missing_inputs (fs : FS) (input_paths : list Path) : outcome (list Path) :=
  match input_paths with
  | [] => Ok []
  | p :: rest =>
      there ← path_exists fs p;
      missing ← missing_inputs fs rest;
      Ok (if there : bool then missing else p :: missing)
  end.

Definition report_missing (quiet : bool) (missing : list Path) (w : World) : World :=
  if quiet then w
  else fold_left
         (fun w p => eprint ("Error: Input file not found: " +:+ path_str p) w)
         missing w.

(** [args.output and not Path(args.output).is_dir()] *)
Definition output_not_dir (fs : FS) (output : option string) : outcome bool :=
  match given output with
  | Some out => is_dir ← path_is_dir fs (Path_of out); Ok (negb is_dir)
  | None => Ok false
  end.

(** [main], from the parsed arguments on. *)
Definition main (env : Env) (args : Args) (w : World) : ending * World :=
  let input_paths := expand_paths env (w_fs w) (a_input args) in
  match input_paths with
  | [] => (Exit 1, eprint_unless (a_quiet args) "Error: No matching files found" w)
  | _ =>
      match missing_inputs (w_fs w) input_paths with
      | Raise e => (Uncaught e, w)
      | Ok ((_ :: _) as missing) => (Exit 1, report_missing (a_quiet args) missing w)
      | Ok [] =>
          match (if (1 <? length input_paths)%nat
                 then output_not_dir (w_fs w) (a_output args)
                 else Ok false) with
          | Raise e => (Uncaught e, w)
          | Ok true =>
              (Exit 1,
               eprint_unless (a_quiet args)
                 "Error: Output must be a directory when processing multiple files" w)
          | Ok false =>
              let w :=
                if negb (a_quiet args) && negb (env_cached env)
                then eprint ("Model not found locally. Downloading " +:+ MODEL_ID +:+ "...") w
                else w in
              match env_load env with
              | Some e => (Uncaught e, w)
              | None => batch env args input_paths true w
              end
          end
      end
  end.

(** ** Notions used in the statements *)

Definition hello_world : TranscriptResult :=
  mkResult "Hello World"
    [ mkSentence "Hello" (PyFloat.of_Z 0) (PyFloat.of_decimal 15 1);
      mkSentence "World" (PyFloat.of_decimal 15 1) (PyFloat.of_Z 3) ].

(** The text that ends in a blank line after the last block. *)
Definition srt_with_trailing_blank_line : string :=
  "1
00:00:00,000 --> 00:00:01,500
Hello

2
00:00:01,500 --> 00:00:03,000
World

".

Definition known_format (fmt : string) : Prop :=
  fmt = "txt" \/ fmt = "srt" \/ fmt = "vtt" \/ fmt = "json".

(** A working directory [/data] with four recordings, one of them named
    with brackets.  [glob] reads [take[1].mp3] as a pattern with the
    character class [[1]], which no file name here matches. *)
Definition data_fs : FS :=
  mkFS "/data"
    (list_to_map
       [ (["data"], Dir);
         (["data"; "a.mp3"], File "A");
         (["data"; "b.mp3"], File "B");
         (["data"; "c.mp3"], File "C");
         (["data"; "take[1].mp3"], File "T") ])
    ∅.

Definition data_env : Env :=
  mkEnv
    (fun pattern =>
       if decide (pattern = "*.mp3") then ["b.mp3"; "take[1].mp3"; "c.mp3"; "a.mp3"] else [])
    true None
    (fun _ audio =>
       if decide (audio = "/data/b.mp3")
       then Raise (mkExn "RuntimeError" "corrupt audio")
       else Ok hello_world).

Definition not_found_line (p : Path) : string :=
  "Error: Input file not found: " +:+ path_str p.

(** The first exception in a list of answers, when one of them raises. *)
Fixpoint first_raise {A} (l : list (outcome A)) : option exn :=
  match l with
  | [] => None
  | Ok _ :: rest => first_raise rest
  | Raise e :: _ => Some e
  end.

(** The existence check of the path answers that there is nothing. *)
Definition is_missing (fs : FS) (p : Path) : bool :=
  match path_exists fs p with
  | Ok false => true
  | _ => false
  end.

(** A name of 256 bytes, one more than a name may have. *)
Definition long_name : string := str_repeat "a" 252 +:+ ".wav".

Definition is_component (c : string) : bool :=
  keep_segment c && negb (str_contains "/" c).

Definition wf_path (p : Path) : bool := forallb is_component (p_parts p).

Definition numbered_name (stem suffix : string) (n : nat) : string :=
  stem +:+ "-" +:+ pretty n +:+ suffix.

(** The candidates tried by the loop of [get_unique_output_path]. *)
Definition candidate (parent : Path) (stem suffix : string) (n : nat) : Path :=
  joinpath parent (numbered_name stem suffix n).


Definition taken_fs : FS :=
  mkFS "/data"
    (list_to_map
       [ (["data"], Dir);
         (["data"; "a.mp3"], File "A");
         (["data"; "a.txt"], File "first");
         (["data"; "a-1.txt"], File "second") ])
    ∅.

(** [p.read_text()], when [p] is a file. *)
Definition file_content (fs : FS) (p : Path) : option string :=
  match stat fs p with
  | inr key =>
      match fs_node fs key with
      | Some (File content) => Some content
      | _ => None
      end
  | inl _ => None
  end.

(** The second file system has every node of the first, unchanged. *)
Definition fs_extends (fs fs' : FS) : Prop :=
  fs_cwd fs' = fs_cwd fs /\ fs_nodes fs ⊆ fs_nodes fs' /\
  fs_readonly fs' = fs_readonly fs.

(** The answers of the model to the inputs of a batch, in order, when the
    model has been called with [calls] before. *)
Fixpoint answers (env : Env) (calls : list string) (input_paths : list Path)
  : list (outcome TranscriptResult) :=
  match input_paths with
  | [] => []
  | p :: rest =>
      env_transcribe env calls (path_str p)
      :: answers env (calls ++ [path_str p]) rest
  end.

Definition is_ok {A} (o : outcome A) : bool :=
  match o with Ok _ => true | Raise _ => false end.

Fixpoint successes {A} (l : list (outcome A)) : list A :=
  match l with
  | [] => []
  | Ok a :: rest => a :: successes rest
  | Raise _ :: rest => successes rest
  end.


(** The answer is an exception that [transcribe] does not catch. *)
Definition is_escape {A} (o : outcome A) : bool :=
  match o with
  | Ok _ => false
  | Raise e => negb (exn_is_exception e)
  end.

(** What one input puts on the diagnostic channel. *)
Definition item_diagnostics (quiet : bool) (p : Path)
    (answer : outcome TranscriptResult) : list string :=
  if quiet then []
  else ("Processing " +:+ path_name p +:+ "...") ::
       match answer with
       | Ok _ => []
       | Raise e =>
           if exn_is_exception e
           then ["Error: Transcription failed for " +:+ path_name p +:+ ": " +:+
                 exn_msg e]
           else []
       end.

Fixpoint diagnostics (quiet : bool) (input_paths : list Path)
    (l : list (outcome TranscriptResult)) : list string :=
  match input_paths, l with
  | p :: ps, a :: rest => item_diagnostics quiet p a ++ diagnostics quiet ps rest
  | _, _ => []
  end.

(** The transcript [result] went to the new file [out]. *)
Definition written (before after : FS) (fmt : string) (out : Path)
    (result : TranscriptResult) : Prop :=
  path_exists before out = Ok false /\
  exists content,
    format_output result fmt = Ok content /\
    file_content after out = Some content.

(** The exception [e] comes from formatting or storing a transcript. *)
Definition raised_after_transcription (fmt : string) (result : TranscriptResult)
    (e : exn) : Prop :=
  format_output result fmt = Raise e \/
  exists content fs out,
    format_output result fmt = Ok content /\ write_text fs out content = Raise e.

(** The exception [e] comes from a check of a path that the file system
    refused: a name or a path that is too long. *)
Definition probe_error (e : exn) : Prop :=
  exists p, e = OSError ENAMETOOLONG (path_str p).

(** The exception [e] ends the batch at an input with this answer of the
    model: the answer is [e] itself and [except Exception] does not catch
    it, or the answer is a transcript and [e] comes from formatting or
    storing it. *)
Definition cuts_short (fmt : string) (answer : outcome TranscriptResult) (e : exn)
  : Prop :=
  match answer with
  | Raise e' => e' = e /\ exn_is_exception e = false
  | Ok result => raised_after_transcription fmt result e
  end.

(** The world after one input: the file system it leaves, the lines it
    printed, its diagnostics and the call it made. *)
Definition after_item (quiet : bool) (p : Path) (answer : outcome TranscriptResult)
    (fs : FS) (out : list string) (w : World) : World :=
  mkWorld fs (w_stdout w ++ out)
    (w_stderr w ++ item_diagnostics quiet p answer)
    (w_calls w ++ [path_str p]).

(** The same directory, refusing new entries. *)
Definition locked_fs : FS :=
  mkFS (fs_cwd data_fs) (fs_nodes data_fs) {[ ["data"] ]}.

Definition three_inputs : list Path :=
  [Path_of "/data/a.mp3"; Path_of "/data/b.mp3"; Path_of "/data/c.mp3"].

Definition txt_args : Args := mkArgs ["a.mp3"; "b.mp3"; "c.mp3"] None "txt" false.

(** The collaborators of the examples, interrupted from the keyboard
    during the second file. *)
Definition interrupted_env : Env :=
  mkEnv (env_glob data_env) true None
    (fun _ audio =>
       if decide (audio = "/data/b.mp3")
       then Raise (mkBaseExn "KeyboardInterrupt" "" false)
       else Ok hello_world).

(** The text written for the float is read back as the same float. *)
Definition reads_back (x : PyFloat.float) : bool :=
  match scan_scalar (float_token x) with
  | Ok (JFloat y, EmptyString) => bool_decide (y = x)
  | _ => false
  end.

(** A character that cannot continue a number. *)
Definition number_stop (rest : string) : bool :=
  match rest with
  | EmptyString => true
  | String c _ =>
      negb (is_digit c) && negb (bool_decide (c = "."%char)) &&
      negb (bool_decide (c = "e"%char)) && negb (bool_decide (c = "E"%char)) &&
      negb (bool_decide (c = "+"%char)) && negb (bool_decide (c = "-"%char))
  end.

(** The first character of the text of a float. *)
Definition float_start (c : ascii) : bool :=
  is_digit c || bool_decide (c = "-"%char) || bool_decide (c = "N"%char)
  || bool_decide (c = "I"%char).

Definition sentences_ok (sentences : list Sentence) : Prop :=
  Forall (fun s => reads_back (s_start s) = true /\ reads_back (s_end s) = true)
    sentences.

(** ** Binary64 numbers as exact quantities *)

Abbreviation fexp64 := (fexp PyFloat.prec PyFloat.emax).
Abbreviation bounded64 := (bounded PyFloat.prec PyFloat.emax).

(** Values are counted in ticks: multiples of the smallest positive
    binary64 number, [2^-1074]. *)
Definition unit_ticks : Z := 2 ^ 1074.

Definition ticks (x : PyFloat.float) : Z :=
  match x with
  | S754_finite s m e => cond_Zopp s (Zpos m * 2 ^ (e + 1074))
  | _ => 0
  end.

(** The float of a non-negative value given in ticks. *)
Definition of_ticks (t : Z) : PyFloat.float :=
  binary_normalize PyFloat.prec PyFloat.emax t (-1074) false.

(** A non-negative finite float in canonical form. *)
Definition nonneg_canonical (x : PyFloat.float) : Prop :=
  x = S754_zero false \/
  exists m e, x = S754_finite false m e /\ bounded64 m e = true.

(** The ticks of a non-negative float: a multiple of a power of two, with
    at most 53 bits before it. *)
Definition representable (t : Z) : Prop :=
  exists a j, 0 <= a <= 2045 /\ 0 <= j < 2 ^ 53 /\ t = j * 2 ^ a.

(** The number of ticks in one, as a denominator. *)
Definition unit_pos : positive := 2 ^ 1074.

(** The number a float stands for. *)
Definition float_value (x : PyFloat.float) : Q :=
  match x with
  | S754_finite s m e => (inject_Z (cond_Zopp s (Zpos m)) * 2 ^ e)%Q
  | _ => 0%Q
  end.

(** [a mod b] with the sign of [b], as Python's [%]. *)
Definition Qmod (a b : Q) : Q := (a - b * inject_Z (Qfloor (a / b)))%Q.

(** A non-negative finite float in canonical form, as a test. *)
Definition nonneg_finite (x : PyFloat.float) : bool :=
  match x with
  | S754_zero false => true
  | S754_finite false m e => bounded PyFloat.prec PyFloat.emax m e
  | _ => false
  end.

(** ** Notions used in the further properties *)

(** The record of the quotient [A / B] cut at the unit: its integer part,
    whether the rest reaches one half, and whether the rest is neither
    zero nor one half. *)
Definition rep (A B : Z) : shr_record :=
  Build_shr_record (A / B) (B <=? 2 * (A mod B))
    (negb (A mod B =? 0) && negb (2 * (A mod B) =? B)).

(** What rounding does once the value is cut at the exponent of the result. *)
Definition finish (s : bool) (mrs : shr_record) (E : Z) : PyFloat.float :=
  let '(mrs'', e'') :=
    shr_fexp PyFloat.prec PyFloat.emax
      (round_nearest_even (shr_m mrs) (loc_of_shr_record mrs)) E loc_Exact in
  match shr_m mrs'' with
  | Z0 => S754_zero s
  | Zpos m =>
      if e'' <=? PyFloat.emax - PyFloat.prec then S754_finite s m e''
      else S754_infinity s
  | Zneg _ => S754_nan
  end.

(** The float nearest to the ratio [a / b] of two positive integers. *)
Definition round_ratio (s : bool) (a b : Z) : PyFloat.float :=
  let '(q, e, l) := SFdiv_core_binary PyFloat.prec PyFloat.emax a 0 b 0 in
  binary_round_aux PyFloat.prec PyFloat.emax s q e l.

Fixpoint all_digits (s : string) : bool :=
  match s with
  | EmptyString => true
  | String c s' => is_digit c && all_digits s'
  end.

(** What follows a run of digits: no digit. *)
Definition no_digit_first (rest : string) : bool :=
  match rest with
  | EmptyString => true
  | String c _ => negb (is_digit c)
  end.

(** The digits before the point: a zero, or digits that start with
    another digit. *)
Definition int_part (ip : string) : bool :=
  match ip with
  | EmptyString => false
  | String c t =>
      if decide (c = "0"%char) then bool_decide (t = EmptyString)
      else is_digit c && all_digits t
  end.

(** [match_number] once the sign is read. *)
Definition number_unsigned (neg : bool) (s1 : string) : option (json * string) :=
  match scan_integer s1 with
  | None => None
  | Some (int_digits, s2) =>
      match scan_frac s2 with
      | Some (frac_digits, s3) =>
          match scan_exp s3 with
          | Some (e, s4) => Some (JFloat (float_of_literal neg int_digits frac_digits e), s4)
          | None => Some (JFloat (float_of_literal neg int_digits frac_digits 0), s3)
          end
      | None =>
          match scan_exp s2 with
          | Some (e, s4) => Some (JFloat (float_of_literal neg int_digits "" e), s4)
          | None => Some (JInt (cond_Zopp neg (digits_value 0 int_digits)), s2)
          end
      end
  end.

(** The times of the sentences are binary64 numbers: a NaN, an infinity, a
    zero, or a mantissa and an exponent in canonical form. *)
Definition valid_times (sentences : list Sentence) : Prop :=
  Forall (fun s => valid_binary PyFloat.prec PyFloat.emax (s_start s) = true /\
                   valid_binary PyFloat.prec PyFloat.emax (s_end s) = true)
    sentences.

(** A transcript whose times need seventeen digits, an exponent, or a name. *)
Definition awkward_times : TranscriptResult :=
  mkResult "a b c"
    [ mkSentence "a" (PyFloat.of_scaled false 1 (-1)) (PyFloat.of_scaled false 3 (-1));
      mkSentence "b" (PyFloat.fadd (PyFloat.of_scaled false 1 (-1))
                                   (PyFloat.of_scaled false 2 (-1)))
                     (PyFloat.of_scaled false 1 22);
      mkSentence "c" (S754_finite false 1 (-1074)) S754_nan;
      mkSentence "" (S754_zero true) (S754_infinity true) ].

Definition is_finite (x : PyFloat.float) : bool :=
  match x with
  | S754_zero _ | S754_finite _ _ _ => true
  | S754_infinity _ | S754_nan => false
  end.

Definition nan_to_integer : exn :=
  PyFloat.ValueError "cannot convert float NaN to integer".

Definition infinity_to_integer : exn :=
  PyFloat.OverflowError "cannot convert float infinity to integer".

(** A transcript with an open end: the last sentence ends at infinity. *)
Definition open_ended : TranscriptResult :=
  mkResult "Hello"
    [ mkSentence "Hello" (PyFloat.of_Z 0) (S754_infinity false) ].

(** One block: the counter, the time range and the text, each on a line. *)
Definition cue_block (i : nat) (range text : string) : string :=
  pretty i +:+ newline +:+ range +:+ newline +:+ text +:+ newline.

(** The blocks of the sentences, numbered from [i], when every time can be
    written. *)
Inductive cue_blocks (fmt : string) : nat -> list Sentence -> list string -> Prop :=
| blocks_nil i : cue_blocks fmt i [] []
| blocks_cons i s rest start end_ blocks :
    format_timestamp (s_start s) fmt = Ok start ->
    format_timestamp (s_end s) fmt = Ok end_ ->
    cue_blocks fmt (S i) rest blocks ->
    cue_blocks fmt i (s :: rest)
      (cue_block i (start +:+ " --> " +:+ end_) (s_text s) :: blocks).

(** The times of the sentences are ordinary timestamps: finite, not
    negative, below [2^53] seconds. *)
Definition ordinary_times (sentences : list Sentence) : Prop :=
  Forall (fun s => (nonneg_finite (s_start s) = true /\
                    (float_value (s_start s) < inject_Z (2 ^ 53))%Q) /\
                   (nonneg_finite (s_end s) = true /\
                    (float_value (s_end s) < inject_Z (2 ^ 53))%Q))
    sentences.




(** A quiet run over files of which the second cannot be read. *)
Definition quiet_args : Args := mkArgs ["a.mp3"; "b.mp3"; "c.mp3"] None "txt" true.

(** A run over a directory in which [a.txt] and [a-1.txt] are taken. *)
Definition taken_args : Args := mkArgs ["a.mp3"] None "txt" true.

(** The line that announces a download. *)
Definition download_notice : string :=
  "Model not found locally. Downloading " +:+ MODEL_ID +:+ "...".

(** The world when the model is about to be loaded. *)
Definition before_loading (env : Env) (args : Args) (w : World) : World :=
  mkWorld (w_fs w) (w_stdout w)
    (w_stderr w ++
     (if negb (a_quiet args) && negb (env_cached env) then [download_notice] else []))
    (w_calls w).




(** A component of a resolved path: not empty, no dot or double dot, no
    slash inside. *)
Definition plain_component (c : string) : Prop :=
  c <> "" /\ c <> "." /\ c <> ".." /\ str_contains "/" c = false.

(** * Properties *)


(** ** Subtitle output *)

(** C1, as stated, fails: the output for the two sentences does not end in a
    blank line after the last block. *)
Lemma srt_hello_world_no_trailing_blank_line :
  format_output hello_world "srt" <> Ok srt_with_trailing_blank_line.
Proof. vm_compute. discriminate. Qed.

(** C1 (amended): for the sentences Hello (0.0 to 1.5) and World (1.5 to
    3.0) the srt output is the two blocks of counter, time range and text,
    separated by one blank line and ended by a single newline. *)
Theorem srt_hello_world :
  format_output hello_world "srt" = Ok
  "1
00:00:00,000 --> 00:00:01,500
Hello

2
00:00:01,500 --> 00:00:03,000
World
".
Proof. vm_compute. reflexivity. Qed.

(** ** Unrecognized formats *)

Lemma dict_get_unknown fmt :
  ~ known_format fmt -> dict_get EXTENSION_MAP fmt ".txt" = ".txt".
Proof.
  unfold known_format. intros Hfmt. simpl.
  repeat (case_decide; [exfalso; apply Hfmt; subst; tauto|]). reflexivity.
Qed.

(** C8: a format outside txt, srt, vtt and json gets the [.txt] extension,
    so the output path is the one computed for txt, and the result is
    the full text, as for txt; no error is raised. *)
Theorem unknown_format_falls_back_to_txt (fmt : string) :
  ~ known_format fmt ->
  dict_get EXTENSION_MAP fmt ".txt" = ".txt" /\
  (forall fs input_path output,
      get_output_path fs input_path output fmt
      = get_output_path fs input_path output "txt") /\
  (forall result,
      format_output result fmt = Ok (r_text result) /\
      format_output result fmt = format_output result "txt").
Proof.
  intros Hfmt. pose proof (dict_get_unknown fmt Hfmt) as Hext.
  split; [exact Hext|]. split.
  - intros fs input_path output. unfold get_output_path, output_candidate.
    rewrite Hext. reflexivity.
  - intros result. unfold known_format in Hfmt. unfold format_output.
    repeat (case_decide; [exfalso; subst; tauto|]).
    split; reflexivity.
Qed.

Lemma unknown_format_witness :
  get_output_path (mkFS "/" ∅ ∅) (Path_of "/a/talk.mp3") None "xml"
  = Some (Ok (Path_of "/a/talk.txt")) /\
  format_output hello_world "xml" = Ok "Hello World".
Proof.
  assert (Hxml : ~ known_format "xml").
  { unfold known_format. intros [H|[H|[H|H]]]; discriminate H. }
  destruct (unknown_format_falls_back_to_txt "xml" Hxml) as (_ & Hpath & Hout).
  split.
  - rewrite Hpath. vm_compute. reflexivity.
  - apply Hout.
Defined.

(** ** Input expansion *)

Lemma expand_paths_app env fs ps qs :
  expand_paths env fs (ps ++ qs) = expand_paths env fs ps ++ expand_paths env fs qs.
Proof.
  induction ps as [|p ps IH]; simpl; [reflexivity|].
  rewrite IH, app_assoc. reflexivity.
Qed.

Lemma expand_paths_flat_map env fs patterns :
  expand_paths env fs patterns
  = flat_map (fun p => expand_paths env fs [p]) patterns.
Proof.
  induction patterns as [|p ps IH]; simpl; [reflexivity|].
  rewrite IH, app_nil_r. reflexivity.
Qed.

Lemma sorted_spec names :
  Sorted String.le (sorted names) /\ sorted names ≡ₚ names.
Proof.
  split.
  - apply (Sorted_merge_sort String.le).
  - apply merge_sort_Permutation.
Qed.

Lemma sorted_nil : sorted [] = [].
Proof. reflexivity. Qed.

(** C5: patterns are expanded in the given order and their results are
    concatenated as they are; a pattern without a glob character gives
    exactly one absolute path, whether or not it exists; a glob pattern gives
    its matches sorted by their string form, and none when nothing
    matches. *)
Theorem expand_paths_in_pattern_order (env : Env) (fs : FS) :
  (forall patterns,
      expand_paths env fs patterns
      = flat_map (fun p => expand_paths env fs [p]) patterns) /\
  (forall ps qs,
      expand_paths env fs (ps ++ qs)
      = expand_paths env fs ps ++ expand_paths env fs qs) /\
  (forall pattern,
      has_glob_char pattern = false ->
      expand_paths env fs [pattern] = [resolve fs (Path_of pattern)] /\
      p_abs (resolve fs (Path_of pattern)) = true) /\
  (forall pattern,
      has_glob_char pattern = true ->
      exists names,
        Sorted String.le names /\ names ≡ₚ env_glob env pattern /\
        expand_paths env fs [pattern] = map (fun p => resolve fs (Path_of p)) names) /\
  (forall pattern,
      has_glob_char pattern = true -> env_glob env pattern = [] ->
      expand_paths env fs [pattern] = []).
Proof.
  split; [apply expand_paths_flat_map|].
  split; [apply expand_paths_app|].
  split; [|split].
  - intros pattern Hlit. simpl. rewrite Hlit. split; reflexivity.
  - intros pattern Hglob. exists (sorted (env_glob env pattern)).
    destruct (sorted_spec (env_glob env pattern)) as [Hs Hp].
    split; [exact Hs|]. split; [exact Hp|].
    simpl. rewrite Hglob, app_nil_r. reflexivity.
  - intros pattern Hglob Hnone. simpl. rewrite Hglob, Hnone. reflexivity.
Qed.

Lemma expand_paths_witness :
  expand_paths data_env data_fs ["*.mp3"; "gone.wav"; "*.flac"; "a.mp3"]
  = [ Path_of "/data/a.mp3"; Path_of "/data/b.mp3"; Path_of "/data/c.mp3";
      Path_of "/data/take[1].mp3"; Path_of "/data/gone.wav"; Path_of "/data/a.mp3" ] /\
  path_exists data_fs (Path_of "/data/gone.wav") = Ok false.
Proof.
  destruct (expand_paths_in_pattern_order data_env data_fs)
    as (Hflat & _ & Hlit & _ & Hnone).
  split; [|vm_compute; reflexivity].
  rewrite Hflat. cbn [flat_map].
  rewrite (Hnone "*.flac" eq_refl eq_refl).
  destruct (Hlit "gone.wav" eq_refl) as [-> _].
  destruct (Hlit "a.mp3" eq_refl) as [-> _].
  vm_compute. reflexivity.
Defined.

(** ** Glob characters *)

Lemma str_contains_In c s :
  str_contains c s = true <-> In c (String.list_ascii_of_string s).
Proof.
  induction s as [|a s IH]; simpl.
  - split; [discriminate|tauto].
  - case_decide as Hac.
    + split; [auto|reflexivity].
    + rewrite IH. split; [auto|]. intros [H|H]; [contradiction|exact H].
Qed.

Lemma has_glob_char_iff pattern :
  has_glob_char pattern = true <->
  exists c, (c = "*" \/ c = "?" \/ c = "[")%char /\ In c (String.list_ascii_of_string pattern).
Proof.
  unfold has_glob_char. rewrite existsb_exists. split.
  - intros (c & Hc & Hin). exists c. rewrite <- str_contains_In. split; [|exact Hin].
    simpl in Hc. destruct Hc as [<- | [<- | [<- | []]]]; auto.
  - intros (c & Hc & Hin). exists c. rewrite str_contains_In. split; [|exact Hin].
    simpl. destruct Hc as [-> | [-> | ->]]; auto.
Qed.

(** C10: a pattern is expanded as a glob exactly when it contains one of
    the characters *, ? and [: with one of them it contributes the matches
    that glob reports, sorted and resolved, and nothing else; without any
    it contributes its own resolved path.  So a string with a bracket
    contributes exactly the matches of glob, and when glob reports none it
    contributes nothing, even if it names an existing file. *)
Theorem bracket_is_always_a_glob (env : Env) (fs : FS) (pattern : string) :
  (has_glob_char pattern = true <->
   exists c, (c = "*" \/ c = "?" \/ c = "[")%char /\
             In c (String.list_ascii_of_string pattern)) /\
  (has_glob_char pattern = true ->
   expand_paths env fs [pattern]
   = map (fun name => resolve fs (Path_of name)) (sorted (env_glob env pattern))) /\
  (has_glob_char pattern = false ->
   expand_paths env fs [pattern] = [resolve fs (Path_of pattern)]) /\
  (In "["%char (String.list_ascii_of_string pattern) ->
   expand_paths env fs [pattern]
   = map (fun name => resolve fs (Path_of name)) (sorted (env_glob env pattern)) /\
   (forall p, In p (expand_paths env fs [pattern]) <->
              exists name, In name (env_glob env pattern) /\
                           p = resolve fs (Path_of name)) /\
   (env_glob env pattern = [] -> expand_paths env fs [pattern] = [])).
Proof.
  assert (Hexp : has_glob_char pattern = true ->
                 expand_paths env fs [pattern]
                 = map (fun name => resolve fs (Path_of name))
                     (sorted (env_glob env pattern))).
  { intros Hglob. simpl. rewrite Hglob, app_nil_r. reflexivity. }
  split; [apply has_glob_char_iff|]. split; [exact Hexp|]. split.
  { intros Hlit. simpl. rewrite Hlit. reflexivity. }
  intros Hbr.
  assert (Hglob : has_glob_char pattern = true).
  { apply has_glob_char_iff. exists "["%char. tauto. }
  split; [exact (Hexp Hglob)|]. split.
  - intros p. rewrite (Hexp Hglob), in_map_iff.
    destruct (sorted_spec (env_glob env pattern)) as [_ Hperm].
    split.
    + intros (name & <- & Hin). exists name. split; [|reflexivity].
      rewrite <- list_elem_of_In in *. rewrite <- Hperm. exact Hin.
    + intros (name & Hin & ->). exists name. split; [reflexivity|].
      rewrite <- list_elem_of_In in *. rewrite Hperm. exact Hin.
  - intros Hnone. simpl. rewrite Hglob, Hnone. reflexivity.
Qed.

Lemma bracket_witness :
  path_exists data_fs (resolve data_fs (Path_of "take[1].mp3")) = Ok true /\
  expand_paths data_env data_fs ["take[1].mp3"] = [] /\
  expand_paths data_env data_fs ["*.mp3"]
  = [ Path_of "/data/a.mp3"; Path_of "/data/b.mp3"; Path_of "/data/c.mp3";
      Path_of "/data/take[1].mp3" ] /\
  expand_paths data_env data_fs ["take1.mp3"] = [Path_of "/data/take1.mp3"].
Proof.
  split; [vm_compute; reflexivity|].
  destruct (bracket_is_always_a_glob data_env data_fs "take[1].mp3")
    as (_ & _ & _ & Hbr).
  destruct (bracket_is_always_a_glob data_env data_fs "*.mp3") as (_ & Hglob & _).
  destruct (bracket_is_always_a_glob data_env data_fs "take1.mp3")
    as (_ & _ & Hlit & _).
  split; [|split].
  - apply Hbr; [vm_compute; tauto|reflexivity].
  - rewrite (Hglob eq_refl). vm_compute. reflexivity.
  - rewrite (Hlit eq_refl). vm_compute. reflexivity.
Defined.

(** ** Validation of the inputs *)

Lemma report_missing_spec quiet missing w :
  report_missing quiet missing w
  = mkWorld (w_fs w) (w_stdout w)
      (w_stderr w ++ (if quiet then [] else map not_found_line missing))
      (w_calls w).
Proof.
  unfold report_missing. destruct quiet.
  - rewrite app_nil_r. destruct w; reflexivity.
  - revert w. induction missing as [|p ps IH]; intros w; simpl.
    + rewrite app_nil_r. destruct w; reflexivity.
    + rewrite IH. simpl. rewrite <- app_assoc. reflexivity.
Qed.

(** The list of missing inputs is made when every check answers; the
    first check that raises ends it. *)
Lemma missing_inputs_spec fs paths :
  missing_inputs fs paths
  = match first_raise (map (path_exists fs) paths) with
    | Some e => Raise e
    | None => Ok (List.filter (is_missing fs) paths)
    end.
Proof.
  induction paths as [|p ps IH]; cbn [missing_inputs map first_raise List.filter];
    [reflexivity|].
  unfold is_missing at 1.
  destruct (path_exists fs p) as [[|]|e]; cbn [mbind outcome_bind]; [| |reflexivity];
    rewrite IH; destruct (first_raise (map (path_exists fs) ps)); reflexivity.
Qed.

(** C6, as stated, fails: in a run over [gone.wav], which does not exist,
    and a name of 256 bytes, which cannot exist, nothing is reported: the
    check of the second input raises and ends the run. *)
Lemma missing_input_can_go_unreported :
  path_exists data_fs (Path_of "/data/gone.wav") = Ok false /\
  fs_nodes data_fs !! ["data"; long_name] = None /\
  main data_env (mkArgs ["gone.wav"; long_name] None "txt" false)
    (mkWorld data_fs [] [] [])
  = (Uncaught (OSError ENAMETOOLONG ("/data/" +:+ long_name)),
     mkWorld data_fs [] [] []).
Proof. repeat split; vm_compute; reflexivity. Qed.

(** C6 (amended): when some expanded input does not exist and every existence check
    answers, the run ends with status 1 after reporting each input that
    does not exist, in order (nothing when quiet).  When a check raises
    instead, the first such exception ends the run and nothing is
    reported.  Either way the model was never called, no file was written
    and nothing went to standard output. *)
Theorem missing_input_fails_before_processing
    (env : Env) (args : Args) (w : World) (p : Path) :
  In p (expand_paths env (w_fs w) (a_input args)) ->
  path_exists (w_fs w) p = Ok false ->
  exists ending w',
    main env args w = (ending, w') /\
    w_calls w' = w_calls w /\
    w_fs w' = w_fs w /\
    w_stdout w' = w_stdout w /\
    match first_raise (map (path_exists (w_fs w))
                         (expand_paths env (w_fs w) (a_input args))) with
    | None =>
        ending = Exit 1 /\
        w_stderr w' =
          w_stderr w ++
          (if a_quiet args then []
           else map not_found_line
                  (List.filter (is_missing (w_fs w))
                     (expand_paths env (w_fs w) (a_input args))))
    | Some e => ending = Uncaught e /\ w_stderr w' = w_stderr w
    end.
Proof.
  intros Hin Hex. unfold main. rewrite missing_inputs_spec.
  destruct (expand_paths env (w_fs w) (a_input args)) as [|q qs] eqn:Hexp;
    [destruct Hin|].
  destruct (first_raise (map (path_exists (w_fs w)) (q :: qs))) as [e|].
  { exists (Uncaught e), w. repeat split; reflexivity. }
  assert (Hp : In p (List.filter (is_missing (w_fs w)) (q :: qs))).
  { apply filter_In. split; [exact Hin|]. unfold is_missing. rewrite Hex. reflexivity. }
  destruct (List.filter (is_missing (w_fs w)) (q :: qs)) as [|m ms]; [destruct Hp|].
  eexists _, _. split; [reflexivity|].
  rewrite report_missing_spec. cbn [w_calls w_fs w_stdout w_stderr].
  repeat split; reflexivity.
Qed.

Lemma missing_input_witness :
  (exists w',
    main data_env (mkArgs ["gone.wav"; "a.mp3"; "lost.wav"] None "txt" false)
      (mkWorld data_fs [] [] [])
    = (Exit 1, w') /\
    w_calls w' = [] /\ w_fs w' = data_fs /\ w_stdout w' = [] /\
    w_stderr w' = ["Error: Input file not found: /data/gone.wav";
                   "Error: Input file not found: /data/lost.wav"]) /\
  (exists e,
    main data_env (mkArgs ["gone.wav"; long_name] None "txt" false)
      (mkWorld data_fs [] [] [])
    = (Uncaught e, mkWorld data_fs [] [] []) /\
    exn_class e = "OSError" /\
    path_exists data_fs (resolve data_fs (Path_of long_name)) = Raise e).
Proof.
  split.
  - destruct (missing_input_fails_before_processing data_env
                (mkArgs ["gone.wav"; "a.mp3"; "lost.wav"] None "txt" false)
                (mkWorld data_fs [] [] []) (Path_of "/data/gone.wav"))
      as (ending & w' & Hmain & Hcalls & Hfs & Hout & Hend).
    + vm_compute. auto.
    + vm_compute. reflexivity.
    + vm_compute in Hend. destruct Hend as [-> Herr].
      exists w'. auto 10.
  - destruct (missing_input_fails_before_processing data_env
                (mkArgs ["gone.wav"; long_name] None "txt" false)
                (mkWorld data_fs [] [] []) (Path_of "/data/gone.wav"))
      as (ending & w' & Hmain & Hcalls & Hfs & Hout & Hend).
    + vm_compute. auto.
    + vm_compute. reflexivity.
    + eexists. split; [vm_compute; reflexivity|]. split; vm_compute; reflexivity.
Defined.
(** ** Strings *)

Lemma str_contains_app c a b :
  str_contains c (a +:+ b) = str_contains c a || str_contains c b.
Proof.
  induction a as [|x a IH]; simpl; [reflexivity|].
  case_decide; [reflexivity|exact IH].
Qed.

Lemma str_contains_substring c s i n :
  str_contains c (String.substring i n s) = true -> str_contains c s = true.
Proof.
  revert i n. induction s as [|x s IH]; intros i n; simpl.
  - destruct i, n; simpl; auto.
  - destruct i as [|i].
    + destruct n as [|n]; simpl; [discriminate|].
      case_decide; [reflexivity|]. apply IH.
    + intros H. apply IH in H. case_decide; [reflexivity|exact H].
Qed.

Lemma str_len_app a b : str_len (a +:+ b) = (str_len a + str_len b)%nat.
Proof. induction a as [|x a IH]; simpl; [reflexivity|]. unfold str_len in *. simpl. rewrite IH. reflexivity. Qed.

Lemma str_app_inj_r a b s : a +:+ s = b +:+ s -> a = b.
Proof.
  intros H.
  assert (Hlen : str_len a = str_len b).
  { apply (f_equal str_len) in H. rewrite !str_len_app in H. lia. }
  revert b H Hlen. induction a as [|x a IH]; intros [|y b] H Hlen; simpl in *;
    try reflexivity; try discriminate.
  injection H as -> H. f_equal. apply IH; [exact H|]. unfold str_len in *. simpl in Hlen. lia.
Qed.

Lemma pretty_N_char_digit x : is_digit (pretty_N_char x) = true.
Proof. unfold pretty_N_char. repeat case_match; reflexivity. Qed.

Lemma pretty_N_go_chars c x s :
  str_contains c (pretty_N_go x s) = true ->
  is_digit c = true \/ str_contains c s = true.
Proof.
  revert s. induction (N.lt_wf_0 x) as [x _ IH]; intros s.
  assert (x = 0 ∨ 0 < x)%N as [->|Hx] by lia.
  - rewrite pretty_N_go_0. auto.
  - rewrite pretty_N_go_step by done. intros H.
    apply IH in H; [|by apply N.div_lt].
    destruct H as [H|H]; [auto|]. simpl in H.
    case_decide as Hc; [|auto]. left. rewrite <- Hc. apply pretty_N_char_digit.
Qed.

Lemma pretty_nat_chars c (n : nat) :
  str_contains c (pretty n) = true -> is_digit c = true.
Proof.
  unfold pretty, pretty_nat, pretty, pretty_N. case_decide as Hz.
  - simpl. case_decide as Hc; [|discriminate]. intros _. rewrite <- Hc. reflexivity.
  - intros H. apply pretty_N_go_chars in H. destruct H as [H|H]; [exact H|discriminate].
Qed.

(** ** Paths *)

Lemma str_split_plain sep s :
  str_contains sep s = false -> str_split sep s = [s].
Proof.
  induction s as [|a s IH]; simpl; [reflexivity|].
  case_decide; [discriminate|]. intros Hs. rewrite (IH Hs). reflexivity.
Qed.

Lemma root_of_plain c : str_contains "/" c = false -> root_of c = NoRoot.
Proof.
  destruct c as [|a c]; [reflexivity|]. simpl.
  case_decide as Ha; [discriminate|]. intros _.
  destruct a as [[] [] [] [] [] [] [] []]; try reflexivity. exfalso. apply Ha. reflexivity.
Qed.

Lemma Path_of_component c :
  is_component c = true -> Path_of c = mkPath NoRoot [c].
Proof.
  unfold is_component. intros [Hk Hs]%andb_prop.
  apply negb_true_iff in Hs. unfold Path_of.
  rewrite (str_split_plain _ _ Hs), (root_of_plain _ Hs). simpl. rewrite Hk. reflexivity.
Qed.

Lemma joinpath_component p c :
  is_component c = true -> joinpath p c = mkPath (p_root p) (p_parts p ++ [c]).
Proof. intros H. unfold joinpath. rewrite (Path_of_component c H). reflexivity. Qed.

Lemma path_name_plain p :
  wf_path p = true -> str_contains "/" (path_name p) = false.
Proof.
  unfold wf_path, path_name. intros H.
  destruct (p_parts p) as [|c cs] eqn:Hparts using rev_ind; [reflexivity|].
  rewrite last_last. rewrite forallb_app in H. apply andb_prop in H as [_ H].
  simpl in H. rewrite andb_true_r in H. unfold is_component in H.
  apply andb_prop in H as [_ H]. apply negb_true_iff in H. exact H.
Qed.

Lemma path_stem_plain p :
  wf_path p = true -> str_contains "/" (path_stem p) = false.
Proof.
  intros H. apply path_name_plain in H. unfold path_stem.
  destruct (suffix_index (path_name p)); [|exact H].
  destruct (str_contains "/" (String.substring 0 n (path_name p))) eqn:E; [|reflexivity].
  apply str_contains_substring in E. congruence.
Qed.

Lemma path_suffix_plain p :
  wf_path p = true -> str_contains "/" (path_suffix p) = false.
Proof.
  intros H. apply path_name_plain in H. unfold path_suffix.
  destruct (suffix_index (path_name p)); [|reflexivity].
  match goal with |- ?x = false => destruct x eqn:E; [|reflexivity] end.
  apply str_contains_substring in E. congruence.
Qed.

Lemma numbered_name_component stem suffix n :
  str_contains "/" stem = false -> str_contains "/" suffix = false ->
  is_component (numbered_name stem suffix n) = true /\
  numbered_name stem suffix n <> "..".
Proof.
  intros Hstem Hsuffix. unfold numbered_name.
  assert (Hdash : str_contains "-" (stem +:+ "-" +:+ pretty n +:+ suffix) = true).
  { rewrite !str_contains_app. simpl. rewrite orb_true_r. reflexivity. }
  split.
  - unfold is_component, keep_segment. rewrite !andb_true_iff, !negb_true_iff.
    repeat split.
    + apply bool_decide_eq_false. intros E. rewrite E in Hdash. discriminate.
    + apply bool_decide_eq_false. intros E. rewrite E in Hdash. discriminate.
    + rewrite !str_contains_app, Hstem, Hsuffix. simpl.
      destruct (str_contains "/" (pretty n)) eqn:E; [|reflexivity].
      apply pretty_nat_chars in E. discriminate.
  - intros E. rewrite E in Hdash. discriminate.
Qed.

Lemma numbered_name_inj stem suffix n m :
  numbered_name stem suffix n = numbered_name stem suffix m -> n = m.
Proof.
  unfold numbered_name. intros H.
  apply (inj (String.app stem)) in H.
  apply (inj (String.app "-")) in H.
  apply str_app_inj_r in H. apply (inj pretty) in H. exact H.
Qed.

(** ** Walking the file system *)

Lemma walk_app fs cur a b :
  walk fs cur (a ++ b)
  = match walk fs cur a with
    | inr k => walk fs k b
    | inl e => inl e
    end.
Proof.
  revert cur. induction a as [|c a IH]; intros cur; simpl; [reflexivity|].
  destruct (is_dir_key fs cur); [|reflexivity].
  case_decide; [apply IH|].
  destruct (NAME_MAX <? str_len c)%nat; [reflexivity|].
  destruct (fs_node fs (cur ++ [c])); [apply IH|reflexivity].
Qed.

Lemma abs_parts_snoc fs r parts c :
  abs_parts fs (mkPath r (parts ++ [c])) = abs_parts fs (mkPath r parts) ++ [c].
Proof. unfold abs_parts, p_abs. simpl. rewrite app_assoc. reflexivity. Qed.

(** What the existence check says about the file system. *)
Lemma path_exists_true fs p :
  path_exists fs p = Ok true <-> exists key, stat fs p = inr key.
Proof.
  unfold path_exists. destruct (stat fs p) as [e|key].
  - split; [|intros [key H]; discriminate].
    destruct (ignored e); discriminate.
  - split; eauto.
Qed.

Lemma walk_errors fs cur todo e :
  walk fs cur todo = inl e -> e = ENOENT \/ e = ENOTDIR \/ e = ENAMETOOLONG.
Proof.
  revert cur. induction todo as [|c todo IH]; intros cur; simpl; [discriminate|].
  destruct (is_dir_key fs cur); [|intros [= <-]; auto].
  case_decide; [apply IH|].
  destruct (NAME_MAX <? str_len c)%nat; [intros [= <-]; auto|].
  destruct (fs_node fs (cur ++ [c])); [apply IH|intros [= <-]; auto].
Qed.

Lemma stat_errors fs p e :
  stat fs p = inl e -> e = ENOENT \/ e = ENOTDIR \/ e = ENAMETOOLONG.
Proof.
  unfold stat. destruct (PATH_MAX <=? str_len (path_str p))%nat;
    [intros [= <-]; auto|apply walk_errors].
Qed.

(** The only error that a check of a path raises: a name or a path that
    is too long. *)
Lemma path_exists_raise fs p e :
  path_exists fs p = Raise e -> e = OSError ENAMETOOLONG (path_str p).
Proof.
  unfold path_exists. destruct (stat fs p) as [e'|key] eqn:Hstat; [|discriminate].
  destruct (stat_errors _ _ _ Hstat) as [-> | [-> | ->]]; simpl; try discriminate.
  intros [= <-]. reflexivity.
Qed.

Lemma path_is_dir_raise fs p e :
  path_is_dir fs p = Raise e -> e = OSError ENAMETOOLONG (path_str p).
Proof.
  unfold path_is_dir. destruct (stat fs p) as [e'|key] eqn:Hstat; [|discriminate].
  destruct (stat_errors _ _ _ Hstat) as [-> | [-> | ->]]; simpl; try discriminate.
  intros [= <-]. reflexivity.
Qed.

Lemma path_exists_child fs r parts c :
  c <> ".." ->
  path_exists fs (mkPath r (parts ++ [c])) = Ok true ->
  exists d, walk fs [] (abs_parts fs (mkPath r parts)) = inr d /\
            is_Some (fs_nodes fs !! (d ++ [c])).
Proof.
  intros Hc [key Hkey]%path_exists_true. revert Hkey. unfold stat.
  destruct (PATH_MAX <=? _)%nat; [discriminate|].
  rewrite abs_parts_snoc, walk_app.
  destruct (walk fs [] (abs_parts fs (mkPath r parts))) as [e|d]; [discriminate|].
  simpl. destruct (is_dir_key fs d); [|discriminate].
  case_decide; [contradiction|].
  destruct (NAME_MAX <? str_len c)%nat; [discriminate|].
  destruct (fs_node fs (d ++ [c])) as [nd|] eqn:Hnode; [|discriminate].
  intros _. exists d. split; [reflexivity|].
  unfold fs_node in Hnode. destruct (d ++ [c]) eqn:E.
  - destruct d; discriminate.
  - rewrite Hnode. eauto.
Qed.
(** ** Collision avoidance *)

Section UniqueLoop.
Variable fs : FS.
Variables (parent : Path) (stem suffix : string).

(** A search that ends has tried the candidates from [c] on, found all
    before the [n]-th there, and ends on the [n]-th: with it when the check
    answers that nothing is there, with the exception when the check
    raises. *)
Lemma unique_loop_sound fuel c r :
  unique_loop fuel fs parent stem suffix c = Some r ->
  exists n, (c <= n < c + fuel)%nat /\
    (forall k, (c <= k < n)%nat ->
               path_exists fs (candidate parent stem suffix k) = Ok true) /\
    match r with
    | Ok p => p = candidate parent stem suffix n /\ path_exists fs p = Ok false
    | Raise e => path_exists fs (candidate parent stem suffix n) = Raise e
    end.
Proof.
  revert c. induction fuel as [|fuel IH]; intros c; simpl; [discriminate|].
  change (joinpath parent (stem +:+ "-" +:+ pretty c +:+ suffix))
    with (candidate parent stem suffix c).
  destruct (path_exists fs (candidate parent stem suffix c)) as [[|]|e] eqn:Hex.
  - intros H. apply IH in H as (n & Hn & Hbelow & Hr).
    exists n. split; [lia|]. split; [|exact Hr].
    intros k Hk. destruct (decide (k = c)) as [->|Hne]; [exact Hex|].
    apply Hbelow. lia.
  - intros [= <-]. exists c. split; [lia|]. split; [intros k Hk; lia|].
    split; [reflexivity|exact Hex].
  - intros [= <-]. exists c. split; [lia|]. split; [intros k Hk; lia|exact Hex].
Qed.

Lemma unique_loop_complete fuel c n :
  (c <= n < c + fuel)%nat ->
  path_exists fs (candidate parent stem suffix n) <> Ok true ->
  is_Some (unique_loop fuel fs parent stem suffix c).
Proof.
  revert c. induction fuel as [|fuel IH]; intros c Hn Hfree; simpl; [lia|].
  change (joinpath parent (stem +:+ "-" +:+ pretty c +:+ suffix))
    with (candidate parent stem suffix c).
  destruct (path_exists fs (candidate parent stem suffix c)) as [[|]|e] eqn:Hex;
    [|eauto|eauto].
  apply IH; [|exact Hfree].
  destruct (decide (n = c)) as [->|Hne]; [congruence|lia].
Qed.

Hypothesis stem_plain : str_contains "/" stem = false.
Hypothesis suffix_plain : str_contains "/" suffix = false.

Lemma candidate_parts n :
  candidate parent stem suffix n
  = mkPath (p_root parent) (p_parts parent ++ [numbered_name stem suffix n]).
Proof.
  unfold candidate. apply joinpath_component.
  apply numbered_name_component; assumption.
Qed.

(** Among [size + 1] consecutive candidates one is not there: the
    candidates that exist are distinct entries of one directory. *)
Lemma free_candidate c :
  exists n, (c <= n < c + S (size (fs_nodes fs)))%nat /\
            path_exists fs (candidate parent stem suffix n) <> Ok true.
Proof.
  destruct (decide (Forall (fun n => is_missing fs (candidate parent stem suffix n) = false
                                     /\ is_ok (path_exists fs (candidate parent stem suffix n)) = true)
                      (seq c (S (size (fs_nodes fs)))))) as [Hall|Hsome].
  - exfalso.
    assert (Hthere : forall n, n ∈ seq c (S (size (fs_nodes fs))) ->
              path_exists fs (candidate parent stem suffix n) = Ok true).
    { intros n Hn. rewrite Forall_forall in Hall. destruct (Hall n Hn) as [Hm Hok].
      unfold is_missing in Hm.
      destruct (path_exists fs (candidate parent stem suffix n)) as [[|]|e];
        [reflexivity|discriminate|discriminate]. }
    destruct (walk fs [] (abs_parts fs (mkPath (p_root parent) (p_parts parent))))
      as [e|d] eqn:Hd.
    + assert (Hin : c ∈ seq c (S (size (fs_nodes fs))))
        by (apply list_elem_of_In; simpl; auto).
      apply Hthere in Hin. rewrite candidate_parts in Hin.
      apply path_exists_child in Hin as (d' & Hd' & _);
        [|apply numbered_name_component; assumption].
      congruence.
    + set (keys := map (fun n => d ++ [numbered_name stem suffix n])
                     (seq c (S (size (fs_nodes fs))))).
      assert (Hnodup : NoDup keys).
      { apply NoDup_fmap_2_strong; [|apply NoDup_seq].
        intros n m _ _ Heq. apply app_inj_1 in Heq as [_ Heq]; [|reflexivity].
        injection Heq as Heq. apply numbered_name_inj in Heq. exact Heq. }
      assert (Hsub : forall k, k ∈ keys -> k ∈ dom (fs_nodes fs)).
      { intros k [n [-> Hn]]%list_elem_of_fmap.
        specialize (Hthere n Hn).
        rewrite candidate_parts in Hthere.
        apply path_exists_child in Hthere as (d' & Hd' & Hsome);
          [|apply numbered_name_component; assumption].
        rewrite Hd in Hd'. injection Hd' as <-.
        apply elem_of_dom. exact Hsome. }
      assert (Hlen : (length keys <= size (dom (fs_nodes fs)))%nat).
      { rewrite <- (size_list_to_set (C := gset (list string)) keys Hnodup).
        apply subseteq_size. intros k Hk. apply Hsub.
        apply elem_of_list_to_set in Hk. exact Hk. }
      rewrite size_dom in Hlen. unfold keys in Hlen.
      rewrite length_map, length_seq in Hlen. lia.
  - apply not_Forall_Exists in Hsome; [|intros n; apply _].
    apply Exists_exists in Hsome as (n & Hin & Hn).
    apply list_elem_of_In, in_seq in Hin. exists n. split; [lia|].
    intros Hex. apply Hn. unfold is_missing. rewrite Hex. split; reflexivity.
Qed.

Lemma unique_loop_enough fuel :
  (S (size (fs_nodes fs)) <= fuel)%nat ->
  is_Some (unique_loop fuel fs parent stem suffix 1).
Proof.
  intros Hfuel. destruct (free_candidate 1) as (n & Hn & Hfree).
  apply (unique_loop_complete fuel 1 n); [lia|exact Hfree].
Qed.

End UniqueLoop.





(** ** Growing file systems *)

Lemma fs_extends_refl fs : fs_extends fs fs.
Proof. unfold fs_extends. auto. Qed.

Lemma fs_extends_trans fs1 fs2 fs3 :
  fs_extends fs1 fs2 -> fs_extends fs2 fs3 -> fs_extends fs1 fs3.
Proof.
  unfold fs_extends. intros (Hc1 & Hn1 & Hr1) (Hc2 & Hn2 & Hr2).
  split; [congruence|]. split; [etrans; eassumption|congruence].
Qed.

Lemma fs_node_extends fs fs' key nd :
  fs_extends fs fs' -> fs_node fs key = Some nd -> fs_node fs' key = Some nd.
Proof.
  intros (_ & Hsub & _). unfold fs_node. destruct key; [auto|].
  intros H. eapply lookup_weaken; eassumption.
Qed.

Lemma is_dir_key_extends fs fs' key :
  fs_extends fs fs' -> is_dir_key fs key = true -> is_dir_key fs' key = true.
Proof.
  unfold is_dir_key. intros Hext H%bool_decide_eq_true.
  apply bool_decide_eq_true. eapply fs_node_extends; eassumption.
Qed.

Lemma walk_extends fs fs' cur todo key :
  fs_extends fs fs' -> walk fs cur todo = inr key -> walk fs' cur todo = inr key.
Proof.
  intros Hext. revert cur. induction todo as [|c todo IH]; intros cur; simpl; [auto|].
  destruct (is_dir_key fs cur) eqn:Hdir; [|discriminate].
  rewrite (is_dir_key_extends _ _ _ Hext Hdir).
  case_decide; [apply IH|].
  destruct (NAME_MAX <? str_len c)%nat; [discriminate|].
  destruct (fs_node fs (cur ++ [c])) as [nd|] eqn:Hnode; [|discriminate].
  rewrite (fs_node_extends _ _ _ _ Hext Hnode). apply IH.
Qed.

(** Where the larger file system finds nothing, without an error that is
    raised, the smaller one finds nothing either. *)
Lemma walk_missing_before fs fs' cur todo e' :
  fs_extends fs fs' -> walk fs' cur todo = inl e' -> ignored e' = true ->
  exists e, walk fs cur todo = inl e /\ ignored e = true.
Proof.
  intros Hext. revert cur. induction todo as [|c todo IH]; intros cur; simpl;
    [discriminate|].
  destruct (is_dir_key fs cur) eqn:Hdir; [|intros _ _; exists ENOTDIR; auto].
  rewrite (is_dir_key_extends _ _ _ Hext Hdir).
  case_decide; [apply IH|].
  destruct (NAME_MAX <? str_len c)%nat; [intros [= <-]; discriminate|].
  destruct (fs_node fs (cur ++ [c])) as [nd|] eqn:Hnode;
    [|intros _ _; exists ENOENT; auto].
  rewrite (fs_node_extends _ _ _ _ Hext Hnode). apply IH.
Qed.

Lemma abs_parts_extends fs fs' p :
  fs_extends fs fs' -> abs_parts fs' p = abs_parts fs p.
Proof. intros (Hc & _). unfold abs_parts. rewrite Hc. reflexivity. Qed.

Lemma stat_extends fs fs' p key :
  fs_extends fs fs' -> stat fs p = inr key -> stat fs' p = inr key.
Proof.
  intros Hext. unfold stat. destruct (PATH_MAX <=? _)%nat; [discriminate|].
  rewrite (abs_parts_extends _ _ _ Hext). apply walk_extends. exact Hext.
Qed.

Lemma path_exists_extends fs fs' p :
  fs_extends fs fs' -> path_exists fs p = Ok true -> path_exists fs' p = Ok true.
Proof.
  intros Hext [key Hkey]%path_exists_true. apply path_exists_true.
  exists key. eapply stat_extends; eassumption.
Qed.

Lemma path_missing_before fs fs' p :
  fs_extends fs fs' -> path_exists fs' p = Ok false -> path_exists fs p = Ok false.
Proof.
  intros Hext. unfold path_exists, stat.
  destruct (PATH_MAX <=? _)%nat; [discriminate|].
  rewrite (abs_parts_extends _ _ _ Hext).
  destruct (walk fs' [] (abs_parts fs p)) as [e'|key] eqn:Hnew; [|discriminate].
  destruct (ignored e') eqn:He'; [|discriminate]. intros _.
  destruct (walk_missing_before _ _ _ _ _ Hext Hnew He') as (e & -> & ->).
  reflexivity.
Qed.

Lemma file_content_extends fs fs' p content :
  fs_extends fs fs' -> file_content fs p = Some content ->
  file_content fs' p = Some content.
Proof.
  intros Hext. unfold file_content.
  destruct (stat fs p) as [e|key] eqn:Hloc; [discriminate|].
  rewrite (stat_extends _ _ _ _ Hext Hloc).
  destruct (fs_node fs key) as [nd|] eqn:Hnode; [|discriminate].
  rewrite (fs_node_extends _ _ _ _ Hext Hnode). auto.
Qed.

Lemma file_content_exists fs p content :
  file_content fs p = Some content -> path_exists fs p = Ok true.
Proof.
  unfold file_content. intros H. apply path_exists_true.
  destruct (stat fs p) as [e|key]; [discriminate|eauto].
Qed.

(** Writing to a path that is not there adds one file and leaves the
    rest as it is. *)
Lemma write_text_new fs p content fs' :
  path_exists fs p = Ok false ->
  write_text fs p content = Ok fs' ->
  fs_extends fs fs' /\ file_content fs' p = Some content.
Proof.
  unfold write_text, path_exists, stat. intros Hnew.
  destruct (PATH_MAX <=? str_len (path_str p))%nat eqn:Hmax; [discriminate|].
  destruct (abs_parts fs p) as [|c parts] eqn:Hparts using rev_ind.
  { simpl in Hnew. discriminate. }
  clear IHparts. rewrite removelast_last, last_last.
  rewrite walk_app in Hnew.
  destruct (walk fs [] parts) as [e|d] eqn:Hd; [discriminate|].
  simpl in Hnew.
  destruct (is_dir_key fs d) eqn:Hdir; simpl; [|discriminate].
  case_decide as Hc; [discriminate|].
  destruct (NAME_MAX <? str_len c)%nat eqn:Hlen; [discriminate|].
  destruct (fs_node fs (d ++ [c])) as [nd|] eqn:Hnode; [discriminate|].
  case_decide; [discriminate|]. intros [= <-].
  assert (Hnone : fs_nodes fs !! (d ++ [c]) = None).
  { unfold fs_node in Hnode. destruct (d ++ [c]) eqn:E; [destruct d; discriminate|].
    exact Hnode. }
  assert (Hext : fs_extends fs
            (mkFS (fs_cwd fs) (<[d ++ [c] := File content]> (fs_nodes fs))
               (fs_readonly fs))).
  { split; [reflexivity|]. split; [|reflexivity]. simpl.
    apply insert_subseteq. exact Hnone. }
  split; [exact Hext|].
  unfold file_content, stat. rewrite Hmax, (abs_parts_extends _ _ _ Hext), Hparts.
  rewrite walk_app, (walk_extends _ _ _ _ _ Hext Hd). simpl.
  rewrite (is_dir_key_extends _ _ _ Hext Hdir).
  case_decide; [contradiction|]. rewrite Hlen.
  assert (Hfile : fs_node
            (mkFS (fs_cwd fs) (<[d ++ [c] := File content]> (fs_nodes fs))
               (fs_readonly fs)) (d ++ [c]) = Some (File content)).
  { unfold fs_node. destruct (d ++ [c]) eqn:E; [destruct d; discriminate|].
    simpl. apply lookup_insert_eq. }
  rewrite Hfile. simpl. rewrite Hfile. reflexivity.
Qed.

(** ** Well-formed paths *)

Lemma str_split_plain_parts sep s :
  Forall (fun c => str_contains sep c = false) (str_split sep s).
Proof.
  induction s as [|a s IH]; simpl; [repeat constructor|].
  case_decide as Ha.
  - constructor; [reflexivity|exact IH].
  - destruct (str_split sep s) as [|x xs].
    + repeat constructor. simpl. case_decide; [contradiction|reflexivity].
    + inversion IH as [|? ? Hx Hxs]; subst. constructor; [|exact Hxs].
      simpl. case_decide; [contradiction|exact Hx].
Qed.

Lemma Path_of_wf s : wf_path (Path_of s) = true.
Proof.
  unfold wf_path, Path_of. simpl. apply forallb_forall. intros c Hc.
  apply filter_In in Hc as [Hin Hkeep]. unfold is_component. rewrite Hkeep. simpl.
  pose proof (str_split_plain_parts "/" s) as Hall.
  rewrite Forall_forall in Hall. rewrite (Hall c); [reflexivity|].
  apply list_elem_of_In. exact Hin.
Qed.

Lemma joinpath_wf p s : wf_path p = true -> wf_path (joinpath p s) = true.
Proof.
  intros Hp. unfold joinpath. pose proof (Path_of_wf s) as Hs.
  destruct (p_abs (Path_of s)); [exact Hs|].
  unfold wf_path in *. cbn [p_parts]. rewrite forallb_app, Hp, Hs. reflexivity.
Qed.

Lemma path_parent_wf p : wf_path p = true -> wf_path (path_parent p) = true.
Proof.
  unfold wf_path, path_parent. simpl.
  destruct (p_parts p) as [|c cs _] using rev_ind; [auto|].
  rewrite removelast_last, forallb_app. intros [H _]%andb_prop. exact H.
Qed.

Lemma output_candidate_wf fs input_path output fmt base_path :
  wf_path input_path = true ->
  output_candidate fs input_path output fmt = Ok base_path ->
  wf_path base_path = true.
Proof.
  intros Hwf. unfold output_candidate.
  destruct (given output) as [out|].
  - destruct (path_is_dir fs (Path_of out)) as [[|]|e]; cbn [mbind outcome_bind];
      [| |discriminate]; intros [= <-].
    + apply joinpath_wf, Path_of_wf.
    + apply Path_of_wf.
  - intros [= <-]. apply joinpath_wf, path_parent_wf, Hwf.
Qed.

Lemma output_candidate_raise fs input_path output fmt e :
  output_candidate fs input_path output fmt = Raise e ->
  exists out, given output = Some out /\ path_is_dir fs (Path_of out) = Raise e.
Proof.
  unfold output_candidate. destruct (given output) as [out|]; [|discriminate].
  destruct (path_is_dir fs (Path_of out)) as [b|e'] eqn:Hdir; cbn [mbind outcome_bind];
    [discriminate|].
  intros [= <-]. eauto.
Qed.

Lemma normalize_wf acc parts :
  forallb is_component acc = true -> forallb is_component parts = true ->
  forallb is_component (normalize acc parts) = true.
Proof.
  revert acc. induction parts as [|c parts IH]; intros acc Hacc Hparts; simpl; [exact Hacc|].
  simpl in Hparts. apply andb_prop in Hparts as [Hc Hparts].
  case_decide.
  - apply IH; [|exact Hparts].
    destruct acc as [|a acc _] using rev_ind; [reflexivity|].
    rewrite removelast_last. rewrite forallb_app in Hacc.
    apply andb_prop in Hacc as [Hacc _]. exact Hacc.
  - apply IH; [|exact Hparts]. rewrite forallb_app, Hacc. simpl. rewrite Hc. reflexivity.
Qed.

Lemma resolve_wf fs p : wf_path p = true -> wf_path (resolve fs p) = true.
Proof.
  intros Hp. unfold wf_path, resolve, abs_parts. simpl.
  apply normalize_wf; [reflexivity|].
  rewrite forallb_app. apply andb_true_intro. split; [|exact Hp].
  destruct (p_abs p); [reflexivity|]. apply (Path_of_wf (fs_cwd fs)).
Qed.

Lemma expand_paths_wf env fs patterns :
  Forall (fun p => wf_path p = true) (expand_paths env fs patterns).
Proof.
  induction patterns as [|pattern rest IH]; simpl; [constructor|].
  apply Forall_app. split; [|exact IH].
  destruct (has_glob_char pattern).
  - apply Forall_forall. intros p [name [-> _]]%list_elem_of_fmap.
    apply resolve_wf, Path_of_wf.
  - repeat constructor. apply resolve_wf, Path_of_wf.
Qed.

(** The search for the output path of a well-formed input always ends:
    with a path that is not there, or with the exception of a check that
    raised. *)
Lemma get_output_path_fresh fs input_path output fmt :
  wf_path input_path = true ->
  exists r,
    get_output_path fs input_path output fmt = Some r /\
    match r with
    | Ok out => path_exists fs out = Ok false
    | Raise e => exists p, e = OSError ENAMETOOLONG (path_str p)
    end.
Proof.
  intros Hwf. unfold get_output_path.
  destruct (output_candidate fs input_path output fmt) as [base|e] eqn:Hbase.
  - pose proof (output_candidate_wf _ _ _ _ _ Hwf Hbase) as Hc.
    unfold get_unique_output_path, unique_from.
    destruct (path_exists fs base) as [[|]|e] eqn:Hex.
    + destruct (unique_loop_enough fs (path_parent base) _ _
                  (path_stem_plain _ Hc) (path_suffix_plain _ Hc)
                  (S (size (fs_nodes fs))) (le_n _)) as [r Hr].
      exists r. split; [exact Hr|].
      apply unique_loop_sound in Hr as (n & _ & _ & Hr).
      destruct r as [out|e]; [apply Hr|].
      eexists. eapply path_exists_raise. exact Hr.
    + exists (Ok base). split; [reflexivity|exact Hex].
    + exists (Raise e). split; [reflexivity|].
      eexists. eapply path_exists_raise. exact Hex.
  - exists (Raise e). split; [reflexivity|].
    apply output_candidate_raise in Hbase as (out & _ & Hdir).
    eexists. eapply path_is_dir_raise. exact Hdir.
Qed.
(** ** One input *)

Section Transcribe.
Variables (env : Env) (input_path output_path : Path) (fmt : string)
          (quiet : bool) (w : World).

Ltac run_transcribe :=
  unfold transcribe, after_item, item_diagnostics, eprint_unless, eprint,
    called, print, stored;
  destruct quiet; simpl;
  repeat (let H := fresh in intros H; rewrite H); simpl;
  rewrite ?app_nil_r, <- ?app_assoc; reflexivity.

Lemma transcribe_failure e :
  env_transcribe env (w_calls w) (path_str input_path) = Raise e ->
  exn_is_exception e = true ->
  transcribe env input_path output_path fmt quiet w
  = (Ok false, after_item quiet input_path (Raise e) (w_fs w) [] w).
Proof. run_transcribe. Qed.

Lemma transcribe_escape e :
  env_transcribe env (w_calls w) (path_str input_path) = Raise e ->
  exn_is_exception e = false ->
  transcribe env input_path output_path fmt quiet w
  = (Raise e, after_item quiet input_path (Raise e) (w_fs w) [] w).
Proof. run_transcribe. Qed.

Lemma transcribe_format_error result e :
  env_transcribe env (w_calls w) (path_str input_path) = Ok result ->
  format_output result fmt = Raise e ->
  transcribe env input_path output_path fmt quiet w
  = (Raise e, after_item quiet input_path (Ok result) (w_fs w) [] w).
Proof. run_transcribe. Qed.

Lemma transcribe_write_error result content e :
  env_transcribe env (w_calls w) (path_str input_path) = Ok result ->
  format_output result fmt = Ok content ->
  write_text (w_fs w) output_path content = Raise e ->
  transcribe env input_path output_path fmt quiet w
  = (Raise e, after_item quiet input_path (Ok result) (w_fs w) [] w).
Proof. run_transcribe. Qed.

Lemma transcribe_success result content fs' :
  env_transcribe env (w_calls w) (path_str input_path) = Ok result ->
  format_output result fmt = Ok content ->
  write_text (w_fs w) output_path content = Ok fs' ->
  transcribe env input_path output_path fmt quiet w
  = (Ok true, after_item quiet input_path (Ok result) fs' [path_str output_path] w).
Proof. run_transcribe. Qed.

End Transcribe.

(** ** The batch *)

Lemma written_later fs0 fs1 fs2 fmt out result :
  fs_extends fs0 fs1 -> written fs1 fs2 fmt out result -> written fs0 fs2 fmt out result.
Proof.
  intros Hext [Hnew Hfile]. split; [|exact Hfile].
  eapply path_missing_before; eassumption.
Qed.

Lemma written_kept fs0 fs1 fs2 fmt out result :
  fs_extends fs1 fs2 -> written fs0 fs1 fmt out result -> written fs0 fs2 fmt out result.
Proof.
  intros Hext [Hnew (content & Hfmt & Hfile)]. split; [exact Hnew|].
  exists content. split; [exact Hfmt|]. eapply file_content_extends; eassumption.
Qed.

Lemma batch_spec env args paths :
  forall success w ending w',
    Forall (fun p => wf_path p = true) paths ->
    batch env args paths success w = (ending, w') ->
    fs_extends (w_fs w) (w_fs w') /\
    match ending with
    | Exit code =>
        code = (if success && forallb is_ok (answers env (w_calls w) paths)
                then 0 else 1) /\
        Forall (fun a => is_escape a = false) (answers env (w_calls w) paths) /\
        w_calls w' = w_calls w ++ map path_str paths /\
        w_stderr w' =
          w_stderr w ++
          diagnostics (a_quiet args) paths (answers env (w_calls w) paths) /\
        exists outs,
          w_stdout w' = w_stdout w ++ map path_str outs /\
          Forall2 (written (w_fs w) (w_fs w') (a_format args)) outs
            (successes (answers env (w_calls w) paths))
    | Uncaught e =>
        exists i k,
          (i < length paths)%nat /\
          (probe_error e /\ k = i \/
           (exists answer,
              answers env (w_calls w) paths !! i = Some answer /\
              cuts_short (a_format args) answer e) /\ k = S i) /\
          w_calls w' = w_calls w ++ map path_str (take k paths) /\
          w_stderr w' =
            w_stderr w ++
            diagnostics (a_quiet args) (take k paths) (answers env (w_calls w) paths)
    | Diverge => False
    end.
Proof.
  induction paths as [|p rest IH]; intros success w ending w' Hwf; simpl.
  - intros [= <- <-]. split; [apply fs_extends_refl|].
    rewrite andb_true_r, !app_nil_r. split; [reflexivity|]. split; [constructor|].
    repeat split; try reflexivity.
    exists []. rewrite app_nil_r. split; [reflexivity|constructor].
  - inversion Hwf as [|? ? Hp Hrest]; subst.
    destruct (get_output_path_fresh (w_fs w) p (a_output args) (a_format args) Hp)
      as (r & -> & Hr).
    destruct r as [out|e1].
    2:{ intros [= <- <-]. split; [apply fs_extends_refl|].
        exists 0%nat, 0%nat. split; [lia|]. split; [left; split; [exact Hr|reflexivity]|].
        simpl. rewrite !app_nil_r. split; reflexivity. }
    rename Hr into Hfresh.
    destruct (env_transcribe env (w_calls w) (path_str p)) as [result|e0] eqn:Hanswer.
    + destruct (format_output result (a_format args)) as [content|e] eqn:Hfmt.
      * destruct (write_text (w_fs w) out content) as [fs'|e] eqn:Hwrite.
        -- rewrite (transcribe_success _ _ _ _ _ _ _ _ _ Hanswer Hfmt Hwrite).
           destruct (write_text_new _ _ _ _ Hfresh Hwrite) as [Hext Hfile].
           intros Hbatch. apply IH in Hbatch as [Hext' Hending]; [|exact Hrest].
           simpl in Hext', Hending.
           split; [eapply fs_extends_trans; eassumption|].
           destruct ending as [code|e|]; [| |exact Hending].
           ++ destruct Hending as (-> & Hesc & Hcalls & Herr & outs & Hout & Hfiles).
              simpl. split; [reflexivity|].
              split; [constructor; [reflexivity|exact Hesc]|].
              split; [rewrite Hcalls, <- app_assoc; reflexivity|].
              split; [rewrite Herr, <- !app_assoc; reflexivity|].
              exists (out :: outs). split; [rewrite Hout, <- app_assoc; reflexivity|].
              constructor.
              ** eapply written_kept; [exact Hext'|].
                 split; [exact Hfresh|]. exists content. auto.
              ** eapply Forall2_impl; [exact Hfiles|].
                 intros o r Hw. eapply written_later; eassumption.
           ++ destruct Hending as (i & k & Hi & Hcase & Hcalls & Herr).
              exists (S i), (S k). split; [lia|].
              split; [destruct Hcase as [[Hprobe ->]|[Hcut ->]]; [left|right]; auto|].
              split; [rewrite Hcalls; simpl; rewrite <- app_assoc; reflexivity|].
              rewrite Herr. simpl. rewrite <- !app_assoc. reflexivity.
        -- rewrite (transcribe_write_error _ _ _ _ _ _ _ _ _ Hanswer Hfmt Hwrite).
           intros [= <- <-]. simpl. split; [apply fs_extends_refl|].
           exists 0%nat, 1%nat. split; [lia|].
           split; [right; split; [|reflexivity];
                   exists (Ok result); split; [reflexivity|]; right; eauto|].
           rewrite ?take_0; simpl; rewrite ?app_nil_r. split; reflexivity.
      * rewrite (transcribe_format_error _ _ _ _ _ _ _ _ Hanswer Hfmt).
        intros [= <- <-]. simpl. split; [apply fs_extends_refl|].
        exists 0%nat, 1%nat. split; [lia|].
        split; [right; split; [|reflexivity];
                exists (Ok result); split; [reflexivity|]; left; exact Hfmt|].
        rewrite ?take_0; simpl; rewrite ?app_nil_r. split; reflexivity.
    + destruct (exn_is_exception e0) eqn:Hkind.
      * rewrite (transcribe_failure _ _ _ _ _ _ _ Hanswer Hkind).
        intros Hbatch. apply IH in Hbatch as [Hext' Hending]; [|exact Hrest].
        simpl in Hext', Hending. split; [exact Hext'|].
        destruct ending as [code|e|]; [| |exact Hending].
        -- destruct Hending as (-> & Hesc & Hcalls & Herr & outs & Hout & Hfiles).
           simpl. rewrite andb_false_r. split; [reflexivity|].
           split; [constructor; [simpl; rewrite Hkind; reflexivity|exact Hesc]|].
           split; [rewrite Hcalls, <- app_assoc; reflexivity|].
           split; [rewrite Herr, <- !app_assoc; reflexivity|].
           exists outs. split; [rewrite Hout, app_nil_r; reflexivity|exact Hfiles].
        -- destruct Hending as (i & k & Hi & Hcase & Hcalls & Herr).
           exists (S i), (S k). split; [lia|].
           split; [destruct Hcase as [[Hprobe ->]|[Hcut ->]]; [left|right]; auto|].
           split; [rewrite Hcalls; simpl; rewrite <- app_assoc; reflexivity|].
           rewrite Herr. simpl. rewrite <- !app_assoc. reflexivity.
      * rewrite (transcribe_escape _ _ _ _ _ _ _ Hanswer Hkind).
        intros [= <- <-]. simpl. split; [apply fs_extends_refl|].
        exists 0%nat, 1%nat. split; [lia|].
        split; [right; split; [|reflexivity];
                exists (Raise e0); split; [reflexivity|];
                split; [reflexivity|exact Hkind]|].
        rewrite ?take_0; simpl; rewrite ?app_nil_r. split; reflexivity.
Qed.




(** ** What is not guarded *)

(** C9, as stated, fails: a failure of the transcription that is no
    [Exception] is not caught and not turned into a flag.  An interrupt
    from the keyboard during the transcription of [b.mp3] leaves
    [transcribe] and ends the batch. *)
Lemma interrupt_is_not_caught :
  transcribe interrupted_env (Path_of "/data/b.mp3") (Path_of "/data/b.txt") "txt"
    false (mkWorld data_fs [] [] [])
  = (Raise (mkBaseExn "KeyboardInterrupt" "" false),
     mkWorld data_fs [] ["Processing b.mp3..."] ["/data/b.mp3"]) /\
  batch interrupted_env txt_args [Path_of "/data/b.mp3"; Path_of "/data/c.mp3"] true
    (mkWorld data_fs [] [] [])
  = (Uncaught (mkBaseExn "KeyboardInterrupt" "" false),
     mkWorld data_fs [] ["Processing b.mp3..."] ["/data/b.mp3"]).
Proof. split; vm_compute; reflexivity. Qed.

(** C9 (amended): only the call of the model is inside the [try], and the handler
    is for [Exception].  When the model returns a transcript and
    formatting it or writing the file raises, the exception leaves
    [transcribe] and ends the batch at this input: the inputs after it are
    not touched.  When the call of the model raises an [Exception],
    [transcribe] returns [False] and the batch goes on; when it raises
    anything else, that exception ends the batch as well. *)
Theorem only_the_model_call_is_guarded
    (env : Env) (args : Args) (p : Path) (rest : list Path) (success : bool)
    (w : World) (out : Path) :
  get_output_path (w_fs w) p (a_output args) (a_format args) = Some (Ok out) ->
  (forall result e,
      env_transcribe env (w_calls w) (path_str p) = Ok result ->
      format_output result (a_format args) = Raise e \/
      (exists content,
          format_output result (a_format args) = Ok content /\
          write_text (w_fs w) out content = Raise e) ->
      transcribe env p out (a_format args) (a_quiet args) w
      = (Raise e, after_item (a_quiet args) p (Ok result) (w_fs w) [] w) /\
      batch env args (p :: rest) success w
      = (Uncaught e, after_item (a_quiet args) p (Ok result) (w_fs w) [] w)) /\
  (forall e,
      env_transcribe env (w_calls w) (path_str p) = Raise e ->
      exn_is_exception e = true ->
      transcribe env p out (a_format args) (a_quiet args) w
      = (Ok false, after_item (a_quiet args) p (Raise e) (w_fs w) [] w) /\
      batch env args (p :: rest) success w
      = batch env args rest false
          (after_item (a_quiet args) p (Raise e) (w_fs w) [] w)) /\
  (forall e,
      env_transcribe env (w_calls w) (path_str p) = Raise e ->
      exn_is_exception e = false ->
      transcribe env p out (a_format args) (a_quiet args) w
      = (Raise e, after_item (a_quiet args) p (Raise e) (w_fs w) [] w) /\
      batch env args (p :: rest) success w
      = (Uncaught e, after_item (a_quiet args) p (Raise e) (w_fs w) [] w)).
Proof.
  intros Hout. split; [|split].
  - intros result e Hanswer Hraise.
    assert (Hstep : transcribe env p out (a_format args) (a_quiet args) w
                    = (Raise e, after_item (a_quiet args) p (Ok result) (w_fs w) [] w)).
    { destruct Hraise as [Hfmt|(content & Hfmt & Hwrite)].
      - apply transcribe_format_error; assumption.
      - eapply transcribe_write_error; eassumption. }
    split; [exact Hstep|]. simpl. rewrite Hout, Hstep. reflexivity.
  - intros e Hanswer Hkind.
    pose proof (transcribe_failure env p out (a_format args) (a_quiet args) w e
                  Hanswer Hkind) as Hstep.
    split; [exact Hstep|]. simpl. rewrite Hout, Hstep. reflexivity.
  - intros e Hanswer Hkind.
    pose proof (transcribe_escape env p out (a_format args) (a_quiet args) w e
                  Hanswer Hkind) as Hstep.
    split; [exact Hstep|]. simpl. rewrite Hout, Hstep. reflexivity.
Qed.

Lemma unguarded_write_witness :
  batch data_env txt_args three_inputs true (mkWorld locked_fs [] [] [])
  = (Uncaught (OSError EACCES "/data/a.txt"),
     mkWorld locked_fs [] ["Processing a.mp3..."] ["/data/a.mp3"]) /\
  exn_class (OSError EACCES "/data/a.txt") = "PermissionError" /\
  exn_msg (OSError EACCES "/data/a.txt") = "[Errno 13] Permission denied: '/data/a.txt'" /\
  let run := batch interrupted_env txt_args three_inputs true (mkWorld data_fs [] [] []) in
  fst run = Uncaught (mkBaseExn "KeyboardInterrupt" "" false) /\
  w_calls (snd run) = ["/data/a.mp3"; "/data/b.mp3"] /\
  w_stdout (snd run) = ["/data/a.txt"] /\
  w_stderr (snd run) = ["Processing a.mp3..."; "Processing b.mp3..."].
Proof.
  destruct (only_the_model_call_is_guarded data_env txt_args
              (Path_of "/data/a.mp3") [Path_of "/data/b.mp3"; Path_of "/data/c.mp3"]
              true (mkWorld locked_fs [] [] []) (Path_of "/data/a.txt"))
    as (Hraise & _ & _).
  { vm_compute. reflexivity. }
  split; [|split; [reflexivity|split; [vm_compute; reflexivity|]]].
  - destruct (Hraise hello_world (OSError EACCES "/data/a.txt")) as [_ Hbatch].
    + vm_compute. reflexivity.
    + right. exists "Hello World". split; vm_compute; reflexivity.
    + exact Hbatch.
  - repeat split; vm_compute; reflexivity.
Defined.
(** ** Reading back what was written *)

Lemma app_String c a b : String c a +:+ b = String c (a +:+ b).
Proof. reflexivity. Qed.

Lemma app_empty_l s : "" +:+ s = s.
Proof. reflexivity. Qed.

Lemma str_app_assoc a b c : (a +:+ b) +:+ c = a +:+ (b +:+ c).
Proof. induction a as [|x a IH]; [reflexivity|]. rewrite !app_String, IH. reflexivity. Qed.

(** Decide equalities between characters that are known. *)
Ltac known_chars :=
  repeat match goal with
    | |- context [decide (?a = ?b)] =>
        first
          [ rewrite (decide_True (P := a = b)) by (vm_compute; reflexivity)
          | rewrite (decide_False (P := a = b)) by (vm_compute; discriminate)
          | rewrite (decide_True (P := a = b)) by assumption
          | rewrite (decide_False (P := a = b)) by assumption ]
    end.

Lemma scanstring_quote rest : scanstring (String dquote rest) = Ok ("", rest).
Proof. cbn [scanstring]. known_chars. reflexivity. Qed.

Lemma scanstring_plain c rest :
  c <> dquote -> c <> "\"%char -> (32 <= nat_of_ascii c)%nat ->
  scanstring (String c rest) = prepend (String c "") (scanstring rest).
Proof.
  intros Hq Hb Hn. cbn [scanstring]. known_chars.
  assert ((nat_of_ascii c <? 32)%nat = false) as -> by (apply Nat.ltb_ge; lia).
  reflexivity.
Qed.

Lemma scanstring_short esc ch rest :
  esc <> "u"%char -> unescape esc = Some ch ->
  scanstring (String "\" (String esc rest)) = prepend (String ch "") (scanstring rest).
Proof. intros Hu Hch. cbn [scanstring]. known_chars. rewrite Hch. reflexivity. Qed.

Lemma scanstring_u00 h l n rest :
  hex4 "0" "0" h l = Some n -> (n < 128)%N ->
  scanstring (String "\" (String "u" (String "0" (String "0" (String h (String l rest))))))
  = prepend (String (ascii_of_N n) "") (scanstring rest).
Proof.
  intros Hhex Hn. cbn [scanstring]. known_chars. rewrite Hhex.
  assert ((55296 <=? n)%N = false) as -> by (apply N.leb_gt; lia).
  cbn [andb]. unfold utf8_encode.
  assert ((n <? 128)%N = true) as -> by (apply N.ltb_lt; lia).
  reflexivity.
Qed.

Lemma hex_of_control n :
  (n < 32)%nat ->
  hex4 "0" "0" (hex_digit (n / 16)) (hex_digit (n mod 16)) = Some (N.of_nat n).
Proof.
  intros Hn. do 32 (destruct n as [|n]; [vm_compute; reflexivity|]). lia.
Qed.

(** A string literal is read back as the string it encodes. *)
Lemma scanstring_escape s rest :
  scanstring (escape s +:+ String dquote rest) = Ok (s, rest).
Proof.
  induction s as [|c s IH].
  - apply scanstring_quote.
  - cbn [escape]. rewrite str_app_assoc. unfold escape_char.
    repeat case_decide.
    + subst c. repeat (rewrite app_String || rewrite app_empty_l).
      rewrite (scanstring_short dquote dquote), IH;
        [reflexivity|vm_compute; discriminate|reflexivity].
    + subst c. repeat (rewrite app_String || rewrite app_empty_l).
      rewrite (scanstring_short "\" "\"), IH;
        [reflexivity|vm_compute; discriminate|reflexivity].
    + repeat (rewrite app_String || rewrite app_empty_l).
      rewrite (scanstring_short "n" (ascii_of_nat 10)), IH;
        [|vm_compute; discriminate|reflexivity].
      rewrite <- (ascii_nat_embedding c). rewrite H1. reflexivity.
    + repeat (rewrite app_String || rewrite app_empty_l).
      rewrite (scanstring_short "r" (ascii_of_nat 13)), IH;
        [|vm_compute; discriminate|reflexivity].
      rewrite <- (ascii_nat_embedding c). rewrite H2. reflexivity.
    + repeat (rewrite app_String || rewrite app_empty_l).
      rewrite (scanstring_short "t" (ascii_of_nat 9)), IH;
        [|vm_compute; discriminate|reflexivity].
      rewrite <- (ascii_nat_embedding c). rewrite H3. reflexivity.
    + repeat (rewrite app_String || rewrite app_empty_l).
      rewrite (scanstring_short "b" (ascii_of_nat 8)), IH;
        [|vm_compute; discriminate|reflexivity].
      rewrite <- (ascii_nat_embedding c). rewrite H4. reflexivity.
    + repeat (rewrite app_String || rewrite app_empty_l).
      rewrite (scanstring_short "f" (ascii_of_nat 12)), IH;
        [|vm_compute; discriminate|reflexivity].
      rewrite <- (ascii_nat_embedding c). rewrite H5. reflexivity.
    + repeat (rewrite app_String || rewrite app_empty_l).
      rewrite (scanstring_u00 _ _ _ _ (hex_of_control _ H6)), IH by lia.
      change (ascii_of_N (N.of_nat (nat_of_ascii c))) with (ascii_of_nat (nat_of_ascii c)).
      rewrite ascii_nat_embedding. reflexivity.
    + repeat (rewrite app_String || rewrite app_empty_l).
      rewrite scanstring_plain, IH by (assumption || lia). reflexivity.
Qed.

(** White space *)

Lemma skip_ws_stop c rest : is_ws c = false -> skip_ws (String c rest) = String c rest.
Proof. intros H. simpl. rewrite H. reflexivity. Qed.

Lemma skip_ws_spaces n rest :
  skip_ws (str_repeat " " n +:+ rest) = skip_ws rest.
Proof. induction n as [|n IH]; [reflexivity|]. simpl str_repeat. rewrite app_String. exact IH. Qed.

Lemma skip_ws_indent level rest :
  skip_ws (newline_indent level +:+ rest) = skip_ws rest.
Proof.
  unfold newline_indent, newline. rewrite str_app_assoc, app_String, app_empty_l.
  change (skip_ws (String (ascii_of_nat 10) ?s)) with (skip_ws s).
  apply skip_ws_spaces.
Qed.

(** Numbers followed by a character that cannot continue them *)

Lemma number_stop_digits rest :
  number_stop rest = true -> take_digits rest = ("", rest).
Proof.
  destruct rest as [|c rest]; [reflexivity|]. simpl.
  intros H. repeat (apply andb_prop in H as [H ?]).
  apply negb_true_iff in H. rewrite H. reflexivity.
Qed.

Lemma take_digits_app t rest :
  number_stop rest = true ->
  take_digits (t +:+ rest) = (fst (take_digits t), snd (take_digits t) +:+ rest).
Proof.
  intros Hstop. induction t as [|c t IH].
  - rewrite app_empty_l. apply number_stop_digits, Hstop.
  - rewrite app_String. simpl. destruct (is_digit c); [|reflexivity].
    rewrite IH. destruct (take_digits t). reflexivity.
Qed.

Lemma scan_integer_app t rest :
  number_stop rest = true ->
  scan_integer (t +:+ rest)
  = match scan_integer t with
    | Some (d, r) => Some (d, r +:+ rest)
    | None => None
    end.
Proof.
  intros Hstop. destruct t as [|c t].
  - rewrite app_empty_l. destruct rest as [|c rest]; [reflexivity|].
    simpl in *. repeat (apply andb_prop in Hstop as [Hstop ?]).
    apply negb_true_iff in Hstop.
    destruct (decide (c = "0"%char)) as [->|Hc]; [discriminate Hstop|].
    rewrite Hstop. reflexivity.
  - rewrite app_String. simpl. destruct (decide (c = "0"%char)); [reflexivity|].
    destruct (is_digit c); [|reflexivity].
    rewrite (take_digits_app _ _ Hstop). destruct (take_digits t). reflexivity.
Qed.

Lemma scan_frac_app t rest :
  number_stop rest = true ->
  scan_frac (t +:+ rest)
  = match scan_frac t with
    | Some (d, r) => Some (d, r +:+ rest)
    | None => None
    end.
Proof.
  intros Hstop. destruct t as [|c t].
  - rewrite app_empty_l. destruct rest as [|c rest]; [reflexivity|].
    simpl in *. destruct (decide (c = "."%char)) as [->|Hc]; [discriminate Hstop|].
    reflexivity.
  - rewrite app_String. simpl. destruct (decide (c = "."%char)); [|reflexivity].
    rewrite (take_digits_app _ _ Hstop). destruct (take_digits t) as [[|d ds] r]; reflexivity.
Qed.

Lemma scan_exp_app t rest :
  number_stop rest = true ->
  scan_exp (t +:+ rest)
  = match scan_exp t with
    | Some (e, r) => Some (e, r +:+ rest)
    | None => None
    end.
Proof.
  intros Hstop. destruct t as [|c t].
  - rewrite app_empty_l. destruct rest as [|c rest]; [reflexivity|].
    simpl in *. repeat (apply andb_prop in Hstop as [Hstop ?]).
    repeat match goal with H : negb _ = true |- _ => apply negb_true_iff in H end.
    replace (bool_decide (c = "e"%char)) with false by (symmetry; assumption).
    replace (bool_decide (c = "E"%char)) with false by (symmetry; assumption).
    reflexivity.
  - rewrite app_String. cbn [scan_exp].
    destruct (bool_decide (c = "e"%char) || bool_decide (c = "E"%char)); [|reflexivity].
    destruct t as [|sg t].
    + rewrite app_empty_l.
      assert (Hsign : match rest with
                      | String sg t =>
                          if decide (sg = "-"%char) then (true, t)
                          else if decide (sg = "+"%char) then (false, t)
                          else (false, rest)
                      | EmptyString => (false, rest)
                      end = (false, rest)).
      { destruct rest as [|sg rest]; [reflexivity|].
        simpl in Hstop. repeat (apply andb_prop in Hstop as [Hstop ?]).
        repeat match goal with H : negb _ = true |- _ => apply negb_true_iff in H end.
        destruct (decide (sg = "-"%char)) as [->|?]; [discriminate|].
        destruct (decide (sg = "+"%char)) as [->|?]; [discriminate|]. reflexivity. }
      rewrite Hsign. rewrite (number_stop_digits _ Hstop). reflexivity.
    + rewrite app_String.
      destruct (decide (sg = "-"%char)); [|destruct (decide (sg = "+"%char))];
        rewrite <- ?app_String, (take_digits_app _ _ Hstop);
        match goal with |- context [take_digits ?x] =>
          destruct (take_digits x) as [[|d ds] r] end; reflexivity.
Qed.

Lemma match_number_app t rest :
  number_stop rest = true ->
  match_number (t +:+ rest)
  = match match_number t with
    | Some (v, r) => Some (v, r +:+ rest)
    | None => None
    end.
Proof.
  intros Hstop. unfold match_number.
  assert (Hsign :
    (match t +:+ rest with
     | String c s' => if decide (c = "-"%char) then (true, s') else (false, t +:+ rest)
     | EmptyString => (false, t +:+ rest)
     end)
    = (let '(neg, s1) :=
         match t with
         | String c s' => if decide (c = "-"%char) then (true, s') else (false, t)
         | EmptyString => (false, t)
         end in (neg, s1 +:+ rest))).
  { destruct t as [|c t].
    - rewrite app_empty_l. destruct rest as [|c rest]; [reflexivity|].
      simpl in Hstop. repeat (apply andb_prop in Hstop as [Hstop ?]).
      repeat match goal with H : negb _ = true |- _ => apply negb_true_iff in H end.
      destruct (decide (c = "-"%char)) as [->|?]; [discriminate|reflexivity].
    - rewrite app_String. destruct (decide (c = "-"%char)); reflexivity. }
  rewrite Hsign. clear Hsign.
  destruct (match t with
            | String c s' => if decide (c = "-"%char) then (true, s') else (false, t)
            | EmptyString => (false, t)
            end) as [neg s1].
  rewrite (scan_integer_app _ _ Hstop).
  destruct (scan_integer s1) as [[int_digits s2]|]; [|reflexivity].
  rewrite (scan_frac_app _ _ Hstop).
  destruct (scan_frac s2) as [[frac_digits s3]|].
  - rewrite (scan_exp_app _ _ Hstop). destruct (scan_exp s3) as [[e s4]|]; reflexivity.
  - rewrite (scan_exp_app _ _ Hstop). destruct (scan_exp s2) as [[e s4]|]; reflexivity.
Qed.

Lemma strip_prefix_mismatch a p c s :
  a <> c -> strip_prefix (String a p) (String c s) = None.
Proof. intros H. simpl. rewrite decide_False by exact H. reflexivity. Qed.

Lemma strip_prefix_app p t r rest :
  strip_prefix p t = Some r -> strip_prefix p (t +:+ rest) = Some (r +:+ rest).
Proof.
  revert t. induction p as [|a p IH]; intros t; simpl.
  - intros [= ->]. reflexivity.
  - destruct t as [|b t]; [discriminate|]. rewrite app_String.
    case_decide; [apply IH|discriminate].
Qed.

Lemma strip_prefix_all p t : strip_prefix p t = Some "" -> t = p.
Proof.
  revert t. induction p as [|a p IH]; intros t; simpl.
  - intros [= ->]. reflexivity.
  - destruct t as [|b t]; [discriminate|].
    case_decide as Hab; [|discriminate]. intros Ht. subst b. f_equal. apply IH, Ht.
Qed.

Lemma match_number_first c t :
  c <> "-"%char -> is_digit c = false -> match_number (String c t) = None.
Proof.
  intros Hm Hd. unfold match_number. rewrite decide_False by exact Hm.
  simpl. rewrite Hd. destruct (decide (c = "0"%char)) as [->|?]; [discriminate|reflexivity].
Qed.

Lemma scan_scalar_float t x rest :
  scan_scalar t = Ok (JFloat x, "") -> number_stop rest = true ->
  scan_scalar (t +:+ rest) = Ok (JFloat x, rest) /\
  exists c t', t = String c t' /\ float_start c = true.
Proof.
  intros Hscan Hstop.
  destruct t as [|c t']; [discriminate Hscan|].
  assert (Hc : float_start c = true).
  { unfold float_start. destruct (is_digit c) eqn:Hd; [reflexivity|]. simpl.
    destruct (decide (c = "-"%char)) as [->|Hm]; [reflexivity|].
    destruct (decide (c = "N"%char)) as [->|HN]; [reflexivity|].
    destruct (decide (c = "I"%char)) as [->|HI]; [reflexivity|].
    exfalso. unfold scan_scalar in Hscan.
    destruct (strip_prefix "null" (String c t')); [discriminate|].
    destruct (strip_prefix "true" (String c t')); [discriminate|].
    destruct (strip_prefix "false" (String c t')); [discriminate|].
    rewrite (match_number_first _ _ Hm Hd) in Hscan.
    rewrite !strip_prefix_mismatch in Hscan by congruence. discriminate. }
  split; [|eauto].
  assert (Hn : c <> "n"%char) by (intros ->; discriminate Hc).
  assert (Ht : c <> "t"%char) by (intros ->; discriminate Hc).
  assert (Hf : c <> "f"%char) by (intros ->; discriminate Hc).
  unfold scan_scalar in *. rewrite app_String.
  rewrite !(strip_prefix_mismatch _ _ c) in * by congruence.
  rewrite <- app_String, (match_number_app _ _ Hstop).
  destruct (match_number (String c t')) as [[v r]|].
  - injection Hscan as -> ->. reflexivity.
  - destruct (strip_prefix "NaN" (String c t')) as [r|] eqn:HNaN.
    { injection Hscan as <- ->. rewrite (strip_prefix_app _ _ _ rest HNaN). reflexivity. }
    destruct (strip_prefix "Infinity" (String c t')) as [r|] eqn:HInf.
    { injection Hscan as <- ->. apply strip_prefix_all in HInf as ->.
      repeat (rewrite app_String || rewrite app_empty_l).
      rewrite strip_prefix_mismatch by discriminate. simpl.
      repeat (rewrite decide_True by reflexivity). reflexivity. }
    destruct (strip_prefix "-Infinity" (String c t')) as [r|] eqn:HNInf; [|discriminate].
    injection Hscan as <- ->. apply strip_prefix_all in HNInf as ->.
    repeat (rewrite app_String || rewrite app_empty_l).
    rewrite !strip_prefix_mismatch by discriminate. simpl.
    repeat (rewrite decide_True by reflexivity). reflexivity.
Qed.

(** Values *)

Lemma reads_back_spec x :
  reads_back x = true -> scan_scalar (float_token x) = Ok (JFloat x, "").
Proof.
  unfold reads_back.
  destruct (scan_scalar (float_token x)) as [[[] []]|]; try discriminate.
  intros ->%bool_decide_eq_true. reflexivity.
Qed.

Lemma scan_once_string f s rest :
  scan_once (S f) (encode_string s +:+ rest) = Ok (JStr s, rest).
Proof.
  unfold encode_string. rewrite app_String, str_app_assoc, app_String, app_empty_l.
  cbn [scan_once]. rewrite decide_True by reflexivity.
  rewrite scanstring_escape. reflexivity.
Qed.

Lemma scan_once_float f x rest :
  reads_back x = true -> number_stop rest = true ->
  scan_once (S f) (float_token x +:+ rest) = Ok (JFloat x, rest).
Proof.
  intros Hx Hstop.
  destruct (scan_scalar_float _ _ _ (reads_back_spec _ Hx) Hstop)
    as (Hscan & c & t' & Ht & Hc).
  rewrite Ht in *. rewrite app_String in *. cbn [scan_once].
  rewrite !decide_False by (intros ->; discriminate Hc). exact Hscan.
Qed.

Lemma skip_ws_quote s : skip_ws (String dquote s) = String dquote s.
Proof. reflexivity. Qed.

(** One member of an object: the key, the colon, and a value that the
    scanner reads. *)
Lemma scan_members_step f acc key text value after :
  scan_once f (text +:+ after) = Ok (value, after) ->
  (forall s, skip_ws (text +:+ s) = text +:+ s) ->
  scan_members (S f) acc
    (encode_string key +:+ String ":" (String " " (text +:+ after)))
  = match skip_ws after with
    | String c r =>
        if decide (c = "}"%char) then Ok (dict_set acc key value, r)
        else if decide (c = ","%char)
             then scan_members f (dict_set acc key value) (skip_ws r)
             else Raise (JSONDecodeError "Expecting ',' delimiter")
    | EmptyString => Raise (JSONDecodeError "Expecting ',' delimiter")
    end.
Proof.
  intros Hvalue Hws. unfold encode_string.
  rewrite app_String, str_app_assoc, app_String, app_empty_l.
  cbn [scan_members]. rewrite decide_True by reflexivity.
  rewrite scanstring_escape. cbn [mbind outcome_bind].
  change (skip_ws (String ":" ?s)) with (String ":"%char s).
  cbv beta iota. rewrite decide_True by reflexivity.
  change (skip_ws (String " " ?s)) with (skip_ws s).
  rewrite Hws, Hvalue. reflexivity.
Qed.

Lemma float_start_not_ws c : float_start c = true -> is_ws c = false.
Proof.
  unfold float_start, is_digit, is_ws. intros H.
  apply bool_decide_eq_false. intros Hws.
  repeat (apply orb_prop in H as [H|H]); apply bool_decide_eq_true in H.
  - lia.
  - subst c. vm_compute in Hws. lia.
  - subst c. vm_compute in Hws. lia.
  - subst c. vm_compute in Hws. lia.
Qed.

Lemma skip_ws_float x s :
  reads_back x = true -> skip_ws (float_token x +:+ s) = float_token x +:+ s.
Proof.
  intros Hx.
  destruct (scan_scalar_float _ _ "" (reads_back_spec _ Hx) eq_refl)
    as (_ & c & t' & -> & Hc).
  rewrite app_String. apply skip_ws_stop, float_start_not_ws, Hc.
Qed.

Lemma skip_ws_string v s : skip_ws (encode_string v +:+ s) = encode_string v +:+ s.
Proof. reflexivity. Qed.

Lemma number_stop_comma s : number_stop (String "," s) = true.
Proof. reflexivity. Qed.

Lemma number_stop_indent level s : number_stop (newline_indent level +:+ s) = true.
Proof. reflexivity. Qed.

Lemma encode_string_app key s :
  encode_string key +:+ s = String dquote (escape key +:+ String dquote s).
Proof.
  unfold encode_string. rewrite app_String, str_app_assoc, app_String, app_empty_l.
  reflexivity.
Qed.

Lemma scan_sentence f level s rest :
  reads_back (s_start s) = true -> reads_back (s_end s) = true ->
  scan_once (S (S (S (S (S f))))) (dumps_at level (sentence_object s) +:+ rest)
  = Ok (sentence_object s, rest).
Proof.
  intros Hstart Hend. unfold sentence_object.
  cbn [dumps_at map fst snd str_join].
  repeat (rewrite str_app_assoc || rewrite app_String || rewrite app_empty_l).
  cbn [scan_once]. rewrite decide_False by discriminate.
  rewrite decide_True by reflexivity.
  rewrite skip_ws_indent, skip_ws_string.
  rewrite (encode_string_app "text") at 1. cbv beta iota.
  rewrite decide_False by (vm_compute; discriminate).
  rewrite (scan_members_step _ _ _ _ (JStr (s_text s)) _
             (scan_once_string _ _ _) (skip_ws_string _)).
  rewrite skip_ws_stop by reflexivity.
  rewrite decide_False by discriminate. rewrite decide_True by reflexivity.
  rewrite skip_ws_indent, skip_ws_string.
  rewrite (scan_members_step _ _ _ _ (JFloat (s_start s)) _
             (scan_once_float _ _ _ Hstart (number_stop_comma _))
             (fun r => skip_ws_float _ r Hstart)).
  rewrite skip_ws_stop by reflexivity.
  rewrite decide_False by discriminate. rewrite decide_True by reflexivity.
  rewrite skip_ws_indent, skip_ws_string.
  rewrite (scan_members_step _ _ _ _ (JFloat (s_end s)) _
             (scan_once_float _ _ _ Hend (number_stop_indent _ _))
             (fun r => skip_ws_float _ r Hend)).
  rewrite skip_ws_indent, skip_ws_stop by reflexivity.
  rewrite decide_True by reflexivity.
  reflexivity.
Qed.

Lemma dumps_sentence_first level s rest :
  exists tail, dumps_at level (sentence_object s) +:+ rest = String "{" tail.
Proof.
  unfold sentence_object. cbn [dumps_at]. rewrite app_String. eauto.
Qed.

Lemma skip_ws_sentence level s rest :
  skip_ws (dumps_at level (sentence_object s) +:+ rest)
  = dumps_at level (sentence_object s) +:+ rest.
Proof.
  destruct (dumps_sentence_first level s rest) as [tail ->]. reflexivity.
Qed.

Lemma scan_sentence_enough f level s rest :
  (5 <= f)%nat ->
  reads_back (s_start s) = true -> reads_back (s_end s) = true ->
  scan_once f (dumps_at level (sentence_object s) +:+ rest)
  = Ok (sentence_object s, rest).
Proof.
  intros Hf. replace f with (S (S (S (S (S (f - 5)))))) by lia. apply scan_sentence.
Qed.

Lemma scan_items_unfold f acc s :
  scan_items (S f) acc s
  = '(value, r1) ← scan_once f s;
    match skip_ws r1 with
    | String c r2 =>
        if decide (c = "]"%char) then Ok (acc ++ [value], r2)
        else if decide (c = ","%char)
             then scan_items f (acc ++ [value]) (skip_ws r2)
             else Raise (JSONDecodeError "Expecting ',' delimiter")
    | EmptyString => Raise (JSONDecodeError "Expecting ',' delimiter")
    end.
Proof. reflexivity. Qed.

Lemma str_join_cons sep x y l :
  str_join sep (x :: y :: l) = x +:+ sep +:+ str_join sep (y :: l).
Proof. reflexivity. Qed.

(** The items of the array of sentences, up to the closing bracket. *)
Lemma scan_items_sentences level s sentences :
  sentences_ok (s :: sentences) ->
  forall f acc rest,
    (length (s :: sentences) + 5 <= f)%nat ->
    scan_items f acc
      (str_join (String "," (newline_indent (S level)))
         (map (dumps_at (S level)) (map sentence_object (s :: sentences)))
       +:+ newline_indent level +:+ String "]" rest)
    = Ok (acc ++ map sentence_object (s :: sentences), rest).
Proof.
  revert s. induction sentences as [|s' sentences IH]; intros s Hok f acc rest Hf;
    inversion Hok as [|? ? [Hstart Hend] Hok']; subst;
    (destruct f as [|f]; [simpl in Hf; lia|]);
    assert (Hf5 : (5 <= f)%nat) by (simpl in Hf; lia);
    rewrite scan_items_unfold.
  - cbn [map str_join].
    rewrite (scan_sentence_enough _ _ _ _ Hf5 Hstart Hend).
    cbn [mbind outcome_bind].
    rewrite skip_ws_indent, skip_ws_stop by reflexivity.
    rewrite decide_True by reflexivity. reflexivity.
  - cbn [map]. rewrite str_join_cons.
    repeat (rewrite str_app_assoc || rewrite app_String || rewrite app_empty_l).
    rewrite (scan_sentence_enough _ _ _ _ Hf5 Hstart Hend).
    cbn [mbind outcome_bind].
    rewrite skip_ws_stop by reflexivity.
    rewrite decide_False by discriminate. rewrite decide_True by reflexivity.
    rewrite skip_ws_indent.
    specialize (IH s' Hok' f (acc ++ [sentence_object s]) rest).
    cbn [map] in IH.
    match goal with |- context [skip_ws ?x] =>
      replace (skip_ws x) with x
    end.
    + rewrite IH by (simpl in *; lia).
      rewrite <- app_assoc. reflexivity.
    + destruct sentences; cbn [map]; [cbn [str_join]|rewrite str_join_cons];
        rewrite ?str_app_assoc; symmetry; apply skip_ws_sentence.
Qed.

Lemma join_sentences_first level s sentences rest :
  exists tail,
    str_join (String "," (newline_indent (S level)))
      (map (dumps_at (S level)) (map sentence_object (s :: sentences)))
    +:+ rest = String "{" tail.
Proof.
  destruct sentences as [|s' sentences]; cbn [map].
  - cbn [str_join]. apply dumps_sentence_first.
  - rewrite str_join_cons, str_app_assoc. apply dumps_sentence_first.
Qed.

Lemma scan_sentences_array f level sentences rest :
  sentences_ok sentences ->
  (length sentences + 6 <= f)%nat ->
  scan_once f (dumps_at level (JArr (map sentence_object sentences)) +:+ rest)
  = Ok (JArr (map sentence_object sentences), rest).
Proof.
  intros Hok Hf. destruct f as [|f]; [lia|].
  destruct sentences as [|s sentences].
  - cbn [map dumps_at]. repeat (rewrite app_String || rewrite app_empty_l).
    cbn [scan_once]. rewrite !decide_False by discriminate.
    rewrite decide_True by reflexivity. rewrite skip_ws_stop by reflexivity.
    rewrite decide_True by reflexivity. reflexivity.
  - change (dumps_at level (JArr (map sentence_object (s :: sentences))))
      with ("[" +:+ newline_indent (S level) +:+
            str_join ("," +:+ newline_indent (S level))
              (map (dumps_at (S level)) (map sentence_object (s :: sentences))) +:+
            newline_indent level +:+ "]").
    repeat (rewrite str_app_assoc || rewrite app_String || rewrite app_empty_l).
    cbn [scan_once]. rewrite !decide_False by discriminate.
    rewrite decide_True by reflexivity. rewrite skip_ws_indent.
    destruct (join_sentences_first level s sentences
                (newline_indent level +:+ String "]" rest)) as [tail Htail].
    rewrite Htail. rewrite skip_ws_stop by reflexivity.
    rewrite decide_False by discriminate. rewrite <- Htail.
    rewrite (scan_items_sentences level s sentences Hok) by (simpl in *; lia).
    reflexivity.
Qed.

Lemma skip_ws_array level items rest :
  skip_ws (dumps_at level (JArr items) +:+ rest) = dumps_at level (JArr items) +:+ rest.
Proof. destruct items; reflexivity. Qed.

(** The whole document *)
Lemma scan_result f result rest :
  sentences_ok (r_sentences result) ->
  (length (r_sentences result) + 9 <= f)%nat ->
  scan_once f (dumps (result_object result) +:+ rest) = Ok (result_object result, rest).
Proof.
  intros Hok Hf. unfold dumps, result_object.
  do 3 (destruct f as [|f]; [lia|]).
  assert (Hf6 : (length (r_sentences result) + 6 <= f)%nat) by lia.
  change (dumps_at 0 (JObj [("text", JStr (r_text result));
                            ("sentences", JArr (map sentence_object (r_sentences result)))]))
    with ("{" +:+ newline_indent 1 +:+
          ((encode_string "text" +:+ ": " +:+ encode_string (r_text result)) +:+
           ("," +:+ newline_indent 1) +:+
           (encode_string "sentences" +:+ ": " +:+
            dumps_at 1 (JArr (map sentence_object (r_sentences result))))) +:+
          newline_indent 0 +:+ "}").
  repeat (rewrite str_app_assoc || rewrite app_String || rewrite app_empty_l).
  cbn [scan_once]. rewrite decide_False by discriminate.
  rewrite decide_True by reflexivity.
  rewrite skip_ws_indent, skip_ws_string.
  rewrite (encode_string_app "text") at 1. cbv beta iota.
  rewrite decide_False by (vm_compute; discriminate).
  rewrite (scan_members_step _ _ _ _ (JStr (r_text result)) _
             (scan_once_string _ _ _) (skip_ws_string _)).
  rewrite skip_ws_stop by reflexivity.
  rewrite decide_False by discriminate. rewrite decide_True by reflexivity.
  rewrite skip_ws_indent, skip_ws_string.
  rewrite (scan_members_step _ _ _ _
             (JArr (map sentence_object (r_sentences result))) _
             (scan_sentences_array f _ _ _ Hok Hf6)
             (skip_ws_array _ _)).
  rewrite skip_ws_indent, skip_ws_stop by reflexivity.
  rewrite decide_True by reflexivity.
  reflexivity.
Qed.

(** The text is long enough to bound the number of values in it. *)
Lemma str_len_join_sentences level sentences :
  (length sentences
   <= str_len (str_join ("," +:+ newline_indent (S level))
                 (map (dumps_at (S level)) (map sentence_object sentences))))%nat.
Proof.
  induction sentences as [|s sentences IH]; [simpl; lia|].
  destruct sentences as [|s' sentences].
  - cbn [map str_join length]. destruct (dumps_sentence_first (S level) s "") as [tail Ht].
    assert (dumps_at (S level) (sentence_object s) +:+ "" = dumps_at (S level) (sentence_object s)) as E.
    { generalize (dumps_at (S level) (sentence_object s)). intros x.
      induction x as [|c x IHx]; [reflexivity|]. rewrite app_String, IHx. reflexivity. }
    rewrite E in Ht. rewrite Ht. simpl. lia.
  - cbn [map]. rewrite str_join_cons. cbn [map] in IH.
    rewrite !str_len_app. cbn [length] in *. 
    destruct (dumps_sentence_first (S level) s "") as [tail Ht].
    assert (1 <= str_len (dumps_at (S level) (sentence_object s)))%nat.
    { unfold sentence_object. cbn [dumps_at]. rewrite app_String. simpl. lia. }
    lia.
Qed.

Lemma str_len_dumps_result result :
  (length (r_sentences result) + 8 <= str_len (dumps (result_object result)))%nat.
Proof.
  unfold dumps, result_object.
  change (dumps_at 0 (JObj [("text", JStr (r_text result));
                            ("sentences", JArr (map sentence_object (r_sentences result)))]))
    with ("{" +:+ newline_indent 1 +:+
          ((encode_string "text" +:+ ": " +:+ encode_string (r_text result)) +:+
           ("," +:+ newline_indent 1) +:+
           (encode_string "sentences" +:+ ": " +:+
            dumps_at 1 (JArr (map sentence_object (r_sentences result))))) +:+
          newline_indent 0 +:+ "}").
  rewrite !str_len_app.
  assert (length (r_sentences result)
          <= str_len (dumps_at 1 (JArr (map sentence_object (r_sentences result)))))%nat.
  { destruct (r_sentences result) as [|s sentences] eqn:E; [simpl; lia|].
    change (dumps_at 1 (JArr (map sentence_object (s :: sentences))))
      with ("[" +:+ newline_indent 2 +:+
            str_join ("," +:+ newline_indent 2)
              (map (dumps_at 2) (map sentence_object (s :: sentences))) +:+
            newline_indent 1 +:+ "]").
    rewrite !str_len_app. pose proof (str_len_join_sentences 1 (s :: sentences)). lia. }
  change (str_len "{") with 1%nat. change (str_len (newline_indent 1)) with 3%nat.
  change (str_len (encode_string "text")) with 6%nat.
  change (str_len (encode_string "sentences")) with 11%nat.
  lia.
Qed.

Lemma str_app_empty_r s : s +:+ "" = s.
Proof. induction s as [|c s IH]; [reflexivity|]. rewrite app_String, IH. reflexivity. Qed.

(** C7: the json output is an object with the two fields text and
    sentences, and reading it gives back the text and one object per
    sentence, in order, with the text, start and end of that sentence. *)
Theorem json_output_round_trip (result : TranscriptResult) :
  sentences_ok (r_sentences result) ->
  exists text parsed,
    format_output result "json" = Ok text /\
    loads text =
      Ok (JObj [("text", JStr (r_text result)); ("sentences", JArr parsed)]) /\
    length parsed = length (r_sentences result) /\
    forall i s,
      r_sentences result !! i = Some s ->
      parsed !! i =
        Some (JObj [("text", JStr (s_text s)); ("start", JFloat (s_start s));
                    ("end", JFloat (s_end s))]).
Proof.
  intros Hok.
  exists (dumps (result_object result)), (map sentence_object (r_sentences result)).
  split; [reflexivity|]. split; [|split].
  - unfold loads.
    assert (Hws : skip_ws (dumps (result_object result)) = dumps (result_object result))
      by reflexivity.
    rewrite Hws.
    pose proof (scan_result (S (str_len (dumps (result_object result)))) result ""
                  Hok) as Hscan.
    rewrite str_app_empty_r in Hscan. rewrite Hscan.
    + reflexivity.
    + pose proof (str_len_dumps_result result). lia.
  - apply length_map.
  - intros i s Hi. rewrite list_lookup_fmap, Hi. reflexivity.
Qed.

Lemma json_output_witness :
  exists text,
    format_output hello_world "json" = Ok text /\
    loads text =
      Ok (JObj [("text", JStr "Hello World");
                ("sentences",
                 JArr [JObj [("text", JStr "Hello"); ("start", JFloat (PyFloat.of_Z 0));
                             ("end", JFloat (PyFloat.of_decimal 15 1))];
                       JObj [("text", JStr "World");
                             ("start", JFloat (PyFloat.of_decimal 15 1));
                             ("end", JFloat (PyFloat.of_Z 3))]])]).
Proof.
  destruct (json_output_round_trip hello_world) as (text & parsed & Hfmt & Hloads & Hlen & Hitems).
  - repeat constructor.
  - exists text. split; [exact Hfmt|]. rewrite Hloads.
    destruct parsed as [|p0 [|p1 [|]]]; try discriminate Hlen.
    pose proof (Hitems 0%nat _ eq_refl) as H0. pose proof (Hitems 1%nat _ eq_refl) as H1.
    simpl in H0, H1. injection H0 as ->. injection H1 as ->. reflexivity.
Defined.

(** ** Binary64 values that are exact *)

Lemma digits2_pos_bounds m :
  2 ^ (Zpos (digits2_pos m) - 1) <= Zpos m < 2 ^ Zpos (digits2_pos m).
Proof.
  induction m as [m IH|m IH|]; cbn [digits2_pos].
  - rewrite Pos2Z.inj_succ, Pos2Z.inj_xI.
    replace (Z.succ (Zpos (digits2_pos m)) - 1) with (Z.succ (Zpos (digits2_pos m) - 1)) by lia.
    rewrite 2!Z.pow_succ_r by lia. lia.
  - rewrite Pos2Z.inj_succ, (Pos2Z.inj_xO m).
    replace (Z.succ (Zpos (digits2_pos m)) - 1) with (Z.succ (Zpos (digits2_pos m) - 1)) by lia.
    rewrite 2!Z.pow_succ_r by lia. lia.
  - simpl. lia.
Qed.

Lemma digits2_pos_unique m d :
  2 ^ (d - 1) <= Zpos m < 2 ^ d -> Zpos (digits2_pos m) = d.
Proof.
  intros [Hlo Hhi]. pose proof (digits2_pos_bounds m) as [Hlo' Hhi'].
  assert (0 < d).
  { destruct (Z_lt_le_dec 0 d) as [|Hd]; [assumption|].
    assert (2 ^ d <= 1); [|lia].
    destruct (Z.eq_dec d 0) as [->|]; [simpl; lia|].
    rewrite Z.pow_neg_r by lia. lia. }
  destruct (Z.lt_trichotomy (Zpos (digits2_pos m)) d) as [Hlt|[Heq|Hgt]]; [|exact Heq|].
  - assert (2 ^ Zpos (digits2_pos m) <= 2 ^ (d - 1)) by (apply Z.pow_le_mono_r; lia). lia.
  - assert (2 ^ d <= 2 ^ (Zpos (digits2_pos m) - 1)) by (apply Z.pow_le_mono_r; lia). lia.
Qed.

Lemma digits2_pos_shift m k m' :
  0 <= k -> Zpos m' = Zpos m * 2 ^ k ->
  Zpos (digits2_pos m') = Zpos (digits2_pos m) + k.
Proof.
  intros Hk Hm'. apply digits2_pos_unique. rewrite Hm'.
  pose proof (digits2_pos_bounds m) as [Hlo Hhi].
  replace (Zpos (digits2_pos m) + k - 1) with ((Zpos (digits2_pos m) - 1) + k) by lia.
  rewrite !Z.pow_add_r by lia.
  assert (0 < 2 ^ k) by (apply Z.pow_pos_nonneg; lia). nia.
Qed.

Lemma digits2_pos_mono m n :
  Zpos m <= Zpos n -> Zpos (digits2_pos m) <= Zpos (digits2_pos n).
Proof.
  intros Hmn. pose proof (digits2_pos_bounds m) as [Hlo _].
  pose proof (digits2_pos_bounds n) as [_ Hhi].
  destruct (Z_lt_le_dec (Zpos (digits2_pos n)) (Zpos (digits2_pos m))) as [Hlt|]; [|assumption].
  assert (2 ^ Zpos (digits2_pos n) <= 2 ^ (Zpos (digits2_pos m) - 1))
    by (apply Z.pow_le_mono_r; lia).
  lia.
Qed.

(** Shifting a mantissa to the left *)
Lemma iter_xO m k : Zpos (Pos.iter xO m k) = Zpos m * 2 ^ Zpos k.
Proof.
  induction k as [|k IH] using Pos.peano_ind.
  - simpl. lia.
  - rewrite Pos.iter_succ, (Pos2Z.inj_xO (Pos.iter xO m k)), IH, Pos2Z.inj_succ, Z.pow_succ_r by lia. lia.
Qed.

Lemma shl_align_spec mx ex ez :
  ez <= ex ->
  exists mz, shl_align mx ex ez = (mz, ez) /\ Zpos mz = Zpos mx * 2 ^ (ex - ez).
Proof.
  intros Hez. unfold shl_align.
  destruct (ez - ex) as [|d|d] eqn:Hd; try lia.
  - exists mx. assert (ex = ez) as -> by lia. rewrite Z.sub_diag. simpl. split; [reflexivity|lia].
  - exists (Pos.iter xO mx d). split; [reflexivity|].
    rewrite iter_xO. f_equal. f_equal. lia.
Qed.

Lemma shl_align_keep mx ex ez :
  ex <= ez -> shl_align mx ex ez = (mx, ex).
Proof.
  intros Hez. unfold shl_align. destruct (ez - ex) eqn:Hd; try reflexivity. lia.
Qed.

(** Shifting to the right when only zeros are dropped *)
Lemma shr_1_exact m :
  shr_1 (Build_shr_record (Zpos m~0) false false) = Build_shr_record (Zpos m) false false.
Proof. reflexivity. Qed.

Lemma iter_shr_exact k :
  forall m m', Zpos m' = Zpos m * 2 ^ Zpos k ->
    SpecFloat.iter_pos shr_1 k (Build_shr_record (Zpos m') false false)
    = Build_shr_record (Zpos m) false false.
Proof.
  induction k as [k IH|k IH|]; intros m m' Hm'; cbn [SpecFloat.iter_pos].
  - rewrite Pos2Z.inj_xI in Hm'.
    replace (2 * Zpos k + 1) with (Zpos k + Zpos k + 1) in Hm' by lia.
    rewrite !Z.pow_add_r in Hm' by lia.
    assert (Hpos : 0 < 2 ^ Zpos k) by (apply Z.pow_pos_nonneg; lia).
    assert (Hm1 : exists m1, Zpos m1 = Zpos m * 2 ^ Zpos k).
    { exists (Z.to_pos (Zpos m * 2 ^ Zpos k)). rewrite Z2Pos.id; [reflexivity|nia]. }
    destruct Hm1 as [m1 Hm1].
    assert (Hm2 : exists m2, Zpos m2 = Zpos m1 * 2 ^ Zpos k).
    { exists (Z.to_pos (Zpos m1 * 2 ^ Zpos k)). rewrite Z2Pos.id; [reflexivity|nia]. }
    destruct Hm2 as [m2 Hm2].
    assert (m' = m2~0)%positive as ->.
    { apply Pos2Z.inj. rewrite (Pos2Z.inj_xO m2), Hm', Hm2, Hm1. simpl (2 ^ 1). lia. }
    rewrite shr_1_exact, (IH m1 m2 Hm2), (IH m m1 Hm1). reflexivity.
  - rewrite (Pos2Z.inj_xO k) in Hm'.
    replace (2 * Zpos k) with (Zpos k + Zpos k) in Hm' by lia.
    rewrite Z.pow_add_r in Hm' by lia.
    assert (Hpos : 0 < 2 ^ Zpos k) by (apply Z.pow_pos_nonneg; lia).
    assert (Hm1 : exists m1, Zpos m1 = Zpos m * 2 ^ Zpos k).
    { exists (Z.to_pos (Zpos m * 2 ^ Zpos k)). rewrite Z2Pos.id; [reflexivity|nia]. }
    destruct Hm1 as [m1 Hm1].
    rewrite (IH m1 m'), (IH m m1 Hm1); [reflexivity|]. rewrite Hm', Hm1. lia.
  - assert (m' = m~0)%positive as ->.
    { apply Pos2Z.inj. rewrite Hm'. simpl (2 ^ 1). lia. }
    reflexivity.
Qed.

Lemma bounded64_spec m e :
  bounded64 m e = true <->
  fexp64 (Zpos (digits2_pos m) + e) = e /\ e <= 971.
Proof.
  unfold bounded, canonical_mantissa. rewrite andb_true_iff, Z.eqb_eq, Z.leb_le.
  reflexivity.
Qed.

Lemma shr_fexp_exact m k mz :
  0 <= k -> Zpos mz = Zpos m * 2 ^ k ->
  forall e, fexp64 (Zpos (digits2_pos m) + e) = e ->
  shr_fexp PyFloat.prec PyFloat.emax (Zpos mz) (e - k) loc_Exact
  = (Build_shr_record (Zpos m) false false, e).
Proof.
  intros Hk Hmz e He. unfold shr_fexp. cbn [Zdigits2 shr_record_of_loc].
  rewrite (digits2_pos_shift m k mz Hk Hmz).
  replace (Zpos (digits2_pos m) + k + (e - k)) with (Zpos (digits2_pos m) + e) by lia.
  rewrite He. replace (e - (e - k)) with k by lia.
  unfold shr. destruct k as [|p|p]; try lia.
  - rewrite Z.mul_1_r in Hmz. injection Hmz as ->. f_equal. lia.
  - rewrite (iter_shr_exact p m mz Hmz). f_equal. lia.
Qed.

(** Rounding a value that is a binary64 number gives that number. *)
Lemma binary_round_aux_exact s m e k mz :
  bounded64 m e = true -> 0 <= k -> Zpos mz = Zpos m * 2 ^ k ->
  binary_round_aux PyFloat.prec PyFloat.emax s (Zpos mz) (e - k) loc_Exact
  = S754_finite s m e.
Proof.
  intros [He Hmax]%bounded64_spec Hk Hmz. unfold binary_round_aux.
  rewrite (shr_fexp_exact m k mz Hk Hmz e He).
  cbn [shr_m loc_of_shr_record round_nearest_even].
  replace e with (e - 0) at 1 by lia.
  rewrite (shr_fexp_exact m 0 m (Z.le_refl 0) ltac:(lia) e He).
  cbn [shr_m]. change (PyFloat.emax - PyFloat.prec) with 971.
  destruct (e <=? 971) eqn:E; [reflexivity|]. apply Z.leb_gt in E. lia.
Qed.

(** The binary64 number with the value [n * 2^e], when there is one. *)
Lemma binary_normalize_exact n e m' e' sz :
  bounded64 m' e' = true ->
  (e' <= e -> Zpos m' = Zpos n * 2 ^ (e - e')) ->
  (e <= e' -> Zpos n = Zpos m' * 2 ^ (e' - e)) ->
  binary_normalize PyFloat.prec PyFloat.emax (Zpos n) e sz = S754_finite false m' e'.
Proof.
  intros Hb Hle Hge. pose proof Hb as [He Hmax]%bounded64_spec.
  unfold binary_normalize, binary_round.
  assert (Hdig : Zpos (digits2_pos n) + e = Zpos (digits2_pos m') + e').
  { destruct (Z_le_gt_dec e' e) as [H|H].
    - rewrite (digits2_pos_shift n (e - e') m') by (try apply Hle; lia). lia.
    - rewrite (digits2_pos_shift m' (e' - e) n) by (try apply Hge; lia). lia. }
  rewrite Hdig, He.
  destruct (Z_le_gt_dec e' e) as [H|H].
  - destruct (shl_align_spec n e e' H) as (mz & -> & Hmz).
    assert (mz = m') as -> by (apply Pos2Z.inj; rewrite Hmz, Hle by lia; reflexivity).
    replace e' with (e' - 0) at 1 by lia.
    apply binary_round_aux_exact; [exact Hb|lia|lia].
  - rewrite shl_align_keep by lia.
    replace e with (e' - (e' - e)) by lia.
    apply binary_round_aux_exact; [exact Hb|lia|]. apply Hge. lia.
Qed.

(** ** Values as multiples of the smallest positive number, [2^-1074] *)

Lemma fexp64_spec d : fexp64 d = Z.max (d - 53) (-1074).
Proof. reflexivity. Qed.

Lemma fexp64_mono a b : a <= b -> fexp64 a <= fexp64 b.
Proof. rewrite !fexp64_spec. lia. Qed.

Lemma bounded64_range m e :
  bounded64 m e = true -> -1074 <= e <= 971 /\ Zpos m < 2 ^ 53.
Proof.
  intros [He Hmax]%bounded64_spec. rewrite fexp64_spec in He.
  split; [lia|]. pose proof (digits2_pos_bounds m) as [_ Hhi].
  assert (Zpos (digits2_pos m) <= 53) by lia.
  assert (2 ^ Zpos (digits2_pos m) <= 2 ^ 53) by (apply Z.pow_le_mono_r; lia). lia.
Qed.

Lemma div_pow2 a b c : 0 <= c <= b -> a * 2 ^ b / 2 ^ c = a * 2 ^ (b - c).
Proof.
  intros H. replace b with ((b - c) + c) at 1 by lia.
  rewrite Z.pow_add_r by lia. rewrite Z.mul_assoc.
  apply Z.div_mul. apply Z.pow_nonzero; lia.
Qed.

Lemma pow2_cancel a b c d :
  0 <= c -> 0 <= d -> a * 2 ^ (c + d) = b * 2 ^ d -> a * 2 ^ c = b.
Proof.
  intros Hc Hd H. rewrite Z.pow_add_r, Z.mul_assoc in H by lia.
  apply Z.mul_cancel_r in H; [exact H|]. apply Z.pow_nonzero; lia.
Qed.

(** The float with given ticks is the one found by normalization. *)
Lemma normalize_ticks n e m' e' sz :
  -1074 <= e -> bounded64 m' e' = true ->
  Zpos n * 2 ^ (e + 1074) = Zpos m' * 2 ^ (e' + 1074) ->
  binary_normalize PyFloat.prec PyFloat.emax (Zpos n) e sz = S754_finite false m' e'.
Proof.
  intros He Hb Hticks. pose proof (bounded64_range _ _ Hb) as [He' _].
  apply binary_normalize_exact; [exact Hb| |]; intros Hle.
  - symmetry. apply (pow2_cancel _ _ (e - e') (e' + 1074)); [lia|lia|].
    replace (e - e' + (e' + 1074)) with (e + 1074) by lia. exact Hticks.
  - symmetry. apply (pow2_cancel _ _ (e' - e) (e + 1074)); [lia|lia|].
    replace (e' - e + (e + 1074)) with (e' + 1074) by lia. symmetry. exact Hticks.
Qed.

Lemma representable_canonical t :
  representable t -> 0 < t ->
  exists m e, bounded64 m e = true /\ t = Zpos m * 2 ^ (e + 1074).
Proof.
  intros (a & j & Ha & Hj & ->) Hpos.
  assert (Hj0 : 0 < j) by nia.
  destruct j as [|j|j]; try lia.
  set (d := Zpos (digits2_pos j)).
  pose proof (digits2_pos_bounds j) as [Hlo Hhi]. fold d in Hlo, Hhi.
  assert (Hd : 1 <= d <= 53).
  { subst d. split; [lia|].
    destruct (Z_le_gt_dec (Zpos (digits2_pos j)) 53) as [|Hgt]; [assumption|].
    assert (2 ^ 53 <= 2 ^ (Zpos (digits2_pos j) - 1)) by (apply Z.pow_le_mono_r; lia).
    lia. }
  set (sh := Z.max (d + a - 53) 0).
  assert (Hsh : 0 <= sh <= a) by lia.
  assert (Hm : 0 < Zpos j * 2 ^ (a - sh)).
  { assert (0 < 2 ^ (a - sh)) by (apply Z.pow_pos_nonneg; lia). nia. }
  exists (Z.to_pos (Zpos j * 2 ^ (a - sh))), (sh - 1074).
  assert (Hmz : Zpos (Z.to_pos (Zpos j * 2 ^ (a - sh))) = Zpos j * 2 ^ (a - sh))
    by (apply Z2Pos.id; exact Hm).
  split.
  - apply bounded64_spec.
    rewrite (digits2_pos_shift j (a - sh) _ ltac:(lia) Hmz). fold d.
    rewrite fexp64_spec. lia.
  - rewrite Hmz. replace (sh - 1074 + 1074) with sh by lia.
    rewrite <- Z.mul_assoc, <- Z.pow_add_r by lia. f_equal. f_equal. lia.
Qed.

Lemma of_ticks_zero : of_ticks 0 = S754_zero false.
Proof. reflexivity. Qed.

Lemma of_ticks_finite t m e :
  bounded64 m e = true -> t = Zpos m * 2 ^ (e + 1074) ->
  of_ticks t = S754_finite false m e.
Proof.
  intros Hb ->. unfold of_ticks.
  assert (Hpos : 0 < Zpos m * 2 ^ (e + 1074)).
  { pose proof (bounded64_range _ _ Hb) as [He _].
    assert (0 < 2 ^ (e + 1074)) by (apply Z.pow_pos_nonneg; lia). nia. }
  destruct (Zpos m * 2 ^ (e + 1074)) as [|n|n] eqn:Hn; try lia.
  apply normalize_ticks; [lia|exact Hb|]. rewrite Hn. simpl (2 ^ (-1074 + 1074)). lia.
Qed.

Lemma good_of_ticks x : nonneg_canonical x -> x = of_ticks (ticks x).
Proof.
  intros [->|(m & e & -> & Hb)]; [reflexivity|].
  symmetry. apply of_ticks_finite; [exact Hb|reflexivity].
Qed.

Lemma of_ticks_good t : representable t -> 0 <= t -> nonneg_canonical (of_ticks t) /\ ticks (of_ticks t) = t.
Proof.
  intros Hr Ht. destruct (Z.eq_dec t 0) as [->|Hne].
  - split; [left; reflexivity|reflexivity].
  - destruct (representable_canonical t Hr ltac:(lia)) as (m & e & Hb & Heq).
    rewrite (of_ticks_finite t m e Hb Heq). split.
    + right. eauto.
    + simpl. symmetry. exact Heq.
Qed.

Lemma good_ticks x : nonneg_canonical x -> representable (ticks x) /\ 0 <= ticks x.
Proof.
  intros [->|(m & e & -> & Hb)].
  - split; [exists 0, 0; simpl; lia|simpl; lia].
  - pose proof (bounded64_range _ _ Hb) as [He Hm]. simpl. split.
    + exists (e + 1074), (Zpos m). split; [lia|]. split; [lia|reflexivity].
    + assert (0 < 2 ^ (e + 1074)) by (apply Z.pow_pos_nonneg; lia). nia.
Qed.

(** ** The operations on exact values *)

Lemma representable_small n : 0 <= n < 2 ^ 53 -> representable (n * unit_ticks).
Proof. intros Hn. exists 1074, n. unfold unit_ticks. split; [lia|]. split; [lia|reflexivity]. Qed.

Lemma unit_ticks_pos : 0 < unit_ticks.
Proof. unfold unit_ticks. apply Z.pow_pos_nonneg; lia. Qed.

Lemma of_Z_ticks n : 0 <= n < 2 ^ 53 -> PyFloat.of_Z n = of_ticks (n * unit_ticks).
Proof.
  intros Hn. destruct (Z.eq_dec n 0) as [->|Hne]; [reflexivity|].
  pose proof unit_ticks_pos as HU.
  destruct (representable_canonical (n * unit_ticks) (representable_small n Hn) ltac:(nia))
    as (m & e & Hb & Heq).
  rewrite (of_ticks_finite _ m e Hb Heq). unfold PyFloat.of_Z.
  destruct n as [|n|n]; try lia.
  apply normalize_ticks; [lia|exact Hb|]. rewrite <- Heq. reflexivity.
Qed.

Lemma ticks_finite m e :
  ticks (S754_finite false m e) = Zpos m * 2 ^ (e + 1074).
Proof. reflexivity. Qed.

Lemma c_fmod_exact x m e :
  nonneg_canonical x -> bounded64 m e = true ->
  PyFloat.c_fmod x (S754_finite false m e)
  = of_ticks (ticks x mod ticks (S754_finite false m e)) /\
  representable (ticks x mod ticks (S754_finite false m e)).
Proof.
  intros [->|(mx & ex & -> & Hbx)] Hby.
  - simpl ticks. rewrite Z.mod_0_l.
    + split; [reflexivity|]. exists 0, 0. simpl. lia.
    + pose proof (bounded64_range _ _ Hby) as [He _].
      assert (0 < 2 ^ (e + 1074)) by (apply Z.pow_pos_nonneg; lia). nia.
  - pose proof (bounded64_range _ _ Hbx) as [Hex Hmx].
    pose proof (bounded64_range _ _ Hby) as [Hey Hmy].
    rewrite !ticks_finite. cbn [PyFloat.c_fmod cond_Zopp].
    set (ez := Z.min ex e).
    set (X := Zpos mx * 2 ^ (ex - ez)). set (Y := Zpos m * 2 ^ (e - ez)).
    assert (HX : Zpos mx * 2 ^ (ex + 1074) = X * 2 ^ (ez + 1074)).
    { unfold X. rewrite <- Z.mul_assoc, <- Z.pow_add_r by lia. f_equal. f_equal. lia. }
    assert (HY : Zpos m * 2 ^ (e + 1074) = Y * 2 ^ (ez + 1074)).
    { unfold Y. rewrite <- Z.mul_assoc, <- Z.pow_add_r by lia. f_equal. f_equal. lia. }
    assert (Hpow : 0 < 2 ^ (ez + 1074)) by (apply Z.pow_pos_nonneg; lia).
    assert (HYpos : 0 < Y).
    { unfold Y. assert (0 < 2 ^ (e - ez)) by (apply Z.pow_pos_nonneg; lia). nia. }
    assert (HXpos : 0 < X).
    { unfold X. assert (0 < 2 ^ (ex - ez)) by (apply Z.pow_pos_nonneg; lia). nia. }
    rewrite HX, HY, Zmult_mod_distr_r.
    pose proof (Z.mod_pos_bound X Y HYpos) as [HR0 HRY].
    assert (HRX : X mod Y <= X) by (apply Z.mod_le; lia).
    assert (HR53 : X mod Y < 2 ^ 53).
    { destruct (Z_le_gt_dec ex e) as [Hle|Hgt].
      - assert (X = Zpos mx); [|lia].
        unfold X. replace (ex - ez) with 0 by lia. simpl (2 ^ 0). lia.
      - assert (Y = Zpos m); [|lia].
        unfold Y. replace (e - ez) with 0 by lia. simpl (2 ^ 0). lia. }
    assert (Hrep : representable (X mod Y * 2 ^ (ez + 1074))).
    { exists (ez + 1074), (X mod Y). split; [lia|]. split; [lia|reflexivity]. }
    split; [|exact Hrep].
    destruct (X mod Y) as [|r|r] eqn:HR; try lia.
    + reflexivity.
    + destruct (representable_canonical _ Hrep ltac:(nia)) as (m' & e' & Hb' & Heq).
      rewrite (of_ticks_finite _ m' e' Hb' Heq).
      apply normalize_ticks; [lia|exact Hb'|exact Heq].
Qed.

Lemma fsub_exact x y :
  nonneg_canonical x -> nonneg_canonical y -> ticks y <= ticks x -> representable (ticks x - ticks y) ->
  PyFloat.fsub x y = of_ticks (ticks x - ticks y).
Proof.
  intros Hx Hy Hle Hrep.
  destruct Hy as [->|(my & ey & -> & Hby)].
  - simpl ticks. rewrite Z.sub_0_r. rewrite <- (good_of_ticks x Hx).
    destruct Hx as [->|(mx & ex & -> & Hbx)]; reflexivity.
  - pose proof (bounded64_range _ _ Hby) as [Hey Hmy].
    destruct Hx as [->|(mx & ex & -> & Hbx)].
    + exfalso. simpl in Hle.
      assert (0 < 2 ^ (ey + 1074)) by (apply Z.pow_pos_nonneg; lia). nia.
    + pose proof (bounded64_range _ _ Hbx) as [Hex Hmx].
      rewrite !ticks_finite in *. unfold PyFloat.fsub, SFsub. cbn [cond_Zopp].
      set (ez := Z.min ex ey).
      assert (Hez : ez <= ex /\ ez <= ey) by (unfold ez; lia).
      destruct (shl_align_spec mx ex ez (proj1 Hez)) as (X & -> & HX).
      destruct (shl_align_spec my ey ez (proj2 Hez)) as (Y & -> & HY).
      cbn [fst].
      assert (HXt : Zpos mx * 2 ^ (ex + 1074) = Zpos X * 2 ^ (ez + 1074)).
      { rewrite HX, <- Z.mul_assoc, <- Z.pow_add_r by lia. f_equal. f_equal. lia. }
      assert (HYt : Zpos my * 2 ^ (ey + 1074) = Zpos Y * 2 ^ (ez + 1074)).
      { rewrite HY, <- Z.mul_assoc, <- Z.pow_add_r by lia. f_equal. f_equal. lia. }
      assert (Hpow : 0 < 2 ^ (ez + 1074)) by (apply Z.pow_pos_nonneg; lia).
      rewrite HXt, HYt in *. rewrite <- Z.mul_sub_distr_r in *.
      destruct (Zpos X - Zpos Y) as [|n|n] eqn:Hn; try nia.
      * reflexivity.
      * destruct (representable_canonical _ Hrep ltac:(nia)) as (m' & e' & Hb' & Heq).
        rewrite (of_ticks_finite _ m' e' Hb' Heq).
        apply normalize_ticks; [lia|exact Hb'|exact Heq].
Qed.

Lemma pow2_lt_exp a b : 2 ^ a < 2 ^ b -> 0 <= b -> a < b.
Proof.
  intros H Hb. destruct (Z_lt_le_dec a b) as [|Hle]; [assumption|].
  assert (2 ^ b <= 2 ^ a) by (apply Z.pow_le_mono_r; lia). lia.
Qed.

(** A quotient that is a binary64 number is computed exactly. *)
Lemma fdiv_exact mx ex my ey mq eq :
  bounded64 mx ex = true -> bounded64 my ey = true -> bounded64 mq eq = true ->
  Zpos mx * 2 ^ (ex + 1074) * 2 ^ 1074
  = Zpos mq * 2 ^ (eq + 1074) * (Zpos my * 2 ^ (ey + 1074)) ->
  PyFloat.fdiv (S754_finite false mx ex) (S754_finite false my ey)
  = S754_finite false mq eq.
Proof.
  intros Hbx Hby Hbq Heq.
  pose proof (bounded64_range _ _ Hbx) as [Hex Hmx].
  pose proof (bounded64_range _ _ Hby) as [Hey Hmy].
  pose proof (bounded64_range _ _ Hbq) as [Heq' Hmq].
  pose proof Hbq as [Hcq _]%bounded64_spec.
  unfold PyFloat.fdiv, SFdiv, SFdiv_core_binary. cbn [Zdigits2 xorb].
  set (d1 := Zpos (digits2_pos mx)). set (d2 := Zpos (digits2_pos my)).
  set (dq := Zpos (digits2_pos mq)) in *.
  pose proof (digits2_pos_bounds mx) as [Hlo1 _]. fold d1 in Hlo1.
  pose proof (digits2_pos_bounds my) as [_ Hhi2]. fold d2 in Hhi2.
  pose proof (digits2_pos_bounds mq) as [_ Hhiq]. fold dq in Hhiq.
  assert (Hmag : d1 + ex - (d2 + ey) <= dq + eq).
  { assert (Hd1 : 1 <= d1) by (unfold d1; lia).
    assert (Hd2 : 1 <= d2) by (unfold d2; lia).
    assert (Hdq : 1 <= dq) by (unfold dq; lia).
    remember (ex + 1074) as px eqn:Hpx. remember (ey + 1074) as py eqn:Hpy.
    remember (eq + 1074) as pq eqn:Hpq.
    assert (Hpx0 : 0 < 2 ^ px) by (apply Z.pow_pos_nonneg; lia).
    assert (Hpy0 : 0 < 2 ^ py) by (apply Z.pow_pos_nonneg; lia).
    assert (Hpq0 : 0 < 2 ^ pq) by (apply Z.pow_pos_nonneg; lia).
    assert (HU0 : 0 < 2 ^ 1074) by (apply Z.pow_pos_nonneg; lia).
    assert (H1 : 2 ^ (d1 - 1 + px + 1074) <= Zpos mx * 2 ^ px * 2 ^ 1074).
    { rewrite (Z.pow_add_r 2 (d1 - 1 + px) 1074), (Z.pow_add_r 2 (d1 - 1) px) by lia.
      apply Z.mul_le_mono_nonneg_r; [lia|].
      apply Z.mul_le_mono_nonneg_r; lia. }
    assert (H2 : Zpos mq * 2 ^ pq * (Zpos my * 2 ^ py) < 2 ^ (dq + pq + (d2 + py))).
    { rewrite (Z.pow_add_r 2 (dq + pq) (d2 + py)), (Z.pow_add_r 2 dq pq),
        (Z.pow_add_r 2 d2 py) by lia.
      apply Z.mul_lt_mono_nonneg.
      - nia.
      - apply Z.mul_lt_mono_pos_r; lia.
      - nia.
      - apply Z.mul_lt_mono_pos_r; lia. }
    rewrite Heq in H1.
    assert (Hlt : 2 ^ (d1 - 1 + px + 1074) < 2 ^ (dq + pq + (d2 + py))) by lia.
    apply pow2_lt_exp in Hlt; lia. }
  pose proof (fexp64_mono _ _ Hmag) as Hfexp. fold dq in Hcq. rewrite Hcq in Hfexp.
  set (F := fexp64 (d1 + ex - (d2 + ey))) in *.
  assert (HF : -1074 <= F) by (unfold F; rewrite fexp64_spec; lia).
  set (E' := Z.min F (ex - ey)).
  assert (HE' : E' <= eq /\ E' <= ex - ey /\ 0 <= ey + E' + 2148)
    by (unfold E'; lia).
  destruct HE' as (HEq & HEs & Ht).
  set (s := ex - ey - E').
  assert (Hs : 0 <= s) by (unfold s; lia).
  assert (Hshift : match s with
                   | Zpos _ => Z.shiftl (Zpos mx) s
                   | Z0 => Zpos mx
                   | Zneg _ => 0
                   end = Zpos mx * 2 ^ s).
  { destruct s as [|p|p] eqn:Hsp; try lia.
    - apply Z.shiftl_mul_pow2. lia. }
  rewrite Hshift.
  assert (Hexact : Zpos mx * 2 ^ s = Zpos my * (Zpos mq * 2 ^ (eq - E'))).
  { apply (Z.mul_cancel_r _ _ (2 ^ (ey + E' + 2148)));
      [apply Z.pow_nonzero; lia|].
    assert (Hl : 2 ^ s * 2 ^ (ey + E' + 2148) = 2 ^ (ex + 1074) * 2 ^ 1074).
    { rewrite <- !Z.pow_add_r by lia. f_equal. unfold s. lia. }
    assert (Hr : 2 ^ (eq - E') * 2 ^ (ey + E' + 2148)
                 = 2 ^ (eq + 1074) * 2 ^ (ey + 1074)).
    { rewrite <- !Z.pow_add_r by lia. f_equal. lia. }
    rewrite <- !Z.mul_assoc, Hl, Hr. lia. }
  pose proof (Z_div_mod (Zpos mx * 2 ^ s) (Zpos my) ltac:(lia)) as Hdm.
  destruct (Z.div_eucl (Zpos mx * 2 ^ s) (Zpos my)) as [q r].
  destruct Hdm as [Hdm Hr].
  assert (Hpowq : 0 < 2 ^ (eq - E')) by (apply Z.pow_pos_nonneg; lia).
  assert (Hq : q = Zpos mq * 2 ^ (eq - E') /\ r = 0).
  { rewrite Hexact in Hdm.
    assert (Hqq : q = Zpos mq * 2 ^ (eq - E')).
    { rewrite (Z.div_unique _ _ q r (or_introl Hr) Hdm).
      rewrite Z.mul_comm. apply Z.div_mul. lia. }
    split; [exact Hqq|]. subst q. lia. }
  destruct Hq as [-> ->].
  assert (Hloc : new_location (Zpos my) 0 = loc_Exact).
  { unfold new_location. destruct (Z.even (Zpos my)); reflexivity. }
  rewrite Hloc.
  assert (Hqpos : 0 < Zpos mq * 2 ^ (eq - E')) by nia.
  destruct (Zpos mq * 2 ^ (eq - E')) as [|qz|qz] eqn:Hqz; try lia.
  replace E' with (eq - (eq - E')) at 1 by lia.
  apply binary_round_aux_exact; [exact Hbq|lia|symmetry; exact Hqz].
Qed.

Lemma ticks_pos_finite m e : -1074 <= e -> 0 < Zpos m * 2 ^ (e + 1074).
Proof. intros He. assert (0 < 2 ^ (e + 1074)) by (apply Z.pow_pos_nonneg; lia). nia. Qed.

Lemma fdiv_ticks x y q :
  nonneg_canonical x -> nonneg_canonical y -> 0 < ticks y -> representable q -> 0 <= q ->
  ticks x * unit_ticks = q * ticks y ->
  PyFloat.fdiv x y = of_ticks q.
Proof.
  intros Hx Hy Hty Hq Hq0 Heq.
  destruct Hy as [->|(my & ey & -> & Hby)]; [simpl in Hty; lia|].
  destruct Hx as [->|(mx & ex & -> & Hbx)].
  - change (ticks (S754_zero false)) with 0 in Heq. rewrite Z.mul_0_l in Heq.
    symmetry in Heq. apply Z.mul_eq_0 in Heq. destruct Heq as [->|Heq]; [reflexivity|lia].
  - pose proof (bounded64_range _ _ Hbx) as [Hex _].
    pose proof (ticks_pos_finite mx ex (proj1 Hex)) as Hpx.
    pose proof unit_ticks_pos as HU.
    rewrite !ticks_finite in *.
    assert (Hqpos : 0 < q) by nia.
    destruct (representable_canonical q Hq Hqpos) as (mq & eq & Hbq & Hqeq).
    rewrite (of_ticks_finite q mq eq Hbq Hqeq).
    apply fdiv_exact; try assumption.
    rewrite <- Hqeq. exact Heq.
Qed.

Lemma lt0_good x : nonneg_canonical x -> PyFloat.lt0 x = false.
Proof. intros [->|(m & e & -> & _)]; reflexivity. Qed.

Lemma truthy_good x : nonneg_canonical x -> PyFloat.truthy x = negb (ticks x =? 0).
Proof.
  intros [->|(m & e & -> & Hb)]; [reflexivity|].
  pose proof (bounded64_range _ _ Hb) as [He _].
  pose proof (ticks_pos_finite m e (proj1 He)). rewrite ticks_finite.
  destruct (Z.eqb_spec (Zpos m * 2 ^ (e + 1074)) 0); [lia|reflexivity].
Qed.

Lemma signbit_round_aux m e l :
  PyFloat.signbit (binary_round_aux PyFloat.prec PyFloat.emax false m e l) = false.
Proof.
  unfold binary_round_aux.
  destruct (shr_fexp _ _ m e l) as [mrs' e'].
  destruct (shr_fexp _ _ _ e' loc_Exact) as [mrs'' e''].
  destruct (shr_m mrs''); [reflexivity| |reflexivity].
  destruct (e'' <=? _); reflexivity.
Qed.

Lemma signbit_fdiv_good x y :
  nonneg_canonical x -> nonneg_canonical y -> 0 < ticks y -> PyFloat.signbit (PyFloat.fdiv x y) = false.
Proof.
  intros Hx Hy Hty.
  destruct Hy as [->|(my & ey & -> & Hby)]; [simpl in Hty; lia|].
  destruct Hx as [->|(mx & ex & -> & Hbx)]; [reflexivity|].
  unfold PyFloat.fdiv, SFdiv. cbn [xorb].
  destruct (SFdiv_core_binary _ _ _ _ _ _) as [[q e] l].
  apply signbit_round_aux.
Qed.

Lemma py_int_exact x : nonneg_canonical x -> PyFloat.py_int x = Ok (ticks x / unit_ticks).
Proof.
  intros [->|(m & e & -> & Hb)]; [reflexivity|].
  pose proof (bounded64_range _ _ Hb) as [He _].
  rewrite ticks_finite. unfold PyFloat.py_int, unit_ticks. cbn [cond_Zopp]. f_equal.
  destruct (Z.leb_spec 0 e) as [Hle|Hlt].
  - rewrite div_pow2 by lia. f_equal. f_equal. lia.
  - replace (2 ^ 1074) with (2 ^ (- e) * 2 ^ (e + 1074))
      by (rewrite <- Z.pow_add_r by lia; f_equal; lia).
    rewrite Z.div_mul_cancel_r; [reflexivity| |];
      apply Z.pow_nonzero; lia.
Qed.

Lemma c_floor_integer q :
  0 < q < 2 ^ 53 ->
  PyFloat.c_floor (of_ticks (q * unit_ticks)) = of_ticks (q * unit_ticks).
Proof.
  intros Hq. pose proof unit_ticks_pos as HU.
  destruct (representable_canonical _ (representable_small q ltac:(lia)) ltac:(nia))
    as (m & e & Hb & Heq).
  rewrite (of_ticks_finite _ m e Hb Heq).
  pose proof (bounded64_range _ _ Hb) as [He _].
  unfold PyFloat.c_floor. destruct (Z.leb_spec 0 e) as [Hle|Hlt]; [reflexivity|].
  cbn [cond_Zopp].
  assert (Hm : Zpos m = q * 2 ^ (- e)).
  { symmetry. apply (pow2_cancel q (Zpos m) (- e) (e + 1074)); [lia|lia|].
    replace (- e + (e + 1074)) with 1074 by lia. exact Heq. }
  rewrite Hm, Z.div_mul by (apply Z.pow_nonzero; lia).
  change (binary_normalize PyFloat.prec PyFloat.emax q 0 false) with (PyFloat.of_Z q).
  rewrite of_Z_ticks by lia.
  apply of_ticks_finite; [exact Hb|exact Heq].
Qed.

(** The divisors of [format_timestamp]: positive integers. *)
Lemma of_Z_divisor n :
  0 < n < 2 ^ 53 ->
  exists m e, PyFloat.of_Z n = S754_finite false m e /\ bounded64 m e = true /\
              ticks (PyFloat.of_Z n) = n * unit_ticks.
Proof.
  intros Hn. pose proof unit_ticks_pos as HU.
  destruct (representable_canonical _ (representable_small n ltac:(lia)) ltac:(nia))
    as (m & e & Hb & Heq).
  exists m, e. rewrite of_Z_ticks by lia.
  rewrite (of_ticks_finite _ m e Hb Heq). rewrite ticks_finite. auto.
Qed.

Lemma py_mod_exact x n :
  nonneg_canonical x -> 0 < n < 2 ^ 53 ->
  PyFloat.py_mod x (PyFloat.of_Z n) = Ok (of_ticks (ticks x mod (n * unit_ticks))) /\
  representable (ticks x mod (n * unit_ticks)).
Proof.
  intros Hx Hn. pose proof unit_ticks_pos as HU.
  destruct (of_Z_divisor n Hn) as (m & e & Hy & Hb & Hty).
  rewrite Hy in *. rewrite <- Hty.
  destruct (c_fmod_exact x m e Hx Hb) as [Hmd Hrep].
  split; [|exact Hrep].
  unfold PyFloat.py_mod. cbn [PyFloat.is_zero]. rewrite Hmd.
  pose proof (Z.mod_pos_bound (ticks x) (ticks (S754_finite false m e)) ltac:(lia))
    as [Hr0 _].
  destruct (of_ticks_good _ Hrep Hr0) as [Hg Ht].
  rewrite (truthy_good _ Hg), Ht, (lt0_good _ Hg).
  change (PyFloat.lt0 (S754_finite false m e)) with false. cbn [xorb].
  destruct (Z.eqb_spec (ticks x mod ticks (S754_finite false m e)) 0) as [->|Hne];
    reflexivity.
Qed.

Lemma half_not_below_zero :
  PyFloat.flt (PyFloat.of_decimal 5 1) (S754_zero false) = false.
Proof. vm_compute. reflexivity. Qed.

Lemma py_floordiv_exact x n :
  nonneg_canonical x -> 0 < n < 2 ^ 53 -> ticks x < 2 ^ 53 * unit_ticks ->
  PyFloat.py_floordiv x (PyFloat.of_Z n)
  = Ok (of_ticks (ticks x / (n * unit_ticks) * unit_ticks)).
Proof.
  intros Hx Hn Hlt. pose proof unit_ticks_pos as HU.
  destruct (good_ticks x Hx) as [_ Hx0].
  destruct (of_Z_divisor n Hn) as (m & e & Hy & Hb & Hty).
  assert (Hgy : nonneg_canonical (PyFloat.of_Z n)) by (right; eauto).
  set (y := PyFloat.of_Z n) in *.
  set (ty := n * unit_ticks) in *.
  assert (Hty0 : 0 < ty) by (unfold ty; nia).
  set (q := ticks x / ty). set (r := ticks x mod ty).
  pose proof (Z.div_mod (ticks x) ty ltac:(lia)) as Hdm. fold q r in Hdm.
  pose proof (Z.mod_pos_bound (ticks x) ty Hty0) as [Hr0 Hr1]. fold r in Hr0, Hr1.
  assert (Hq0 : 0 <= q) by (apply Z.div_pos; lia).
  assert (Hqn : q * n < 2 ^ 53) by (unfold ty in *; nia).
  assert (Hq53 : q < 2 ^ 53) by nia.
  unfold PyFloat.py_floordiv.
  replace (PyFloat.is_zero y) with false by (rewrite Hy; reflexivity).
  assert (Hmd : PyFloat.c_fmod x y = of_ticks r /\ representable r).
  { unfold r. rewrite <- Hty, Hy. apply c_fmod_exact; assumption. }
  destruct Hmd as [-> Hrep].
  destruct (of_ticks_good r Hrep Hr0) as [Hgr Htr].
  rewrite (lt0_good _ Hgy), (lt0_good _ Hgr). cbn [xorb]. rewrite andb_false_r.
  assert (Hsub : PyFloat.fsub x (of_ticks r) = of_ticks (q * n * unit_ticks)).
  { rewrite fsub_exact; try assumption.
    - f_equal. rewrite Htr. unfold ty in Hdm. lia.
    - rewrite Htr. lia.
    - rewrite Htr. replace (ticks x - r) with (q * n * unit_ticks) by (unfold ty in Hdm; lia).
      apply representable_small. nia. }
  rewrite Hsub.
  assert (Hqn0 : 0 <= q * n < 2 ^ 53) by nia.
  assert (Hqnu : 0 <= q * n * unit_ticks) by nia.
  assert (Hqu : 0 <= q * unit_ticks) by nia.
  destruct (of_ticks_good _ (representable_small _ Hqn0) Hqnu) as [Hgs Hts].
  assert (Hdv : PyFloat.fdiv (of_ticks (q * n * unit_ticks)) y = of_ticks (q * unit_ticks)).
  { apply fdiv_ticks; try assumption.
    - rewrite Hty. lia.
    - apply representable_small. lia.
    - rewrite Hts, Hty. unfold ty. lia. }
  rewrite Hdv. f_equal.
  destruct (of_ticks_good _ (representable_small q (conj Hq0 Hq53)) Hqu) as [Hgq Htq].
  rewrite (truthy_good _ Hgq), Htq.
  destruct (Z.eqb_spec (q * unit_ticks) 0) as [Hz|Hnz]; cbn [negb].
  - rewrite Hz. unfold PyFloat.copysign0. rewrite signbit_fdiv_good; try assumption.
    + reflexivity.
    + rewrite Hty. lia.
  - assert (Hqpos : 0 < q < 2 ^ 53) by nia.
    rewrite (c_floor_integer q Hqpos).
    rewrite (fsub_exact _ _ Hgq Hgq); [|lia|rewrite Z.sub_diag; exists 0, 0; simpl; lia].
    rewrite Z.sub_diag, of_ticks_zero, half_not_below_zero. reflexivity.
Qed.

(** ** Rounding a product *)

Lemma shr_1_m mrs : 0 <= shr_m mrs -> shr_m (shr_1 mrs) = shr_m mrs / 2.
Proof.
  destruct mrs as [m r s]. cbn [shr_m]. intros Hm. rewrite <- Z.div2_div.
  destruct m as [|[p|p|]|p]; try lia; reflexivity.
Qed.

Lemma iter_shr_m k :
  forall mrs, 0 <= shr_m mrs ->
    shr_m (SpecFloat.iter_pos shr_1 k mrs) = shr_m mrs / 2 ^ Zpos k /\
    0 <= shr_m (SpecFloat.iter_pos shr_1 k mrs).
Proof.
  induction k as [k IH|k IH|]; intros mrs Hm; cbn [SpecFloat.iter_pos].
  - assert (H1 : 0 <= shr_m (shr_1 mrs)).
    { rewrite shr_1_m by lia. apply Z.div_pos; lia. }
    destruct (IH _ H1) as [E1 P1]. destruct (IH _ P1) as [E2 P2].
    split; [|exact P2].
    rewrite E2, E1, shr_1_m by lia.
    assert (Hp : 0 < 2 ^ Zpos k) by (apply Z.pow_pos_nonneg; lia).
    rewrite !Z.div_div by lia. f_equal.
    replace (Zpos k~1) with (1 + Zpos k + Zpos k) by lia.
    rewrite !Z.pow_add_r by lia. change (2 ^ 1) with 2. lia.
  - destruct (IH _ Hm) as [E1 P1]. destruct (IH _ P1) as [E2 P2].
    split; [|exact P2].
    rewrite E2, E1.
    assert (Hp : 0 < 2 ^ Zpos k) by (apply Z.pow_pos_nonneg; lia).
    rewrite !Z.div_div by lia. f_equal.
    replace (Zpos k~0) with (Zpos k + Zpos k) by lia.
    rewrite Z.pow_add_r by lia. reflexivity.
  - rewrite shr_1_m by lia. change (2 ^ 1) with 2.
    split; [reflexivity|apply Z.div_pos; lia].
Qed.

Lemma round_nearest_even_cases m l :
  round_nearest_even m l = m \/ round_nearest_even m l = m + 1.
Proof.
  destruct l as [|[| |]]; cbn [round_nearest_even]; auto.
  destruct (Z.even m); auto.
Qed.

(** Rounding keeps a value between its two neighbours at the exponent of
    the result. *)
Lemma binary_round_aux_bracket mx ex :
  let e' := fexp64 (Zpos (digits2_pos mx) + ex) in
  ex < e' -> e' <= 970 ->
  exists Y,
    (Y = Zpos mx / 2 ^ (e' - ex) \/ Y = Zpos mx / 2 ^ (e' - ex) + 1) /\
    ((binary_round_aux PyFloat.prec PyFloat.emax false (Zpos mx) ex loc_Exact
      = S754_zero false /\ Y = 0) \/
     exists m e,
       binary_round_aux PyFloat.prec PyFloat.emax false (Zpos mx) ex loc_Exact
       = S754_finite false m e /\ e' <= e /\ Zpos m * 2 ^ (e - e') = Y).
Proof.
  intros e' Hlt Hmax.
  pose proof (digits2_pos_bounds mx) as [_ Hd].
  set (d := Zpos (digits2_pos mx)) in *.
  assert (He' : e' = Z.max (d + ex - 53) (-1074)) by (unfold e'; apply fexp64_spec).
  unfold binary_round_aux, shr_fexp. cbn [Zdigits2 shr_record_of_loc]. fold d. fold e'.
  destruct (e' - ex) as [|k|k] eqn:Hk; try lia.
  cbn [shr].
  destruct (iter_shr_m k (Build_shr_record (Zpos mx) false false)) as [Eq Pq];
    [cbn [shr_m]; lia|].
  cbn [shr_m] in Eq.
  set (mrs := SpecFloat.iter_pos shr_1 k _) in *.
  set (q := shr_m mrs) in *.
  assert (Hq53 : q < 2 ^ 53).
  { rewrite Eq. apply Z.div_lt_upper_bound; [apply Z.pow_pos_nonneg; lia|].
    rewrite <- Z.pow_add_r by lia.
    eapply Z.lt_le_trans; [exact Hd|]. apply Z.pow_le_mono_r; lia. }
  replace (ex + Zpos k) with e' by lia.
  set (m2 := round_nearest_even q (loc_of_shr_record mrs)).
  exists m2. split.
  { rewrite <- Eq. apply round_nearest_even_cases. }
  assert (Hm2 : 0 <= m2 <= 2 ^ 53).
  { destruct (round_nearest_even_cases q (loc_of_shr_record mrs)) as [H|H];
      fold m2 in H; lia. }
  destruct m2 as [|p|p] eqn:Hp; try lia.
  - left. split; [|reflexivity]. cbn [Zdigits2].
    replace (fexp64 (0 + e') - e') with (Z.max (e' - 53) (-1074) - e')
      by (rewrite fexp64_spec; f_equal; f_equal; lia).
    destruct (Z.max (e' - 53) (-1074) - e') as [|j|j] eqn:Hj; try lia; reflexivity.
  - right. cbn [Zdigits2].
    set (d2 := Zpos (digits2_pos p)).
    assert (Hf : fexp64 (d2 + e') = Z.max (d2 + e' - 53) (-1074)) by apply fexp64_spec.
    destruct (Z.eq_dec (Zpos p) (2 ^ 53)) as [Hfull|Hless].
    + assert (Hd2 : d2 = 54).
      { apply digits2_pos_unique. rewrite Hfull. split; [reflexivity|].
        apply Z.pow_lt_mono_r; lia. }
      replace (fexp64 (d2 + e') - e') with 1 by lia.
      cbn [shr SpecFloat.iter_pos].
      assert (Hhalf : shr_1 (Build_shr_record (Zpos p) false false)
                      = Build_shr_record (2 ^ 52) false false).
      { assert (Hp' : p = (2 ^ 53)%positive) by lia. rewrite Hp'. reflexivity. }
      rewrite Hhalf. cbn [shr_m].
      change (2 ^ 52) with (Zpos (2 ^ 52)%positive).
      cbv beta iota.
      assert (Hle : (e' + 1 <=? PyFloat.emax - PyFloat.prec) = true)
        by (apply Z.leb_le; unfold PyFloat.emax, PyFloat.prec; lia).
      rewrite Hle. eexists _, _. split; [reflexivity|]. split; [lia|].
      replace (e' + 1 - e') with 1 by lia. rewrite Hfull. reflexivity.
    + assert (Hd2 : d2 <= 53).
      { pose proof (digits2_pos_bounds p) as [Hlo _]. fold d2 in Hlo.
        assert (H2 : 2 ^ (d2 - 1) < 2 ^ 53) by lia.
        apply pow2_lt_exp in H2; lia. }
      destruct (fexp64 (d2 + e') - e') as [|j|j] eqn:Hj; try lia; cbn [shr shr_m];
        (assert (Hle : (e' <=? PyFloat.emax - PyFloat.prec) = true)
           by (apply Z.leb_le; unfold PyFloat.emax, PyFloat.prec; lia));
        rewrite Hle; eexists _, _; (split; [reflexivity|]); (split; [lia|]);
        rewrite Z.sub_diag; simpl (2 ^ 0); lia.
Qed.

(** Truncating a rounded value with a fraction part gives the integer part
    of the exact value, or the next integer when rounding reaches it. *)
Lemma py_int_round_aux mx ex :
  let e' := fexp64 (Zpos (digits2_pos mx) + ex) in
  ex < e' -> e' <= 0 ->
  exists ms,
    PyFloat.py_int (binary_round_aux PyFloat.prec PyFloat.emax false (Zpos mx) ex loc_Exact)
    = Ok ms /\
    Zpos mx / 2 ^ (- ex) <= ms <= Zpos mx / 2 ^ (- ex) + 1.
Proof.
  intros e' Hlt Hle.
  destruct (binary_round_aux_bracket mx ex Hlt ltac:(fold e'; lia)) as (Y & HY & Hres).
  fold e' in HY, Hres.
  set (q := Zpos mx / 2 ^ (e' - ex)) in *.
  set (D := 2 ^ (- e')).
  assert (HD : 0 < D) by (apply Z.pow_pos_nonneg; lia).
  assert (Hk : 0 < 2 ^ (e' - ex)) by (apply Z.pow_pos_nonneg; lia).
  assert (Hq0 : 0 <= q) by (apply Z.div_pos; lia).
  assert (HN : Zpos mx / 2 ^ (- ex) = q / D).
  { unfold q, D. rewrite Z.div_div by lia. rewrite <- Z.pow_add_r by lia.
    f_equal. f_equal. lia. }
  rewrite HN.
  assert (Hbr : q / D <= Y / D <= q / D + 1).
  { split.
    - apply Z.div_le_mono; lia.
    - replace (q / D + 1) with ((q + 1 * D) / D) by (rewrite Z.div_add by lia; reflexivity).
      apply Z.div_le_mono; lia. }
  exists (Y / D). split; [|exact Hbr].
  destruct Hres as [[-> ->]|(m & e & -> & He & Hm)].
  - reflexivity.
  - unfold PyFloat.py_int. cbn [cond_Zopp]. f_equal. rewrite <- Hm. unfold D.
    destruct (Z.leb_spec 0 e) as [H0|H0].
    + replace (e - e') with (e + - e') by lia.
      rewrite Z.pow_add_r, Z.mul_assoc, Z.div_mul by (try apply Z.pow_nonzero; lia).
      reflexivity.
    + replace (2 ^ (- e')) with (2 ^ (- e) * 2 ^ (e - e'))
        by (rewrite <- Z.pow_add_r by lia; f_equal; lia).
      rewrite Z.div_mul_cancel_r; [reflexivity| |]; apply Z.pow_nonzero; lia.
Qed.

Lemma of_Z_1000 :
  PyFloat.of_Z 1000 = S754_finite false (1000 * 2 ^ 43) (-43).
Proof. reflexivity. Qed.

(** [int(f * 1000)] for a fraction [f]. *)
Lemma py_int_fmul_1000 f :
  nonneg_canonical f -> ticks f < unit_ticks ->
  exists ms,
    PyFloat.py_int (PyFloat.fmul f (PyFloat.of_Z 1000)) = Ok ms /\
    ticks f * 1000 / unit_ticks <= ms <= ticks f * 1000 / unit_ticks + 1.
Proof.
  intros [->|(mf & ef & -> & Hb)] Hlt.
  - exists 0. split; [reflexivity|].
    change (ticks (S754_zero false)) with 0. rewrite Z.mul_0_l, Z.div_0_l; [lia|].
    pose proof unit_ticks_pos. lia.
  - pose proof (bounded64_range _ _ Hb) as [He Hm].
    pose proof Hb as [Hc _]%bounded64_spec. rewrite fexp64_spec in Hc.
    rewrite ticks_finite in *. unfold unit_ticks in *.
    pose proof (digits2_pos_bounds mf) as [Hlo Hhi].
    set (df := Zpos (digits2_pos mf)) in *.
    assert (Hdf : df + ef <= 0).
    { assert (Hp : 0 < 2 ^ (ef + 1074)) by (apply Z.pow_pos_nonneg; lia).
      assert (H2 : 2 ^ (df - 1 + (ef + 1074)) < 2 ^ 1074).
      { rewrite Z.pow_add_r by (unfold df; lia). nia. }
      apply pow2_lt_exp in H2; lia. }
    rewrite of_Z_1000. unfold PyFloat.fmul, SFmul. cbn [xorb].
    set (mx := (mf * (1000 * 2 ^ 43))%positive).
    pose proof (digits2_pos_bounds mx) as [Hxlo Hxhi].
    set (dx := Zpos (digits2_pos mx)) in *.
    assert (Hmx : Zpos mx = Zpos mf * (1000 * 2 ^ 43)) by reflexivity.
    assert (Hdx : df + 52 <= dx <= df + 53).
    { assert (H52 : 2 ^ 52 <= 1000 * 2 ^ 43 < 2 ^ 53) by (split; reflexivity || discriminate).
      assert (Hdf1 : 1 <= df) by (unfold df; lia).
      split.
      - assert (H2 : 2 ^ (df - 1 + 52) < 2 ^ dx).
        { rewrite Z.pow_add_r by lia. nia. }
        apply pow2_lt_exp in H2; unfold dx in *; lia.
      - assert (H2 : 2 ^ (dx - 1) < 2 ^ (df + 53)).
        { rewrite Z.pow_add_r by lia. nia. }
        apply pow2_lt_exp in H2; lia. }
    destruct (py_int_round_aux mx (ef + -43)) as (ms & Hms & Hbr).
    + fold dx. rewrite fexp64_spec. lia.
    + fold dx. rewrite fexp64_spec. lia.
    + exists ms. split; [exact Hms|].
      replace (Zpos mf * 2 ^ (ef + 1074) * 1000 / 2 ^ 1074)
        with (Zpos mx / 2 ^ (- (ef + -43))); [exact Hbr|].
      rewrite Hmx.
      replace (2 ^ (- (ef + -43))) with (2 ^ (- ef) * 2 ^ 43)
        by (rewrite <- Z.pow_add_r by lia; f_equal; lia).
      replace (2 ^ 1074) with (2 ^ (- ef) * 2 ^ (ef + 1074))
        by (rewrite <- Z.pow_add_r by lia; f_equal; lia).
      replace (Zpos mf * (1000 * 2 ^ 43)) with (Zpos mf * 1000 * 2 ^ 43) by lia.
      replace (Zpos mf * 2 ^ (ef + 1074) * 1000)
        with (Zpos mf * 1000 * 2 ^ (ef + 1074)) by lia.
      rewrite !Z.div_mul_cancel_r; try reflexivity; try (apply Z.pow_nonzero; lia); lia.
Qed.

(** ** The fields of a timestamp *)

Lemma py_int_of_ticks q :
  0 <= q < 2 ^ 53 -> PyFloat.py_int (of_ticks (q * unit_ticks)) = Ok q.
Proof.
  intros Hq. pose proof unit_ticks_pos as HU.
  assert (Hqu : 0 <= q * unit_ticks) by nia.
  destruct (of_ticks_good _ (representable_small q Hq) Hqu) as [Hg Ht].
  rewrite (py_int_exact _ Hg), Ht, Z.div_mul by lia. reflexivity.
Qed.

Lemma int_floordiv x n :
  nonneg_canonical x -> 0 < n < 2 ^ 53 -> ticks x < 2 ^ 53 * unit_ticks ->
  (h ← PyFloat.py_floordiv x (PyFloat.of_Z n); PyFloat.py_int h)
  = Ok (ticks x / (n * unit_ticks)).
Proof.
  intros Hx Hn Hlt. pose proof unit_ticks_pos as HU.
  destruct (good_ticks x Hx) as [_ Hx0].
  rewrite py_floordiv_exact by assumption. cbn [mbind outcome_bind].
  apply py_int_of_ticks.
  assert (Hnu : 0 < n * unit_ticks) by nia.
  split; [apply Z.div_pos; lia|].
  apply Z.div_lt_upper_bound; [lia|]. nia.
Qed.

Lemma format_timestamp_ticks x fmt :
  nonneg_canonical x -> ticks x < 2 ^ 53 * unit_ticks ->
  let t := ticks x in
  exists f ms,
    nonneg_canonical f /\ ticks f = t mod unit_ticks /\
    PyFloat.py_int (PyFloat.fmul f (PyFloat.of_Z 1000)) = Ok ms /\
    t mod unit_ticks * 1000 / unit_ticks <= ms <= t mod unit_ticks * 1000 / unit_ticks + 1 /\
    format_timestamp x fmt
    = Ok (format_0d 2 (t / (3600 * unit_ticks)) +:+ ":" +:+
          format_0d 2 (t mod (3600 * unit_ticks) / (60 * unit_ticks)) +:+ ":" +:+
          format_0d 2 (t mod (60 * unit_ticks) / unit_ticks) +:+
          (if decide (fmt = "srt") then "," else ".") +:+
          format_0d 3 ms).
Proof.
  intros Hx Hlt t. pose proof unit_ticks_pos as HU.
  destruct (good_ticks x Hx) as [_ Hx0].
  assert (H3600 : 0 < 3600 < 2 ^ 53) by (split; reflexivity).
  assert (H60 : 0 < 60 < 2 ^ 53) by (split; reflexivity).
  assert (H1 : 0 < 1 < 2 ^ 53) by (split; reflexivity).
  destruct (py_mod_exact x 3600 Hx H3600) as [Hr Hrrep].
  destruct (py_mod_exact x 60 Hx H60) as [Hs Hsrep].
  destruct (py_mod_exact x 1 Hx H1) as [Hf Hfrep].
  rewrite Z.mul_1_l in Hf, Hfrep. fold t in Hr, Hrrep, Hs, Hsrep, Hf, Hfrep.
  pose proof (Z.mod_pos_bound t (3600 * unit_ticks) ltac:(lia)) as [Hr0 Hr1].
  pose proof (Z.mod_pos_bound t (60 * unit_ticks) ltac:(lia)) as [Hs0 Hs1].
  pose proof (Z.mod_pos_bound t unit_ticks ltac:(lia)) as [Hf0 Hf1].
  destruct (of_ticks_good _ Hrrep Hr0) as [Hgr Htr].
  destruct (of_ticks_good _ Hsrep Hs0) as [Hgs Hts].
  destruct (of_ticks_good _ Hfrep Hf0) as [Hgf Htf].
  destruct (py_int_fmul_1000 _ Hgf ltac:(rewrite Htf; exact Hf1)) as (ms & Hms & Hbr).
  rewrite Htf in Hbr.
  exists (of_ticks (t mod unit_ticks)), ms.
  split; [exact Hgf|]. split; [exact Htf|]. split; [exact Hms|]. split; [exact Hbr|].
  unfold format_timestamp.
  pose proof (int_floordiv x 3600 Hx H3600 Hlt) as Hh. fold t in Hh.
  destruct (PyFloat.py_floordiv x (PyFloat.of_Z 3600)) as [h|e] eqn:Hhd;
    cbn [mbind outcome_bind] in Hh |- *; [|discriminate].
  rewrite Hh. cbn [mbind outcome_bind].
  rewrite Hr. cbn [mbind outcome_bind].
  pose proof (int_floordiv _ 60 Hgr H60 ltac:(rewrite Htr; nia)) as Hm.
  rewrite Htr in Hm.
  destruct (PyFloat.py_floordiv (of_ticks (t mod (3600 * unit_ticks))) (PyFloat.of_Z 60))
    as [m|e] eqn:Hmd; cbn [mbind outcome_bind] in Hm |- *; [|discriminate].
  rewrite Hm. cbn [mbind outcome_bind].
  rewrite Hs. cbn [mbind outcome_bind].
  rewrite (py_int_exact _ Hgs), Hts. cbn [mbind outcome_bind].
  rewrite Hf. cbn [mbind outcome_bind].
  rewrite Hms. cbn [mbind outcome_bind].
  case_decide; reflexivity.
Qed.

(** ** The fields as rational numbers *)

Lemma unit_ticks_pos_eq : unit_ticks = Zpos unit_pos.
Proof. vm_compute. reflexivity. Qed.

Lemma Qpower_unit : (2 ^ (-1074) = 1 # unit_pos)%Q.
Proof. vm_compute. reflexivity. Qed.

Lemma Qmake_scaled a b u : (inject_Z a * (inject_Z b * (1 # u)) == a * b # u)%Q.
Proof. unfold Qeq, Qmult, inject_Z. cbn [Qnum Qden]. lia. Qed.

Lemma value_ticks x : nonneg_canonical x -> (float_value x == ticks x # unit_pos)%Q.
Proof.
  intros [->|(m & e & -> & Hb)].
  - reflexivity.
  - pose proof (bounded64_range _ _ Hb) as [He _].
    rewrite ticks_finite. cbn [float_value cond_Zopp].
    replace e with ((e + 1074) + (-1074)) at 1 by lia.
    rewrite Qpower_plus by discriminate.
    rewrite Qpower_unit.
    change 2%Q with (inject_Z 2). rewrite <- Zpower_Qpower by lia.
    apply Qmake_scaled.
Qed.

Lemma Qfloor_ticks w t u : (w == t # u)%Q -> Qfloor w = t / Zpos u.
Proof. intros ->. reflexivity. Qed.

Lemma Qfloor_div w t u p :
  (w == t # u)%Q -> Qfloor (w / inject_Z (Zpos p)) = t / (Zpos p * Zpos u).
Proof.
  intros ->. unfold Qdiv, Qinv, Qmult, inject_Z, Qfloor. cbn [Qnum Qden].
  rewrite Z.mul_1_r, Pos2Z.inj_mul. f_equal. lia.
Qed.

Lemma Qfloor_mul w t u k :
  (w == t # u)%Q -> Qfloor (w * inject_Z k) = t * k / Zpos u.
Proof.
  intros ->. unfold Qmult, inject_Z, Qfloor. cbn [Qnum Qden].
  rewrite Pos.mul_1_r. reflexivity.
Qed.

Lemma Qmod_ticks w t u p :
  (w == t # u)%Q -> (Qmod w (inject_Z (Zpos p)) == t mod (Zpos p * Zpos u) # u)%Q.
Proof.
  intros Hw. unfold Qmod. rewrite (Qfloor_div w t u p Hw), Hw.
  pose proof (Z.div_mod t (Zpos p * Zpos u) ltac:(lia)) as Hdm.
  set (q := t / (Zpos p * Zpos u)) in *. set (r := t mod (Zpos p * Zpos u)) in *.
  unfold Qeq, Qminus, Qplus, Qopp, Qmult, inject_Z. cbn [Qnum Qden].
  rewrite !Pos2Z.inj_mul. nia.
Qed.

Lemma nonneg_finite_good x : nonneg_finite x = true <-> nonneg_canonical x.
Proof.
  split.
  - destruct x as [[|]|[|]| |[|] m e]; try discriminate; intros H.
    + left. reflexivity.
    + right. eauto.
  - intros [->|(m & e & -> & Hb)]; [reflexivity|exact Hb].
Qed.

Lemma value_below x n :
  nonneg_canonical x -> (float_value x < inject_Z n)%Q -> ticks x < n * unit_ticks.
Proof.
  intros Hx Hlt. rewrite (value_ticks x Hx) in Hlt.
  unfold Qlt, inject_Z in Hlt. cbn [Qnum Qden] in Hlt.
  rewrite unit_ticks_pos_eq. lia.
Qed.

(** C4, as stated, fails.  At the float nearest to 0.009 the text shows 9
    milliseconds, while [(seconds mod 1) * 1000] rounded down is 8.  At
    [-1e-20] it shows 60 minutes, 60 seconds and 1000 milliseconds, while
    [floor((seconds mod 3600) / 60)] is 59; and at [1e23] the hours shown
    are not [floor(seconds / 3600)]. *)
Lemma format_timestamp_not_the_exact_floors :
  format_timestamp (PyFloat.of_scaled false 9 (-3)) "srt" = Ok "00:00:00,009" /\
  Qfloor (Qmod (float_value (PyFloat.of_scaled false 9 (-3))) 1 * 1000) = 8 /\
  format_timestamp (PyFloat.of_scaled true 1 (-20)) "srt" = Ok "-1:60:60,1000" /\
  Qfloor (Qmod (float_value (PyFloat.of_scaled true 1 (-20))) 3600 / 60) = 59 /\
  format_timestamp (PyFloat.of_scaled false 1 23) "srt"
  = Ok "27777777777777774592:36:32,000" /\
  Qfloor (float_value (PyFloat.of_scaled false 1 23) / 3600) = 27777777777777775447.
Proof. repeat split; vm_compute; reflexivity. Qed.

(** C4 (amended): the fields of a timestamp.  For a non-negative finite
    number of seconds below [2^53], [format_timestamp] returns the text
    made of
    hours = floor(seconds / 3600), minutes = floor((seconds mod 3600) / 60)
    and secs = floor(seconds mod 60), all three taken on the exact value of
    the float, and of millis, the integer part of the binary64 product of
    the exact fraction [seconds mod 1] by 1000; that integer is the integer
    part of the exact product, or the next integer when the product rounds
    up to it.  The fields are padded with zeros to two, two, two and three
    digits and separated by colons, with a comma before the milliseconds
    for srt and a point otherwise.  The float nearest to 3725.4321 is
    rendered 01:02:05,432 for srt and 01:02:05.432 for vtt. *)
Theorem format_timestamp_fields :
  (forall (seconds : PyFloat.float) (fmt : string),
     nonneg_finite seconds = true ->
     (float_value seconds < inject_Z (2 ^ 53))%Q ->
     let v := float_value seconds in
     exists fraction millis,
       nonneg_finite fraction = true /\
       (float_value fraction == Qmod v 1)%Q /\
       PyFloat.py_int (PyFloat.fmul fraction (PyFloat.of_Z 1000)) = Ok millis /\
       Qfloor (Qmod v 1 * 1000) <= millis <= Qfloor (Qmod v 1 * 1000) + 1 /\
       format_timestamp seconds fmt
       = Ok (format_0d 2 (Qfloor (v / 3600)) +:+ ":" +:+
             format_0d 2 (Qfloor (Qmod v 3600 / 60)) +:+ ":" +:+
             format_0d 2 (Qfloor (Qmod v 60)) +:+
             (if decide (fmt = "srt") then "," else ".") +:+
             format_0d 3 millis)) /\
  format_timestamp (PyFloat.of_scaled false 37254321 (-4)) "srt" = Ok "01:02:05,432" /\
  format_timestamp (PyFloat.of_scaled false 37254321 (-4)) "vtt" = Ok "01:02:05.432".
Proof.
  split; [|split; vm_compute; reflexivity].
  intros seconds fmt Hx%nonneg_finite_good Hlt v.
  pose proof (value_below _ _ Hx Hlt) as Ht.
  pose proof (value_ticks _ Hx) as Hv. fold v in Hv.
  destruct (format_timestamp_ticks seconds fmt Hx Ht) as (f & ms & Hf & Htf & Hms & Hbr & Hfmt).
  cbv zeta in Hfmt.
  set (t := ticks seconds) in *.
  assert (Hfrac : (Qmod v 1 == t mod unit_ticks # unit_pos)%Q).
  { change 1%Q with (inject_Z (Zpos 1)). rewrite (Qmod_ticks v t unit_pos 1 Hv).
    rewrite unit_ticks_pos_eq. replace (Zpos 1 * Zpos unit_pos) with (Zpos unit_pos) by lia.
    reflexivity. }
  exists f, ms.
  split; [apply nonneg_finite_good; exact Hf|].
  split; [rewrite (value_ticks f Hf), Htf, Hfrac; reflexivity|].
  split; [exact Hms|].
  change 1000%Q with (inject_Z 1000).
  rewrite (Qfloor_mul _ _ _ 1000 Hfrac), <- unit_ticks_pos_eq.
  split; [exact Hbr|].
  rewrite Hfmt. do 2 f_equal.
  - f_equal. change 3600%Q with (inject_Z (Zpos 3600)).
    rewrite (Qfloor_div v t unit_pos 3600 Hv), unit_ticks_pos_eq. reflexivity.
  - f_equal. f_equal.
    + f_equal. change 60%Q with (inject_Z (Zpos 60)).
      change 3600%Q with (inject_Z (Zpos 3600)).
      rewrite (Qfloor_div _ _ unit_pos 60 (Qmod_ticks v t unit_pos 3600 Hv)).
      rewrite unit_ticks_pos_eq. reflexivity.
    + f_equal. f_equal. f_equal. change 60%Q with (inject_Z (Zpos 60)).
      rewrite (Qfloor_ticks _ _ unit_pos (Qmod_ticks v t unit_pos 60 Hv)).
      rewrite unit_ticks_pos_eq. reflexivity.
Qed.

Lemma format_timestamp_fields_witness :
  let seconds := PyFloat.of_scaled false 37254321 (-4) in
  let v := float_value seconds in
  Qfloor (v / 3600) = 1 /\ Qfloor (Qmod v 3600 / 60) = 2 /\ Qfloor (Qmod v 60) = 5 /\
  Qfloor (Qmod v 1 * 1000) = 432 /\
  format_0d 2 1 = "01" /\ format_0d 2 2 = "02" /\ format_0d 2 5 = "05" /\
  format_0d 3 432 = "432" /\ format_0d 3 9 = "009" /\
  exists fraction millis,
    nonneg_finite fraction = true /\
    (float_value fraction == Qmod v 1)%Q /\
    PyFloat.py_int (PyFloat.fmul fraction (PyFloat.of_Z 1000)) = Ok millis /\
    Qfloor (Qmod v 1 * 1000) <= millis <= Qfloor (Qmod v 1 * 1000) + 1 /\
    format_timestamp seconds "srt"
    = Ok (format_0d 2 (Qfloor (v / 3600)) +:+ ":" +:+
          format_0d 2 (Qfloor (Qmod v 3600 / 60)) +:+ ":" +:+
          format_0d 2 (Qfloor (Qmod v 60)) +:+ "," +:+ format_0d 3 millis).
Proof.
  intros seconds v.
  split; [vm_compute; reflexivity|]. split; [vm_compute; reflexivity|].
  split; [vm_compute; reflexivity|]. split; [vm_compute; reflexivity|].
  do 5 (split; [vm_compute; reflexivity|]).
  apply (proj1 format_timestamp_fields seconds "srt").
  - vm_compute. reflexivity.
  - vm_compute. reflexivity.
Defined.

(** * Further properties of the program *)

(** ** Rounding as a function of the value *)

Lemma rep_scale A B c : 0 < B -> 0 < c -> rep (A * c) (B * c) = rep A B.
Proof.
  intros HB Hc. unfold rep.
  rewrite Z.div_mul_cancel_r by lia.
  rewrite Z.mul_mod_distr_r by lia.
  pose proof (Z.mod_pos_bound A B HB) as HR.
  set (R := A mod B) in *. f_equal.
  - destruct (Z.leb_spec (B * c) (2 * (R * c))), (Z.leb_spec B (2 * R)); try reflexivity; nia.
  - f_equal.
    + f_equal. destruct (Z.eqb_spec (R * c) 0), (Z.eqb_spec R 0); try reflexivity; nia.
    + f_equal. destruct (Z.eqb_spec (2 * (R * c)) (B * c)), (Z.eqb_spec (2 * R) B);
        try reflexivity; nia.
Qed.

Lemma rep_ratio A B A' B' :
  0 < B -> 0 < B' -> A * B' = A' * B -> rep A B = rep A' B'.
Proof.
  intros HB HB' Heq.
  rewrite <- (rep_scale A B B' HB HB'), <- (rep_scale A' B' B HB' HB), Heq.
  f_equal. lia.
Qed.

Lemma shr_1_rep A B : 0 <= A -> 0 < B -> shr_1 (rep A B) = rep A (2 * B).
Proof.
  intros HA HB. unfold rep.
  pose proof (Z.div_mod A B ltac:(lia)) as Hdm.
  pose proof (Z.mod_pos_bound A B HB) as HR.
  assert (Hq0 : 0 <= A / B) by (apply Z.div_pos; lia).
  set (q := A / B) in *. set (R := A mod B) in *.
  pose proof (Z.div_mod q 2 ltac:(lia)) as Hq.
  pose proof (Z.mod_pos_bound q 2 ltac:(lia)) as Hb.
  set (h := q / 2) in *. set (b := q mod 2) in *.
  assert (Hdiv : A / (2 * B) = h).
  { symmetry. apply (Z.div_unique A (2 * B) h (b * B + R)); [left; nia|nia]. }
  assert (Hmod : A mod (2 * B) = b * B + R).
  { symmetry. apply (Z.mod_unique A (2 * B) h (b * B + R)); [left; nia|nia]. }
  rewrite Hdiv, Hmod.
  assert (Hs : (B <=? 2 * R) || (negb (R =? 0) && negb (2 * R =? B))
               = negb (b * B + R =? 0) && negb (2 * (b * B + R) =? 2 * B)).
  { assert (Hb01 : b = 0 \/ b = 1) by lia.
    destruct Hb01 as [Hb0|Hb1]; [rewrite Hb0|rewrite Hb1];
      destruct (Z.leb_spec B (2 * R)), (Z.eqb_spec R 0), (Z.eqb_spec (2 * R) B);
      cbn [orb andb negb];
      match goal with
      | |- context [?a + R =? 0] => destruct (Z.eqb_spec (a + R) 0)
      end;
      match goal with
      | |- context [2 * (?a + R) =? 2 * B] => destruct (Z.eqb_spec (2 * (a + R)) (2 * B))
      end; try reflexivity; lia. }
  destruct q as [|[p|p|]|p]; try lia; cbn [shr_1]; rewrite Hs.
  - assert (b = 0 /\ h = 0) as [-> ->] by lia. f_equal.
    destruct (Z.leb_spec (2 * B) (2 * (0 * B + R))); [nia|reflexivity].
  - assert (b = 1 /\ h = Zpos p) as [-> ->] by lia. f_equal.
    destruct (Z.leb_spec (2 * B) (2 * (1 * B + R))); [reflexivity|nia].
  - assert (b = 0 /\ h = Zpos p) as [-> ->] by lia. f_equal.
    destruct (Z.leb_spec (2 * B) (2 * (0 * B + R))); [nia|reflexivity].
  - assert (b = 1 /\ h = 0) as [-> ->] by lia. f_equal.
    destruct (Z.leb_spec (2 * B) (2 * (1 * B + R))); [reflexivity|nia].
Qed.

Lemma iter_shr_rep k :
  forall A B, 0 <= A -> 0 < B ->
    SpecFloat.iter_pos shr_1 k (rep A B) = rep A (B * 2 ^ Zpos k).
Proof.
  induction k as [k IH|k IH|]; intros A B HA HB; cbn [SpecFloat.iter_pos].
  - assert (Hp : 0 < 2 ^ Zpos k) by (apply Z.pow_pos_nonneg; lia).
    rewrite shr_1_rep, IH, IH by nia. f_equal.
    replace (Zpos k~1) with (1 + Zpos k + Zpos k) by lia.
    rewrite !Z.pow_add_r by lia. change (2 ^ 1) with 2. lia.
  - assert (Hp : 0 < 2 ^ Zpos k) by (apply Z.pow_pos_nonneg; lia).
    rewrite IH, IH by nia. f_equal.
    replace (Zpos k~0) with (Zpos k + Zpos k) by lia.
    rewrite Z.pow_add_r by lia. lia.
  - rewrite shr_1_rep by lia. f_equal. change (2 ^ 1) with 2. lia.
Qed.

Lemma rep_exact m : shr_record_of_loc m loc_Exact = rep m 1.
Proof.
  unfold rep. rewrite Z.div_1_r, Z.mod_1_r. reflexivity.
Qed.

Lemma rep_location A B :
  0 <= A -> 0 < B ->
  shr_record_of_loc (A / B) (new_location B (A mod B)) = rep A B.
Proof.
  intros HA HB. unfold rep.
  pose proof (Z.mod_pos_bound A B HB) as HR. set (R := A mod B) in *.
  unfold new_location, new_location_even, new_location_odd.
  destruct (Z.even B) eqn:Heven.
  - destruct (Z.eqb_spec R 0) as [->|Hne]; cbn [negb andb].
    + cbn [shr_record_of_loc]. f_equal.
      destruct (Z.leb_spec B (2 * 0)); [lia|reflexivity].
    + destruct (Z.compare_spec (2 * R) B) as [Hc|Hc|Hc]; cbn [shr_record_of_loc]; f_equal;
        try (destruct (Z.leb_spec B (2 * R)); (reflexivity || lia));
        destruct (Z.eqb_spec (2 * R) B); (reflexivity || lia).
  - assert (Hodd : 2 * R <> B).
    { intros Heq. rewrite <- Heq, Z.even_mul in Heven. discriminate. }
    destruct (Z.eqb_spec R 0) as [->|Hne]; cbn [negb andb].
    + cbn [shr_record_of_loc]. f_equal.
      destruct (Z.leb_spec B (2 * 0)); [lia|reflexivity].
    + destruct (Z.eqb_spec (2 * R) B) as [|_]; [contradiction|].
      destruct (Z.compare_spec (2 * R + 1) B) as [Hc|Hc|Hc]; cbn [shr_record_of_loc];
        f_equal; destruct (Z.leb_spec B (2 * R)); (reflexivity || lia).
Qed.

Lemma binary_round_aux_finish s m e l :
  binary_round_aux PyFloat.prec PyFloat.emax s m e l
  = let '(mrs', e') := shr_fexp PyFloat.prec PyFloat.emax m e l in finish s mrs' e'.
Proof. reflexivity. Qed.

Lemma shr_fexp_rep A B e l :
  0 <= A -> 0 < B -> shr_record_of_loc (A / B) l = rep A B ->
  e <= fexp64 (Zdigits2 (A / B) + e) ->
  shr_fexp PyFloat.prec PyFloat.emax (A / B) e l
  = (rep A (B * 2 ^ (fexp64 (Zdigits2 (A / B) + e) - e)),
     fexp64 (Zdigits2 (A / B) + e)).
Proof.
  intros HA HB Hl He. unfold shr_fexp, shr. rewrite Hl.
  set (E := fexp64 (Zdigits2 (A / B) + e)) in *.
  destruct (E - e) as [|k|k] eqn:Hk; try lia.
  - change (2 ^ 0) with 1. rewrite Z.mul_1_r. f_equal. lia.
  - rewrite iter_shr_rep by lia. f_equal. lia.
Qed.

Lemma Zdigits2_bounds q : 0 < q -> 2 ^ (Zdigits2 q - 1) <= q < 2 ^ Zdigits2 q.
Proof. destruct q as [|p|p]; try lia. intros _. apply digits2_pos_bounds. Qed.

Lemma Zdigits2_unique q d : 2 ^ (d - 1) <= q < 2 ^ d -> 0 < q -> Zdigits2 q = d.
Proof. destruct q as [|p|p]; try lia. intros H _. apply digits2_pos_unique. exact H. Qed.

Lemma Zdigits2_nonneg q : 0 <= Zdigits2 q.
Proof. destruct q; simpl; lia. Qed.

Lemma Zdigits2_pos q : 0 < q -> 1 <= Zdigits2 q.
Proof. destruct q; simpl; lia. Qed.

Lemma Zdigits2_shift q k :
  0 <= k -> 1 <= q / 2 ^ k -> Zdigits2 (q / 2 ^ k) = Zdigits2 q - k.
Proof.
  intros Hk H1.
  assert (Hp : 0 < 2 ^ k) by (apply Z.pow_pos_nonneg; lia).
  assert (Hq : 2 ^ k <= q).
  { destruct (Z_lt_le_dec q (2 ^ k)) as [Hlt|]; [|assumption].
    destruct (Z_lt_le_dec q 0) as [Hneg|Hnn].
    - assert (q / 2 ^ k < 0) by (apply Z.div_lt_upper_bound; lia). lia.
    - rewrite Z.div_small in H1 by lia. lia. }
  pose proof (Zdigits2_bounds q ltac:(lia)) as [Hlo Hhi].
  set (d := Zdigits2 q) in *.
  assert (Hdk : k < d).
  { assert (H2 : 2 ^ k < 2 ^ d) by lia. apply pow2_lt_exp in H2; [lia|].
    unfold d. apply Zdigits2_nonneg. }
  apply Zdigits2_unique; [|lia]. split.
  - apply Z.div_le_lower_bound; [lia|].
    rewrite <- Z.pow_add_r by lia. replace (k + (d - k - 1)) with (d - 1) by lia. exact Hlo.
  - apply Z.div_lt_upper_bound; [lia|].
    rewrite <- Z.pow_add_r by lia. replace (k + (d - k)) with d by lia. exact Hhi.
Qed.

Lemma div_ratio A B A' B' : 0 < B -> 0 < B' -> A * B' = A' * B -> A / B = A' / B'.
Proof.
  intros HB HB' Heq.
  rewrite <- (Z.div_mul_cancel_r A B B'), <- (Z.div_mul_cancel_r A' B' B) by lia.
  rewrite Heq. f_equal. lia.
Qed.

(** Rounding depends on the value only, not on the exponent at which it is
    given. *)
Lemma round_same_value s A1 B1 e1 l1 A2 B2 e2 l2 :
  0 <= A1 -> 0 < B1 -> 0 <= A2 -> 0 < B2 ->
  shr_record_of_loc (A1 / B1) l1 = rep A1 B1 ->
  shr_record_of_loc (A2 / B2) l2 = rep A2 B2 ->
  e1 <= fexp64 (Zdigits2 (A1 / B1) + e1) ->
  e2 <= fexp64 (Zdigits2 (A2 / B2) + e2) ->
  e1 <= e2 -> A1 * B2 = A2 * B1 * 2 ^ (e2 - e1) ->
  binary_round_aux PyFloat.prec PyFloat.emax s (A1 / B1) e1 l1
  = binary_round_aux PyFloat.prec PyFloat.emax s (A2 / B2) e2 l2.
Proof.
  intros HA1 HB1 HA2 HB2 Hl1 Hl2 He1 He2 Hle Heq.
  rewrite !binary_round_aux_finish.
  rewrite (shr_fexp_rep A1 B1 e1 l1), (shr_fexp_rep A2 B2 e2 l2) by assumption.
  set (d := e2 - e1) in *.
  assert (Hp : 0 < 2 ^ d) by (apply Z.pow_pos_nonneg; lia).
  assert (Hq : A2 / B2 = A1 / B1 / 2 ^ d).
  { rewrite Z.div_div by lia. apply div_ratio; nia. }
  assert (HE : fexp64 (Zdigits2 (A1 / B1) + e1) = fexp64 (Zdigits2 (A2 / B2) + e2)).
  { assert (Hq2 : 0 <= A2 / B2) by (apply Z.div_pos; lia).
    assert (Hq1 : 0 <= A1 / B1) by (apply Z.div_pos; lia).
    destruct (Z.eq_dec (A2 / B2) 0) as [Hz|Hnz].
    - rewrite Hz in *. cbn [Zdigits2] in *. rewrite fexp64_spec in He2.
      rewrite !fexp64_spec.
      assert (Hd1 : Zdigits2 (A1 / B1) <= d).
      { destruct (Z.eq_dec (A1 / B1) 0) as [->|Hn1]; [simpl; lia|].
        pose proof (Zdigits2_bounds (A1 / B1) ltac:(lia)) as [Hlo _].
        assert (Hlt : A1 / B1 < 2 ^ d).
        { destruct (Z_lt_le_dec (A1 / B1) (2 ^ d)) as [|Hge]; [assumption|].
          assert (1 <= A1 / B1 / 2 ^ d) by (apply Z.div_le_lower_bound; lia). lia. }
        assert (H2 : 2 ^ (Zdigits2 (A1 / B1) - 1) < 2 ^ d) by lia.
        apply pow2_lt_exp in H2; lia. }
      lia.
    - rewrite Hq. rewrite Zdigits2_shift by (rewrite <- ?Hq; lia). f_equal. lia. }
  rewrite HE. set (E := fexp64 (Zdigits2 (A2 / B2) + e2)) in *.
  assert (Hrep : rep A1 (B1 * 2 ^ (E - e1)) = rep A2 (B2 * 2 ^ (E - e2))).
  { assert (Hp2 : 0 < 2 ^ (E - e2)) by (apply Z.pow_pos_nonneg; lia).
    apply rep_ratio; try nia.
    replace (E - e1) with (d + (E - e2)) by lia.
    rewrite Z.pow_add_r by lia. nia. }
  rewrite Hrep. reflexivity.
Qed.

Lemma shiftl_pow2 a s : 0 <= s ->
  match s with
  | Zpos _ => Z.shiftl a s
  | Z0 => a
  | Zneg _ => 0
  end = a * 2 ^ s.
Proof.
  intros Hs. destruct s as [|p|p]; [| |lia].
  - change (2 ^ 0) with 1. lia.
  - apply Z.shiftl_mul_pow2. lia.
Qed.

Lemma div_core_spec a b :
  0 < a -> 0 < b ->
  let e := Z.min (fexp64 (Zdigits2 a - Zdigits2 b)) 0 in
  let A := a * 2 ^ (- e) in
  SFdiv_core_binary PyFloat.prec PyFloat.emax a 0 b 0
  = (A / b, e, new_location b (A mod b)) /\
  e <= fexp64 (Zdigits2 (A / b) + e).
Proof.
  intros Ha Hb e A.
  assert (He : e <= 0) by (unfold e; lia).
  split.
  - unfold SFdiv_core_binary. rewrite !Z.add_0_r. change (0 - 0) with 0.
    change (Z.min (fexp64 (Zdigits2 a - Zdigits2 b)) 0) with e.
    rewrite (Z.sub_0_l e), (shiftl_pow2 a (- e)) by lia. fold A.
    unfold Z.div, Z.modulo. destruct (Z.div_eucl A b) as [q r]. reflexivity.
  - pose proof (Zdigits2_bounds a Ha) as [Halo Hahi].
    pose proof (Zdigits2_bounds b Hb) as [Hblo Hbhi].
    pose proof (Zdigits2_pos a Ha) as Hda. pose proof (Zdigits2_pos b Hb) as Hdb.
    set (da := Zdigits2 a) in *. set (db := Zdigits2 b) in *.
    assert (HF : fexp64 (da - db) = Z.max (da - db - 53) (-1074)) by apply fexp64_spec.
    assert (Hp : 0 < 2 ^ (- e)) by (apply Z.pow_pos_nonneg; lia).
    assert (HA : 0 < A) by (unfold A; nia).
    assert (Hq0 : 0 <= A / b) by (apply Z.div_pos; lia).
    rewrite fexp64_spec.
    destruct (Z.eq_dec (A / b) 0) as [Hz|Hnz].
    + rewrite Hz. cbn [Zdigits2].
      assert (HAb : A < b).
      { destruct (Z_lt_le_dec A b) as [|Hge]; [assumption|].
        assert (1 <= A / b) by (apply Z.div_le_lower_bound; lia). lia. }
      assert (H2 : 2 ^ (da - 1 + - e) < 2 ^ db).
      { rewrite Z.pow_add_r by lia. unfold A in HAb. nia. }
      apply pow2_lt_exp in H2; [|lia]. unfold e in *. lia.
    + pose proof (Zdigits2_bounds (A / b) ltac:(lia)) as [_ Hqhi].
      set (dq := Zdigits2 (A / b)) in *.
      assert (Hdq : 1 <= dq) by (apply Zdigits2_pos; lia).
      assert (Hlow : da - e - db <= dq).
      { destruct (Z_lt_le_dec (da - e - db) 1) as [|Hbig]; [lia|].
        assert (Hge : 2 ^ (da - e - db - 1) <= A / b).
        { apply Z.div_le_lower_bound; [lia|].
          assert (Hb' : b * 2 ^ (da - e - db - 1) <= 2 ^ db * 2 ^ (da - e - db - 1)).
          { apply Z.mul_le_mono_nonneg_r; [apply Z.pow_nonneg|]; lia. }
          rewrite <- Z.pow_add_r in Hb' by lia.
          replace (db + (da - e - db - 1)) with (da - 1 + - e) in Hb' by lia.
          rewrite Z.pow_add_r in Hb' by lia. unfold A. nia. }
        assert (H2 : 2 ^ (da - e - db - 1) < 2 ^ dq) by lia.
        apply pow2_lt_exp in H2; lia. }
      unfold e in *. lia.
Qed.

Lemma loc_of_rep m r s :
  shr_record_of_loc m (loc_of_shr_record (Build_shr_record m r s))
  = Build_shr_record m r s.
Proof. destruct r, s; reflexivity. Qed.

(** Any way of giving the value to the rounding function leads to the
    float of [round_ratio]. *)
Lemma round_ratio_rep s a b A B e l :
  0 < a -> 0 < b -> 0 <= A -> 0 < B ->
  shr_record_of_loc (A / B) l = rep A B ->
  e <= fexp64 (Zdigits2 (A / B) + e) ->
  A * b * 2 ^ Z.max e 0 = a * B * 2 ^ Z.max (- e) 0 ->
  binary_round_aux PyFloat.prec PyFloat.emax s (A / B) e l = round_ratio s a b.
Proof.
  intros Ha Hb HA HB Hl He Hv.
  destruct (div_core_spec a b Ha Hb) as [Hcore He'].
  cbv zeta in Hcore, He'. unfold round_ratio. rewrite Hcore.
  set (e' := Z.min (fexp64 (Zdigits2 a - Zdigits2 b)) 0) in *.
  assert (Hneg : e' <= 0) by (unfold e'; lia).
  assert (Hp : 0 < 2 ^ (- e')) by (apply Z.pow_pos_nonneg; lia).
  set (A' := a * 2 ^ (- e')) in *.
  assert (HA' : 0 <= A') by (unfold A'; nia).
  destruct (Z_le_gt_dec e e') as [Hle|Hgt].
  - apply round_same_value; try assumption.
    + apply rep_location; assumption.
    + replace (Z.max e 0) with 0 in Hv by lia.
      replace (Z.max (- e) 0) with (- e) in Hv by lia.
      change (2 ^ 0) with 1 in Hv. unfold A'.
      replace (- e) with (- e' + (e' - e)) in Hv by lia.
      rewrite Z.pow_add_r in Hv by lia. lia.
  - symmetry. apply round_same_value; try assumption.
    + apply rep_location; assumption.
    + lia.
    + unfold A'. destruct (Z_le_gt_dec 0 e) as [Hpos|Hn].
      * replace (Z.max e 0) with e in Hv by lia.
        replace (Z.max (- e) 0) with 0 in Hv by lia.
        change (2 ^ 0) with 1 in Hv.
        replace (e - e') with (e + - e') by lia.
        rewrite Z.pow_add_r by lia. nia.
      * replace (Z.max e 0) with 0 in Hv by lia.
        replace (Z.max (- e) 0) with (- e) in Hv by lia.
        change (2 ^ 0) with 1 in Hv.
        replace (- e') with (- e + (e - e')) by lia.
        rewrite Z.pow_add_r by lia. nia.
Qed.

Lemma round_ratio_scale s a b c :
  0 < a -> 0 < b -> 0 < c -> round_ratio s (a * c) (b * c) = round_ratio s a b.
Proof.
  intros Ha Hb Hc.
  assert (Hac : 0 < a * c) by nia. assert (Hbc : 0 < b * c) by nia.
  destruct (div_core_spec (a * c) (b * c) Hac Hbc) as [Hcore He].
  cbv zeta in Hcore, He. unfold round_ratio at 1. rewrite Hcore.
  set (e := Z.min (fexp64 (Zdigits2 (a * c) - Zdigits2 (b * c))) 0) in *.
  assert (Hneg : e <= 0) by (unfold e; lia).
  assert (Hp : 0 < 2 ^ (- e)) by (apply Z.pow_pos_nonneg; lia).
  apply round_ratio_rep; try assumption.
  - nia.
  - apply rep_location; nia.
  - replace (Z.max e 0) with 0 by lia. replace (Z.max (- e) 0) with (- e) by lia.
    change (2 ^ 0) with 1. lia.
Qed.

Lemma round_ratio_eq s a b a' b' :
  0 < a -> 0 < b -> 0 < a' -> 0 < b' -> a * b' = a' * b ->
  round_ratio s a b = round_ratio s a' b'.
Proof.
  intros Ha Hb Ha' Hb' Heq.
  rewrite <- (round_ratio_scale s a b b'), <- (round_ratio_scale s a' b' b) by assumption.
  rewrite Heq. f_equal. lia.
Qed.

Lemma binary_round_ratio s m :
  binary_round PyFloat.prec PyFloat.emax s m 0 = round_ratio s (Zpos m) 1.
Proof.
  unfold binary_round. rewrite Z.add_0_r.
  set (F := fexp64 (Zpos (digits2_pos m))).
  assert (HF : F = Z.max (Zpos (digits2_pos m) - 53) (-1074)) by apply fexp64_spec.
  destruct (Z_le_gt_dec F 0) as [Hle|Hgt].
  - destruct (shl_align_spec m 0 F Hle) as (mz & -> & Hmz).
    replace (binary_round_aux PyFloat.prec PyFloat.emax s (Zpos mz) F loc_Exact)
      with (binary_round_aux PyFloat.prec PyFloat.emax s (Zpos mz / 1) F loc_Exact)
      by (rewrite Z.div_1_r; reflexivity).
    apply (round_ratio_rep s (Zpos m) 1 (Zpos mz) 1 F loc_Exact); try lia.
    + rewrite Z.div_1_r. apply rep_exact.
    + rewrite Z.div_1_r. cbn [Zdigits2].
      rewrite (digits2_pos_shift m (0 - F) mz) by lia.
      fold F. replace (Zpos (digits2_pos m) + (0 - F) + F) with (Zpos (digits2_pos m)) by lia.
      fold F. lia.
    + replace (Z.max F 0) with 0 by lia. replace (Z.max (- F) 0) with (0 - F) by lia.
      change (2 ^ 0) with 1. lia.
  - rewrite (shl_align_keep m 0 F) by lia.
    replace (binary_round_aux PyFloat.prec PyFloat.emax s (Zpos m) 0 loc_Exact)
      with (binary_round_aux PyFloat.prec PyFloat.emax s (Zpos m / 1) 0 loc_Exact)
      by (rewrite Z.div_1_r; reflexivity).
    apply (round_ratio_rep s (Zpos m) 1 (Zpos m) 1 0 loc_Exact); try lia.
    + rewrite Z.div_1_r. apply rep_exact.
    + rewrite Z.div_1_r. cbn [Zdigits2]. rewrite Z.add_0_r. fold F. lia.
    + reflexivity.
Qed.

(** [float(s)] is the rounding of the decimal as a ratio. *)
Lemma of_scaled_round neg n k :
  0 < n ->
  PyFloat.of_scaled neg n k
  = round_ratio neg (n * 10 ^ Z.max k 0) (10 ^ Z.max (- k) 0).
Proof.
  intros Hn. unfold PyFloat.of_scaled. destruct n as [|n|n]; try lia.
  destruct (Z.leb_spec 0 k) as [Hk|Hk].
  - replace (Z.max k 0) with k by lia. replace (Z.max (- k) 0) with 0 by lia.
    change (10 ^ 0) with 1.
    assert (Hp : 0 < 10 ^ k) by (apply Z.pow_pos_nonneg; lia).
    destruct (Zpos n * 10 ^ k) as [|N|N] eqn:HN; try lia.
    destruct neg; cbn [cond_Zopp binary_normalize Z.opp]; apply binary_round_ratio.
  - replace (Z.max k 0) with 0 by lia. replace (Z.max (- k) 0) with (- k) by lia.
    change (10 ^ 0) with 1. rewrite Z.mul_1_r. reflexivity.
Qed.

(** The value decides: writing the decimal with more zeros changes
    nothing. *)
Lemma of_scaled_zeros neg n k j :
  0 < n -> 0 <= j ->
  PyFloat.of_scaled neg (n * 10 ^ j) (k - j) = PyFloat.of_scaled neg n k.
Proof.
  intros Hn Hj.
  assert (Hpj : 0 < 10 ^ j) by (apply Z.pow_pos_nonneg; lia).
  rewrite !of_scaled_round by nia.
  assert (H1 : 0 < 10 ^ Z.max (k - j) 0) by (apply Z.pow_pos_nonneg; lia).
  assert (H2 : 0 < 10 ^ Z.max (- (k - j)) 0) by (apply Z.pow_pos_nonneg; lia).
  assert (H3 : 0 < 10 ^ Z.max k 0) by (apply Z.pow_pos_nonneg; lia).
  assert (H4 : 0 < 10 ^ Z.max (- k) 0) by (apply Z.pow_pos_nonneg; lia).
  apply round_ratio_eq; try nia.
  rewrite <- !Z.mul_assoc, <- !Z.pow_add_r by lia.
  f_equal. f_equal. lia.
Qed.

Lemma finish_opp s mrs E :
  finish (negb s) mrs E = SFopp (finish s mrs E).
Proof.
  unfold finish. destruct (shr_fexp _ _ _ E loc_Exact) as [mrs'' e''].
  destruct (shr_m mrs'') as [|m|m]; try reflexivity.
  destruct (e'' <=? _); reflexivity.
Qed.

Lemma round_ratio_opp a b :
  round_ratio true a b = SFopp (round_ratio false a b).
Proof.
  unfold round_ratio. destruct (SFdiv_core_binary _ _ a 0 b 0) as [[q e] l].
  rewrite !binary_round_aux_finish. destruct (shr_fexp _ _ q e l) as [mrs' e'].
  apply (finish_opp false).
Qed.

Lemma of_scaled_opp n k :
  0 < n -> PyFloat.of_scaled true n k = SFopp (PyFloat.of_scaled false n k).
Proof. intros Hn. rewrite !of_scaled_round by assumption. apply round_ratio_opp. Qed.

(** ** Rounding to a nearby float *)

Lemma finish_canonical s mrs m e :
  round_nearest_even (shr_m mrs) (loc_of_shr_record mrs) = Zpos m ->
  bounded64 m e = true ->
  finish s mrs e = S754_finite s m e.
Proof.
  intros Hr Hb. pose proof Hb as [Hc Hmax]%bounded64_spec.
  unfold finish. rewrite Hr.
  replace e with (e - 0) at 1 by lia.
  rewrite (shr_fexp_exact m 0 m) by (try assumption; try lia; change (2 ^ 0) with 1; lia).
  cbn [shr_m].
  assert (Hle : (e <=? PyFloat.emax - PyFloat.prec) = true)
    by (apply Z.leb_le; unfold PyFloat.emax, PyFloat.prec; lia).
  rewrite Hle. reflexivity.
Qed.

Lemma finish_carry s mrs E :
  round_nearest_even (shr_m mrs) (loc_of_shr_record mrs) = 2 ^ 53 ->
  -1074 <= E -> E + 1 <= 971 ->
  finish s mrs E = S754_finite s (2 ^ 52) (E + 1).
Proof.
  intros Hr HE Hmax. unfold finish. rewrite Hr.
  change (2 ^ 53) with (Zpos (2 ^ 53)).
  unfold shr_fexp. cbn [Zdigits2 shr_record_of_loc].
  change (Zpos (digits2_pos (2 ^ 53))) with 54.
  rewrite fexp64_spec. replace (Z.max (54 + E - 53) (-1074) - E) with 1 by lia.
  cbn [shr SpecFloat.iter_pos].
  change (shr_1 (Build_shr_record (Zpos (2 ^ 53)) false false))
    with (Build_shr_record (Zpos (2 ^ 52)) false false).
  cbn [shr_m].
  assert (Hle : (E + 1 <=? PyFloat.emax - PyFloat.prec) = true)
    by (apply Z.leb_le; unfold PyFloat.emax, PyFloat.prec; lia).
  rewrite Hle. reflexivity.
Qed.

Lemma fexp64_below_canonical mx ex :
  bounded64 mx ex = true -> ~ (Zpos mx = 2 ^ 52 /\ -1074 < ex) ->
  fexp64 (Zdigits2 (Zpos mx - 1) + ex) = ex.
Proof.
  intros Hb Hnb. pose proof Hb as [Hc _]%bounded64_spec.
  pose proof (bounded64_range _ _ Hb) as [He Hm].
  rewrite fexp64_spec in *.
  pose proof (digits2_pos_bounds mx) as [Hlo Hhi].
  set (d := Zpos (digits2_pos mx)) in *.
  assert (Hd' : Zdigits2 (Zpos mx - 1) <= d).
  { destruct (Z.eq_dec (Zpos mx - 1) 0) as [->|Hne]; [simpl; unfold d; lia|].
    pose proof (Zdigits2_bounds (Zpos mx - 1) ltac:(lia)) as [Hl' _].
    assert (H2 : 2 ^ (Zdigits2 (Zpos mx - 1) - 1) < 2 ^ d) by lia.
    apply pow2_lt_exp in H2; unfold d in *; lia. }
  destruct (Z.eq_dec ex (-1074)) as [->|Hex]; [lia|].
  assert (Hd53 : d = 53) by lia.
  assert (Hne : Zpos mx <> 2 ^ 52) by (intros H; apply Hnb; split; [exact H|lia]).
  rewrite Hd53 in Hlo. change (2 ^ (53 - 1)) with (2 ^ 52) in Hlo.
  rewrite (Zdigits2_unique (Zpos mx - 1) 53); [lia| |lia].
  change (2 ^ (53 - 1)) with (2 ^ 52). lia.
Qed.

Lemma classic_edge (mx : positive) (ex : Z) :
  (Zpos mx = 2 ^ 52 /\ -1074 < ex) \/ ~ (Zpos mx = 2 ^ 52 /\ -1074 < ex).
Proof.
  destruct (Z.eq_dec (Zpos mx) (2 ^ 52)) as [H1|H1]; [|right; tauto].
  destruct (Z_lt_le_dec (-1074) ex) as [H2|H2]; [left; tauto|right; lia].
Qed.

Lemma round_at_exponent s A B e l :
  0 <= A -> 0 < B -> shr_record_of_loc (A / B) l = rep A B ->
  fexp64 (Zdigits2 (A / B) + e) = e ->
  binary_round_aux PyFloat.prec PyFloat.emax s (A / B) e l = finish s (rep A B) e.
Proof.
  intros HA HB Hl He.
  rewrite binary_round_aux_finish, (shr_fexp_rep A B e l) by (try assumption; lia).
  rewrite He, Z.sub_diag. change (2 ^ 0) with 1. rewrite Z.mul_1_r. reflexivity.
Qed.

Lemma pow_balance E :
  -1074 <= E -> unit_ticks * 2 ^ Z.max E 0 = 2 ^ (E + 1074) * 2 ^ Z.max (- E) 0.
Proof.
  intros HE. unfold unit_ticks. rewrite <- !Z.pow_add_r by lia. f_equal. lia.
Qed.

(** The value [a / b] given at the exponent [E]. *)
Lemma round_ratio_at s a b E :
  0 < a -> 0 < b -> -1074 <= E ->
  let A := a * unit_ticks in
  let B := b * 2 ^ (E + 1074) in
  fexp64 (Zdigits2 (A / B) + E) = E ->
  round_ratio s a b = finish s (rep A B) E.
Proof.
  intros Ha Hb HE A B Hf.
  pose proof unit_ticks_pos as HU.
  assert (HP : 0 < 2 ^ (E + 1074)) by (apply Z.pow_pos_nonneg; lia).
  assert (HA : 0 < A) by (unfold A; nia).
  assert (HB : 0 < B) by (unfold B; nia).
  set (l := loc_of_shr_record (rep A B)).
  assert (Hl : shr_record_of_loc (A / B) l = rep A B) by (unfold l, rep; apply loc_of_rep).
  rewrite <- (round_ratio_rep s a b A B E l); try lia; try assumption.
  - apply round_at_exponent; try assumption; lia.
  - pose proof (pow_balance E HE) as Hbal. unfold A, B.
    transitivity (a * b * (unit_ticks * 2 ^ Z.max E 0)); [lia|].
    rewrite Hbal. lia.
Qed.

(** A ratio closer to a float than to its neighbours is rounded to it. *)
Lemma round_ratio_near a b mx ex :
  0 < a -> 0 < b -> bounded64 mx ex = true ->
  let W := 2 ^ (ex + 1074) * b in
  let D := a * unit_ticks - Zpos mx * 2 ^ (ex + 1074) * b in
  - W < 2 * D < W ->
  (Zpos mx = 2 ^ 52 -> -1074 < ex -> - W < 4 * D) ->
  round_ratio false a b = S754_finite false mx ex.
Proof.
  intros Ha Hb Hbd W D Hnear Hedge.
  pose proof (bounded64_range _ _ Hbd) as [He Hm].
  pose proof Hbd as [Hc Hmax]%bounded64_spec.
  pose proof unit_ticks_pos as HU.
  assert (HP : 0 < 2 ^ (ex + 1074)) by (apply Z.pow_pos_nonneg; lia).
  assert (HW : 0 < W) by (unfold W; nia).
  set (A := a * unit_ticks) in *.
  assert (HA : 0 < A) by (unfold A; nia).
  assert (HD : A = Zpos mx * W + D) by (unfold D, W; lia).
  assert (HWB : W = b * 2 ^ (ex + 1074)) by (unfold W; lia).
  destruct (Z_le_gt_dec 0 D) as [Hpos|Hneg].
  - (* at or above the float *)
    assert (Hq : A / W = Zpos mx).
    { symmetry. apply (Z.div_unique A W (Zpos mx) D); [left; lia|lia]. }
    assert (Hr : A mod W = D).
    { symmetry. apply (Z.mod_unique A W (Zpos mx) D); [left; lia|lia]. }
    rewrite (round_ratio_at false a b ex) by
      (try lia; cbv zeta; fold A; rewrite <- HWB, Hq; exact Hc).
    cbv zeta. fold A. rewrite <- HWB.
    apply finish_canonical; [|exact Hbd].
    unfold rep. rewrite Hq, Hr. cbn [shr_m].
    destruct (Z.leb_spec W (2 * D)); [lia|]. cbn [loc_of_shr_record].
    destruct (negb (D =? 0) && negb (2 * D =? W)); reflexivity.
  - destruct (classic_edge mx ex) as [[Hedge1 Hedge2]|Hin].
    + (* just below a power of two *)
      specialize (Hedge Hedge1 Hedge2).
      set (B := b * 2 ^ (ex - 1 + 1074)).
      assert (HP' : 0 < 2 ^ (ex - 1 + 1074)) by (apply Z.pow_pos_nonneg; lia).
      assert (HB : 0 < B) by (unfold B; nia).
      assert (HWB' : W = 2 * B).
      { unfold B. rewrite HWB. replace (ex + 1074) with (1 + (ex - 1 + 1074)) by lia.
        rewrite Z.pow_add_r by lia. change (2 ^ 1) with 2. lia. }
      assert (Hq : A / B = 2 ^ 53 - 1).
      { symmetry. apply (Z.div_unique A B (2 ^ 53 - 1) (D + B)); [left; lia|].
        rewrite HD, Hedge1, HWB'. change (2 ^ 53) with (2 * 2 ^ 52). lia. }
      assert (Hr : A mod B = D + B).
      { symmetry. apply (Z.mod_unique A B (2 ^ 53 - 1) (D + B)); [left; lia|].
        rewrite HD, Hedge1, HWB'. change (2 ^ 53) with (2 * 2 ^ 52). lia. }
      rewrite (round_ratio_at false a b (ex - 1)) by
        (try lia; cbv zeta; fold A; fold B; rewrite Hq; rewrite fexp64_spec;
         change (Zdigits2 (2 ^ 53 - 1)) with 53; lia).
      cbv zeta. fold A. fold B.
      assert (Hmx : mx = (2 ^ 52)%positive) by lia.
      rewrite Hmx. replace ex with (ex - 1 + 1) at 2 by lia.
      apply finish_carry; try lia.
      unfold rep. rewrite Hq, Hr. cbn [shr_m].
      destruct (Z.leb_spec B (2 * (D + B))); [|lia]. cbn [loc_of_shr_record].
      destruct (Z.eqb_spec (D + B) 0); [lia|].
      destruct (Z.eqb_spec (2 * (D + B)) B); [lia|]. reflexivity.
    + (* below the float, in its binade *)
      assert (Hq : A / W = Zpos mx - 1).
      { symmetry. apply (Z.div_unique A W (Zpos mx - 1) (D + W)); [left; lia|lia]. }
      assert (Hr : A mod W = D + W).
      { symmetry. apply (Z.mod_unique A W (Zpos mx - 1) (D + W)); [left; lia|lia]. }
      rewrite (round_ratio_at false a b ex) by
        (try lia; cbv zeta; fold A; rewrite <- HWB, Hq;
         apply fexp64_below_canonical; assumption).
      cbv zeta. fold A. rewrite <- HWB.
      apply finish_canonical; [|exact Hbd].
      unfold rep. rewrite Hq, Hr. cbn [shr_m].
      destruct (Z.leb_spec W (2 * (D + W))); [|lia]. cbn [loc_of_shr_record].
      destruct (Z.eqb_spec (D + W) 0); [lia|].
      destruct (Z.eqb_spec (2 * (D + W)) W); [lia|]. cbn [negb andb round_nearest_even].
      lia.
Qed.

(** ** The digits of [repr] *)

Lemma ratio_of_ticks m e :
  -1074 <= e ->
  let '(num, den) := PyFloat.ratio_of m e in
  0 < num /\ 0 < den /\ num * unit_ticks = Zpos m * 2 ^ (e + 1074) * den.
Proof.
  intros He. unfold PyFloat.ratio_of, unit_ticks.
  destruct (Z.leb_spec 0 e) as [H0|H0].
  - assert (0 < 2 ^ e) by (apply Z.pow_pos_nonneg; lia).
    split; [nia|]. split; [lia|].
    rewrite Z.pow_add_r by lia. lia.
  - assert (0 < 2 ^ (- e)) by (apply Z.pow_pos_nonneg; lia).
    split; [lia|]. split; [lia|].
    rewrite <- Z.mul_assoc, <- Z.pow_add_r by lia. f_equal. f_equal. lia.
Qed.

Lemma decpt_up_low fuel num den :
  forall p, 1 <= p -> den * 10 ^ (p - 1) <= num ->
    let r := PyFloat.decpt_up fuel num den p in
    1 <= r /\ den * 10 ^ (r - 1) <= num.
Proof.
  induction fuel as [|fuel IH]; intros p Hp Hinv; cbn [PyFloat.decpt_up].
  - auto.
  - destruct (Z.ltb_spec num (den * 10 ^ p)) as [Hlt|Hge]; [auto|].
    apply IH; [lia|]. replace (p + 1 - 1) with p by lia. exact Hge.
Qed.

Lemma decpt_down_low fuel num den :
  forall j, 0 <= j -> 0 < num -> den <= num * 10 ^ (j + Z.of_nat fuel) ->
    let r := PyFloat.decpt_down fuel num den j in
    r <= 0 /\ den <= num * 10 ^ (1 - r).
Proof.
  induction fuel as [|fuel IH]; intros j Hj Hnum Hbound; cbn [PyFloat.decpt_down].
  - split; [lia|]. rewrite Z.add_0_r in Hbound.
    replace (1 - - j) with (j + 1) by lia. rewrite Z.pow_add_r by lia.
    assert (0 < 10 ^ j) by (apply Z.pow_pos_nonneg; lia). nia.
  - destruct (Z.leb_spec den (num * 10 ^ (j + 1))) as [Hle|Hgt].
    + split; [lia|]. replace (1 - - j) with (j + 1) by lia. exact Hle.
    + apply IH; [lia|assumption|].
      replace (j + 1 + Z.of_nat fuel) with (j + Z.of_nat (S fuel)) by lia. exact Hbound.
Qed.

(** The decimal point is not placed too far right: [10^(p-1) <= num/den]. *)
Lemma decpt_low num den :
  0 < num -> 0 < den -> den <= num * 10 ^ 400 ->
  let p := PyFloat.decpt num den in
  den * 10 ^ Z.max (p - 1) 0 <= num * 10 ^ Z.max (1 - p) 0.
Proof.
  intros Hnum Hden Hbound p. unfold p, PyFloat.decpt.
  destruct (Z.leb_spec den num) as [Hle|Hgt].
  - destruct (decpt_up_low 400 num den 1 ltac:(lia)) as [Hr Hlow].
    { change (10 ^ (1 - 1)) with 1. lia. }
    set (r := PyFloat.decpt_up 400 num den 1) in *.
    replace (Z.max (r - 1) 0) with (r - 1) by lia.
    replace (Z.max (1 - r) 0) with 0 by lia. change (10 ^ 0) with 1. lia.
  - destruct (decpt_down_low 400 num den 0 ltac:(lia) Hnum) as [Hr Hlow].
    { exact Hbound. }
    set (r := PyFloat.decpt_down 400 num den 0) in *.
    replace (Z.max (r - 1) 0) with 0 by lia.
    replace (Z.max (1 - r) 0) with (1 - r) by lia. change (10 ^ 0) with 1. lia.
Qed.

Lemma ratio_of_bound m e :
  bounded64 m e = true ->
  let '(num, den) := PyFloat.ratio_of m e in den <= num * 10 ^ 400.
Proof.
  intros Hb. pose proof (bounded64_range _ _ Hb) as [He Hm].
  unfold PyFloat.ratio_of. destruct (Z.leb_spec 0 e) as [H0|H0].
  - assert (0 < 2 ^ e) by (apply Z.pow_pos_nonneg; lia).
    assert (0 < 10 ^ 400) by (apply Z.pow_pos_nonneg; lia). nia.
  - assert (Hp : 2 ^ (- e) <= 2 ^ 1074) by (apply Z.pow_le_mono_r; lia).
    assert (H10 : 2 ^ 1074 <= 10 ^ 400) by (vm_compute; discriminate).
    assert (1 <= Zpos m) by lia. nia.
Qed.

Lemma cancel_le a b c : 0 < c -> a * c <= b * c -> a <= b.
Proof. intros Hc H. nia. Qed.

Lemma cancel_lt a b c : 0 < c -> a * c < b * c -> a < b.
Proof. intros Hc H. nia. Qed.

(** Seventeen digits are enough: the arithmetic. *)
Lemma seventeen_arith U W den c b' tx num d :
  0 < U -> 0 < W -> 0 < den -> 0 < c -> 0 < b' ->
  num * U = tx * den ->
  - (den * c) <= 2 * (d * (den * c) - num * b') <= den * c ->
  10 ^ 16 * (den * c) <= num * b' ->
  let D := d * c * U - tx * b' in
  (tx * b' < 2 ^ 53 * W -> - W < 2 * D < W) /\
  (tx * b' = 2 ^ 52 * W -> - W < 4 * D).
Proof.
  intros HU HW Hden Hc Hb' Hx Hnear Hbig D.
  set (X := d * (den * c) - num * b') in *.
  assert (HD : D * den = U * X) by (unfold D, X; nia).
  assert (HcU : 0 < c * U) by nia.
  assert (H2D : - (c * U) <= 2 * D <= c * U).
  { split.
    - apply (cancel_le _ _ den Hden).
      replace (- (c * U) * den) with (U * - (den * c)) by lia.
      replace (2 * D * den) with (U * (2 * X)) by lia.
      apply Z.mul_le_mono_nonneg_l; lia.
    - apply (cancel_le _ _ den Hden).
      replace (c * U * den) with (U * (den * c)) by lia.
      replace (2 * D * den) with (U * (2 * X)) by lia.
      apply Z.mul_le_mono_nonneg_l; lia. }
  assert (Hbig' : 10 ^ 16 * (c * U) <= tx * b').
  { apply (cancel_le _ _ den Hden).
    replace (10 ^ 16 * (c * U) * den) with (10 ^ 16 * (den * c) * U) by lia.
    replace (tx * b' * den) with (num * b' * U) by lia.
    apply Z.mul_le_mono_nonneg_r; lia. }
  assert (H1016 : 2 ^ 53 < 10 ^ 16) by reflexivity.
  assert (HP : 2 ^ 53 = 2 * 2 ^ 52) by reflexivity.
  set (P := 2 ^ 53) in *. set (T := 10 ^ 16) in *. set (P' := 2 ^ 52) in *.
  split.
  - intros Hlt. assert (c * U < W) by nia. lia.
  - intros Heq. assert (2 * (c * U) < W) by nia. lia.
Qed.

Lemma nearest_digits num den p n :
  0 < num -> 0 < den ->
  let a0 := num * 10 ^ Z.max (n - p) 0 in
  let b0 := den * 10 ^ Z.max (p - n) 0 in
  let lo := PyFloat.digits_below num den p n in
  let d := if PyFloat.upper_is_nearer num den p n lo then lo + 1 else lo in
  lo = a0 / b0 /\ lo <= d /\ - b0 <= 2 * (d * b0 - a0) <= b0.
Proof.
  intros Hnum Hden a0 b0 lo d.
  assert (Hab : (if 0 <=? n - p then (num * 10 ^ (n - p), den)
                 else (num, den * 10 ^ (p - n))) = (a0, b0)).
  { unfold a0, b0. destruct (Z.leb_spec 0 (n - p)).
    - replace (Z.max (n - p) 0) with (n - p) by lia.
      replace (Z.max (p - n) 0) with 0 by lia. change (10 ^ 0) with 1.
      rewrite Z.mul_1_r. reflexivity.
    - replace (Z.max (n - p) 0) with 0 by lia.
      replace (Z.max (p - n) 0) with (p - n) by lia. change (10 ^ 0) with 1.
      rewrite Z.mul_1_r. reflexivity. }
  assert (Hlo : lo = a0 / b0).
  { unfold lo, PyFloat.digits_below.
    destruct (0 <=? n - p); injection Hab as <- <-; reflexivity. }
  assert (Hb0 : 0 < b0).
  { unfold b0. assert (0 < 10 ^ Z.max (p - n) 0) by (apply Z.pow_pos_nonneg; lia). nia. }
  pose proof (Z.div_mod a0 b0 ltac:(lia)) as Hdm.
  pose proof (Z.mod_pos_bound a0 b0 Hb0) as HR.
  rewrite <- Hlo in Hdm.
  split; [exact Hlo|].
  unfold d, PyFloat.upper_is_nearer. rewrite Hab.
  destruct (Z.compare_spec (2 * (a0 - lo * b0)) b0) as [Hc|Hc|Hc]; [destruct (Z.odd lo)| |];
    (split; [lia|]); nia.
Qed.

(** The nearest decimal with seventeen digits is read back as the float. *)
Lemma seventeen_digits m e :
  bounded64 m e = true ->
  let '(num, den) := PyFloat.ratio_of m e in
  let p := PyFloat.decpt num den in
  let lo := PyFloat.digits_below num den p 17 in
  let d := if PyFloat.upper_is_nearer num den p 17 lo then lo + 1 else lo in
  0 < d /\ PyFloat.of_scaled false d (p - 17) = S754_finite false m e.
Proof.
  intros Hb. pose proof (bounded64_range _ _ Hb) as [He Hm].
  pose proof (ratio_of_ticks m e ltac:(lia)) as Hticks.
  pose proof (ratio_of_bound m e Hb) as Hbound.
  destruct (PyFloat.ratio_of m e) as [num den].
  destruct Hticks as (Hnum & Hden & Hx).
  intros p lo d.
  pose proof (decpt_low num den Hnum Hden Hbound) as Hlow. cbv zeta in Hlow. fold p in Hlow.
  pose proof (nearest_digits num den p 17 Hnum Hden) as Hnd. cbv zeta in Hnd.
  fold lo in Hnd. fold d in Hnd. destruct Hnd as (Hlo & Hd & Hnear).
  set (k := p - 17) in *.
  replace (Z.max (17 - p) 0) with (Z.max (- k) 0) in * by (unfold k; lia).
  replace (Z.max (p - 17) 0) with (Z.max k 0) in * by (unfold k; lia).
  set (c := 10 ^ Z.max k 0) in *. set (b' := 10 ^ Z.max (- k) 0) in *.
  assert (Hc : 0 < c) by (apply Z.pow_pos_nonneg; lia).
  assert (Hb' : 0 < b') by (apply Z.pow_pos_nonneg; lia).
  assert (Hbig : 10 ^ 16 * (den * c) <= num * b').
  { set (u := 10 ^ Z.max (p - 1) 0) in *. set (w := 10 ^ Z.max (1 - p) 0) in *.
    assert (Hw : 0 < w) by (apply Z.pow_pos_nonneg; lia).
    assert (Hid : 10 ^ 16 * c * w = b' * u).
    { unfold c, w, b', u. rewrite <- !Z.pow_add_r by lia. f_equal. unfold k. lia. }
    apply (cancel_le _ _ w Hw).
    replace (10 ^ 16 * (den * c) * w) with (den * (10 ^ 16 * c * w)) by lia.
    rewrite Hid.
    replace (den * (b' * u)) with (b' * (den * u)) by lia.
    replace (num * b' * w) with (b' * (num * w)) by lia.
    apply Z.mul_le_mono_nonneg_l; lia. }
  assert (Hlo16 : 10 ^ 16 <= lo).
  { rewrite Hlo. apply Z.div_le_lower_bound; [nia|]. lia. }
  assert (Hdpos : 0 < d) by (assert (0 < 10 ^ 16) by reflexivity; lia).
  split; [exact Hdpos|].
  rewrite of_scaled_round by exact Hdpos. fold c b'.
  pose proof unit_ticks_pos as HU.
  assert (HP : 0 < 2 ^ (e + 1074)) by (apply Z.pow_pos_nonneg; lia).
  assert (HW : 0 < 2 ^ (e + 1074) * b') by (apply Z.mul_pos_pos; assumption).
  destruct (seventeen_arith unit_ticks (2 ^ (e + 1074) * b') den c b'
              (Zpos m * 2 ^ (e + 1074)) num d HU HW Hden Hc Hb' Hx Hnear Hbig)
    as [Hmain Hedge].
  assert (Hdc : 0 < d * c) by (apply Z.mul_pos_pos; assumption).
  apply (round_ratio_near (d * c) b' m e Hdc Hb' Hb).
  - apply Hmain. rewrite <- (Z.mul_assoc (Zpos m)).
    apply Z.mul_lt_mono_pos_r; [exact HW|exact Hm].
  - intros Hm52 _. apply Hedge. rewrite Hm52. lia.
Qed.

Lemma of_scaled_positive d k m e :
  PyFloat.of_scaled false d k = S754_finite false m e -> 0 < d.
Proof.
  destruct d as [|d|d]; [discriminate|lia|discriminate].
Qed.

Lemma shortest_from_spec m e num den p fuel :
  (let lo := PyFloat.digits_below num den p 17 in
   let d := if PyFloat.upper_is_nearer num den p 17 lo then lo + 1 else lo in
   0 < d /\ PyFloat.of_scaled false d (p - 17) = S754_finite false m e) ->
  forall n, n + Z.of_nat fuel = 17 ->
    let '(d, k) := PyFloat.shortest_from fuel (S754_finite false m e) num den p n in
    0 < d /\ PyFloat.of_scaled false d k = S754_finite false m e.
Proof.
  intros Hlast. induction fuel as [|fuel IH]; intros n Hn.
  - assert (n = 17) by lia. subst n. exact Hlast.
  - cbn [PyFloat.shortest_from].
    set (lo := PyFloat.digits_below num den p n).
    destruct (bool_decide_reflect
                (PyFloat.of_scaled false lo (p - n) = S754_finite false m e)) as [Hlo|Hlo];
      destruct (bool_decide_reflect
                  (PyFloat.of_scaled false (lo + 1) (p - n) = S754_finite false m e))
        as [Hhi|Hhi]; cbn [andb].
    + destruct (PyFloat.upper_is_nearer num den p n lo);
        (split; [eapply of_scaled_positive; eassumption|assumption]).
    + split; [eapply of_scaled_positive; eassumption|assumption].
    + split; [eapply of_scaled_positive; eassumption|assumption].
    + apply IH. lia.
Qed.

Lemma strip_zeros_spec fuel :
  forall d k, 0 < d ->
    let '(d', k') := PyFloat.strip_zeros fuel d k in
    0 < d' /\ exists j, 0 <= j /\ d = d' * 10 ^ j /\ k' = k + j.
Proof.
  induction fuel as [|fuel IH]; intros d k Hd; cbn [PyFloat.strip_zeros].
  - split; [exact Hd|]. exists 0. change (10 ^ 0) with 1. lia.
  - destruct (Z.eqb_spec (d mod 10) 0) as [Hz|Hnz]; cbn [andb].
    + destruct (Z.eqb_spec d 0) as [|_]; [lia|]. cbn [negb].
      pose proof (Z.div_mod d 10 ltac:(lia)) as Hdm. rewrite Hz in Hdm.
      assert (Hq : 0 < d / 10) by lia.
      specialize (IH (d / 10) (k + 1) Hq).
      destruct (PyFloat.strip_zeros fuel (d / 10) (k + 1)) as [d' k'].
      destruct IH as (Hd' & j & Hj & Hdj & Hk).
      split; [exact Hd'|]. exists (j + 1). split; [lia|]. split; [|lia].
      rewrite Z.pow_add_r by lia. change (10 ^ 1) with 10. lia.
    + split; [exact Hd|]. exists 0. change (10 ^ 0) with 1. lia.
Qed.

(** The digits of [repr] stand for a decimal that is read back as the
    float. *)
Lemma shortest_reads_back neg m e :
  bounded64 m e = true ->
  let '(d0, k0) := PyFloat.shortest m e in
  let '(d, k) := PyFloat.strip_zeros 20 d0 k0 in
  0 < d /\ PyFloat.of_scaled neg d k = S754_finite neg m e.
Proof.
  intros Hb. unfold PyFloat.shortest.
  pose proof (seventeen_digits m e Hb) as H17.
  destruct (PyFloat.ratio_of m e) as [num den].
  pose proof (shortest_from_spec m e num den (PyFloat.decpt num den) 16 H17 1 eq_refl)
    as Hs.
  destruct (PyFloat.shortest_from 16 _ num den _ 1) as [d0 k0].
  destruct Hs as [Hd0 Hread].
  pose proof (strip_zeros_spec 20 d0 k0 Hd0) as Hz.
  destruct (PyFloat.strip_zeros 20 d0 k0) as [d k].
  destruct Hz as (Hd & j & Hj & Hdj & Hk).
  split; [exact Hd|].
  assert (Hpos : PyFloat.of_scaled false d k = S754_finite false m e).
  { rewrite <- Hread, Hdj. replace k0 with (k - j) by lia.
    symmetry. apply of_scaled_zeros; assumption. }
  destruct neg; [|exact Hpos].
  rewrite of_scaled_opp, Hpos by exact Hd. reflexivity.
Qed.

(** ** The text of a float and its digits *)

Lemma take_digits_all ds rest :
  all_digits ds = true -> no_digit_first rest = true ->
  take_digits (ds +:+ rest) = (ds, rest).
Proof.
  intros Hd Hr. induction ds as [|c ds IH].
  - rewrite app_empty_l. destruct rest as [|c rest]; [reflexivity|].
    cbn [take_digits]. cbn [no_digit_first] in Hr. apply negb_true_iff in Hr.
    rewrite Hr. reflexivity.
  - cbn [all_digits] in Hd. apply andb_prop in Hd as [Hc Hd].
    rewrite app_String. cbn [take_digits]. rewrite Hc, (IH Hd). reflexivity.
Qed.

Lemma all_digits_app a b : all_digits (a +:+ b) = all_digits a && all_digits b.
Proof.
  induction a as [|c a IH]; [reflexivity|].
  rewrite app_String. cbn [all_digits]. rewrite IH, andb_assoc. reflexivity.
Qed.

Lemma all_digits_zeros j : all_digits (str_repeat "0"%char j) = true.
Proof. induction j as [|j IH]; [reflexivity|]. cbn [str_repeat all_digits]. rewrite IH. reflexivity. Qed.

Lemma str_len_zeros c j : str_len (str_repeat c j) = j.
Proof. unfold str_len. induction j as [|j IH]; [reflexivity|]. cbn. rewrite IH. reflexivity. Qed.

Lemma digits_value_app a b : forall acc,
  digits_value acc (a +:+ b) = digits_value (digits_value acc a) b.
Proof.
  induction a as [|c a IH]; intros acc; [reflexivity|].
  rewrite app_String. cbn [digits_value]. apply IH.
Qed.

Lemma digits_value_zeros j : forall acc,
  digits_value acc (str_repeat "0"%char j) = acc * 10 ^ Z.of_nat j.
Proof.
  induction j as [|j IH]; intros acc.
  - cbn [str_repeat digits_value]. change (10 ^ Z.of_nat 0) with 1. lia.
  - cbn [str_repeat digits_value]. rewrite IH.
    change (digit_value "0") with 0.
    rewrite Nat2Z.inj_succ, Z.pow_succ_r by lia. lia.
Qed.

Lemma digits_value_shift ds : forall acc,
  digits_value acc ds = acc * 10 ^ Z.of_nat (str_len ds) + digits_value 0 ds.
Proof.
  unfold str_len. induction ds as [|c ds IH]; intros acc.
  - cbn [digits_value String.length]. change (10 ^ Z.of_nat 0) with 1. lia.
  - cbn [digits_value String.length]. rewrite IH, (IH (10 * 0 + digit_value c)).
    rewrite Nat2Z.inj_succ, Z.pow_succ_r by lia. lia.
Qed.

(** *** The decimal digits of a positive number *)

Lemma pretty_N_char_spec r :
  (r < 10)%N ->
  is_digit (pretty_N_char r) = true /\ digit_value (pretty_N_char r) = Z.of_N r /\
  (r <> 0%N -> pretty_N_char r <> "0"%char).
Proof.
  intros Hr.
  assert (H : (r = 0 \/ r = 1 \/ r = 2 \/ r = 3 \/ r = 4 \/ r = 5 \/ r = 6 \/ r = 7
              \/ r = 8 \/ r = 9)%N) by lia.
  repeat destruct H as [->|H]; try subst r;
    (split; [reflexivity|]); (split; [reflexivity|]); intros Hne;
    try discriminate; contradiction.
Qed.

Lemma pretty_N_go_spec x :
  forall s, exists ds,
    pretty_N_go x s = ds +:+ s /\ all_digits ds = true /\
    digits_value 0 ds = Z.of_N x /\
    (x <> 0%N -> exists c t, ds = String c t /\ c <> "0"%char).
Proof.
  induction (N.lt_wf_0 x) as [x _ IH]. intros s.
  destruct (N.eq_dec x 0%N) as [->|Hx].
  - exists "". rewrite pretty_N_go_0. repeat split; try reflexivity. intros H. contradiction.
  - rewrite pretty_N_go_step by lia.
    destruct (IH (x `div` 10)%N ltac:(apply N.div_lt; lia)
                (String (pretty_N_char (x `mod` 10)) s)) as (ds' & Hgo & Hall & Hval & Hfirst).
    assert (Hr : (x `mod` 10 < 10)%N) by (apply N.mod_lt; lia).
    destruct (pretty_N_char_spec _ Hr) as (Hdig & Hdv & Hnz).
    exists (ds' +:+ String (pretty_N_char (x `mod` 10)) "").
    split; [rewrite Hgo, str_app_assoc; reflexivity|].
    split; [rewrite all_digits_app, Hall; cbn [all_digits]; rewrite Hdig; reflexivity|].
    split.
    + rewrite digits_value_app, Hval. cbn [digits_value]. rewrite Hdv.
      pose proof (N.div_mod x 10 ltac:(lia)) as Hdm. lia.
    + intros _. destruct (N.eq_dec (x `div` 10)%N 0%N) as [Hz|Hnz'].
      * assert (ds' = "") as ->.
        { destruct ds' as [|c t]; [reflexivity|].
          exfalso. rewrite Hz in Hval. cbn [all_digits] in Hall.
          apply andb_prop in Hall as [Hc Hall].
          rewrite Hz, pretty_N_go_0 in Hgo.
          apply (f_equal String.length) in Hgo.
          rewrite app_String in Hgo. cbn [String.length] in Hgo.
          pose proof (str_len_app t (String (pretty_N_char (x `mod` 10)) s)) as Hl.
          unfold str_len in Hl. rewrite Hl in Hgo. cbn [String.length] in Hgo. lia. }
        rewrite app_empty_l. eexists _, _. split; [reflexivity|].
        apply Hnz. intros Hm. pose proof (N.div_mod x 10 ltac:(lia)) as Hdm. lia.
      * destruct (Hfirst Hnz') as (c & t & -> & Hc).
        rewrite app_String. eauto.
Qed.

Lemma pretty_digits d :
  0 < d ->
  all_digits (pretty d) = true /\ digits_value 0 (pretty d) = d /\
  exists c t, pretty d = String c t /\ c <> "0"%char /\ is_digit c = true.
Proof.
  intros Hd. destruct d as [|p|p]; try lia.
  change (pretty (Zpos p)) with (pretty (Npos p)).
  unfold pretty, pretty_N. rewrite decide_False by discriminate.
  destruct (pretty_N_go_spec (Npos p) "") as (ds & Hgo & Hall & Hval & Hfirst).
  rewrite Hgo, str_app_empty_r.
  split; [exact Hall|]. split; [rewrite Hval; reflexivity|].
  destruct (Hfirst ltac:(discriminate)) as (c & t & -> & Hc).
  exists c, t. split; [reflexivity|]. split; [exact Hc|].
  cbn [all_digits] in Hall. apply andb_prop in Hall as [Hdig _]. exact Hdig.
Qed.

(** *** Pieces of a string *)

Lemma substring_0_0 s : String.substring 0 0 s = EmptyString.
Proof. destruct s; reflexivity. Qed.

Lemma substring_full s : String.substring 0 (String.length s) s = s.
Proof. induction s as [|c s IH]; [reflexivity|]. cbn. rewrite IH. reflexivity. Qed.

Lemma substring_split s :
  forall i, (i <= String.length s)%nat ->
    String.substring 0 i s +:+ String.substring i (String.length s - i) s = s.
Proof.
  induction s as [|c s IH]; intros i Hi.
  - cbn in Hi. assert (i = 0%nat) by lia. subst i. reflexivity.
  - destruct i as [|i].
    + cbn [String.substring]. rewrite app_empty_l.
      cbn [String.length Nat.sub String.substring]. rewrite substring_full. reflexivity.
    + cbn [String.length] in Hi |- *. cbn [String.substring Nat.sub].
      rewrite app_String, IH by lia. reflexivity.
Qed.

Lemma substring_length s :
  forall i, (i <= String.length s)%nat -> String.length (String.substring 0 i s) = i.
Proof.
  induction s as [|c s IH]; intros i Hi.
  - cbn in Hi. assert (i = 0%nat) by lia. subst i. reflexivity.
  - destruct i as [|i]; [reflexivity|].
    cbn [String.length] in Hi. cbn [String.substring String.length].
    rewrite IH by lia. reflexivity.
Qed.

(** *** The scanner on the pieces of a number *)

Lemma digit_not c x : is_digit c = true -> is_digit x = false -> c <> x.
Proof. intros Hc Hx ->. congruence. Qed.

Lemma scan_integer_part ip rest :
  int_part ip = true -> no_digit_first rest = true ->
  scan_integer (ip +:+ rest) = Some (ip, rest).
Proof.
  intros Hip Hrest. destruct ip as [|c t]; [discriminate|].
  rewrite app_String. cbn [int_part scan_integer] in *.
  destruct (decide (c = "0"%char)) as [->|Hc].
  - apply bool_decide_eq_true in Hip. subst t. reflexivity.
  - apply andb_prop in Hip as [Hd Hall]. rewrite Hd.
    rewrite (take_digits_all t rest Hall Hrest). reflexivity.
Qed.

Lemma scan_frac_digits fp rest :
  all_digits fp = true -> fp <> EmptyString -> no_digit_first rest = true ->
  scan_frac ("." +:+ fp +:+ rest) = Some (fp, rest).
Proof.
  intros Hall Hne Hrest. rewrite app_String, app_empty_l. cbn [scan_frac].
  rewrite decide_True by reflexivity.
  rewrite (take_digits_all fp rest Hall Hrest).
  destruct fp; [contradiction|reflexivity].
Qed.

Lemma scan_frac_none c rest :
  c <> "."%char -> scan_frac (String c rest) = None.
Proof. intros Hc. cbn [scan_frac]. rewrite decide_False by exact Hc. reflexivity. Qed.

Lemma scan_exp_digits (eneg : bool) ed :
  all_digits ed = true -> ed <> EmptyString ->
  scan_exp ("e" +:+ (if eneg then "-" else "+")%string +:+ ed)
  = Some (cond_Zopp eneg (digits_value 0 ed), EmptyString).
Proof.
  intros Hall Hne. rewrite app_String, app_empty_l. cbn [scan_exp].
  rewrite bool_decide_eq_true_2 by reflexivity. cbn [orb].
  pose proof (take_digits_all ed "" Hall eq_refl) as Htake.
  rewrite str_app_empty_r in Htake.
  destruct eneg; rewrite app_String, app_empty_l.
  - rewrite decide_True by reflexivity. rewrite Htake.
    destruct ed; [contradiction|reflexivity].
  - rewrite decide_False by discriminate. rewrite decide_True by reflexivity.
    rewrite Htake. destruct ed; [contradiction|reflexivity].
Qed.

Lemma match_number_signed (neg : bool) c t :
  is_digit c = true ->
  match_number ((if neg then "-" else "")%string +:+ String c t) = number_unsigned neg (String c t).
Proof.
  intros Hc. unfold match_number. destruct neg.
  - rewrite app_String, app_empty_l. rewrite decide_True by reflexivity. reflexivity.
  - rewrite app_empty_l. rewrite decide_False; [reflexivity|].
    apply (digit_not c "-" Hc). reflexivity.
Qed.

Lemma int_part_first ip : int_part ip = true -> exists c t, ip = String c t /\ is_digit c = true.
Proof.
  destruct ip as [|c t]; [discriminate|]. cbn [int_part]. intros H.
  exists c, t. split; [reflexivity|].
  destruct (decide (c = "0"%char)) as [->|]; [reflexivity|].
  apply andb_prop in H as [H _]. exact H.
Qed.

Lemma number_point neg ip fp :
  int_part ip = true -> all_digits fp = true -> fp <> EmptyString ->
  number_unsigned neg (ip +:+ "." +:+ fp)
  = Some (JFloat (float_of_literal neg ip fp 0), EmptyString).
Proof.
  intros Hip Hfp Hne. unfold number_unsigned.
  rewrite (scan_integer_part ip ("." +:+ fp) Hip) by reflexivity.
  pose proof (scan_frac_digits fp "" Hfp Hne eq_refl) as Hfrac.
  rewrite str_app_empty_r in Hfrac. rewrite Hfrac. reflexivity.
Qed.

Lemma number_point_exp neg ip fp (eneg : bool) ed :
  int_part ip = true -> all_digits fp = true -> fp <> EmptyString ->
  all_digits ed = true -> ed <> EmptyString ->
  number_unsigned neg (ip +:+ ("." +:+ fp) +:+ "e" +:+ (if eneg then "-" else "+")%string +:+ ed)
  = Some (JFloat (float_of_literal neg ip fp (cond_Zopp eneg (digits_value 0 ed))),
          EmptyString).
Proof.
  intros Hip Hfp Hne Hed Hne'. unfold number_unsigned.
  rewrite str_app_assoc.
  rewrite (scan_integer_part ip _ Hip) by reflexivity. cbv beta iota.
  rewrite (scan_frac_digits fp _ Hfp Hne) by reflexivity. cbv beta iota.
  rewrite (scan_exp_digits eneg ed Hed Hne'). reflexivity.
Qed.

Lemma number_exp neg ip (eneg : bool) ed :
  int_part ip = true -> all_digits ed = true -> ed <> EmptyString ->
  number_unsigned neg (ip +:+ "" +:+ "e" +:+ (if eneg then "-" else "+")%string +:+ ed)
  = Some (JFloat (float_of_literal neg ip "" (cond_Zopp eneg (digits_value 0 ed))),
          EmptyString).
Proof.
  intros Hip Hed Hne'. unfold number_unsigned. rewrite app_empty_l.
  rewrite (scan_integer_part ip _ Hip) by reflexivity. cbv beta iota.
  pose proof (scan_exp_digits eneg ed Hed Hne') as Hexp.
  rewrite app_String, app_empty_l in Hexp |- *.
  rewrite scan_frac_none by discriminate. rewrite Hexp. reflexivity.
Qed.

(** *** The four layouts of [repr] *)

Lemma literal_value neg ip fp exp d k j :
  0 < d -> 0 <= j ->
  digits_value 0 (ip +:+ fp) = d * 10 ^ j ->
  exp - Z.of_nat (str_len fp) = k - j ->
  float_of_literal neg ip fp exp = PyFloat.of_scaled neg d k.
Proof.
  intros Hd Hj Hval Hexp. unfold float_of_literal.
  rewrite Hval, Hexp. apply of_scaled_zeros; assumption.
Qed.

Lemma zfill_digits w q :
  0 < q ->
  all_digits (zfill w (pretty q)) = true /\ zfill w (pretty q) <> EmptyString /\
  digits_value 0 (zfill w (pretty q)) = q.
Proof.
  intros Hq. destruct (pretty_digits q Hq) as (Hall & Hval & c & t & Hct & _).
  unfold zfill. split; [|split].
  - rewrite all_digits_app, all_digits_zeros, Hall. reflexivity.
  - rewrite Hct. destruct (str_repeat _ _); discriminate.
  - rewrite digits_value_app, digits_value_zeros, Z.mul_0_l. exact Hval.
Qed.

Section Layouts.

Variables (neg : bool) (d k : Z) (c : ascii) (t : string).
Hypothesis Hd : 0 < d.
Hypothesis Hc0 : c <> "0"%char.
Hypothesis Hcd : is_digit c = true.
Hypothesis Hall : all_digits t = true.
Hypothesis Hval : digits_value 0 (String c t) = d.

Let n : Z := Z.of_nat (str_len (String c t)).
Let p : Z := n + k.

Lemma n_eq : n = 1 + Z.of_nat (str_len t).
Proof. unfold n, str_len. cbn [String.length]. lia. Qed.

(** [d.ddde+XX] *)
Lemma layout_exponent :
  p - 1 <> 0 ->
  match_number
    ((if neg then "-" else "")%string +:+
     String.substring 0 1 (String c t) +:+
     (if 1 <? n
      then ("." +:+ String.substring 1 (str_len (String c t) - 1) (String c t))%string
      else ""%string) +:+
     "e" +:+ (if p - 1 <? 0 then "-"%string else "+"%string) +:+
     zfill 2 (pretty (Z.abs (p - 1))))
  = Some (JFloat (PyFloat.of_scaled neg d k), EmptyString).
Proof.
  intros Hp. pose proof n_eq as Hn.
  destruct (zfill_digits 2 (Z.abs (p - 1)) ltac:(lia)) as (Hed & Hne & Hev).
  assert (Hexp : cond_Zopp (p - 1 <? 0) (Z.abs (p - 1)) = p - 1).
  { destruct (Z.ltb_spec (p - 1) 0); cbn [cond_Zopp]; lia. }
  assert (Hip : int_part (String c "") = true).
  { cbn [int_part]. rewrite decide_False by exact Hc0. rewrite Hcd. reflexivity. }
  replace (str_len (String c t) - 1)%nat with (String.length t)
    by (unfold str_len; cbn [String.length]; lia).
  cbn [String.substring]. rewrite substring_full, substring_0_0.
  rewrite app_String, app_empty_l, match_number_signed by exact Hcd.
  rewrite <- (app_empty_l (_ +:+ "e" +:+ _)), <- app_String.
  destruct (Z.ltb_spec 1 n) as [Hlt|Hge].
  - assert (Hne' : t <> EmptyString).
    { intros ->. unfold str_len in Hn. cbn in Hn. lia. }
    rewrite (number_point_exp neg (String c "") t _ _ Hip Hall Hne' Hed Hne).
    rewrite Hev, Hexp. apply (f_equal (fun v => Some (JFloat v, EmptyString))).
    apply (literal_value neg _ _ _ d k 0); [exact Hd|lia| |lia].
    rewrite app_String, app_empty_l, Hval. change (10 ^ 0) with 1. lia.
  - assert (Ht : t = EmptyString).
    { destruct t; [reflexivity|]. unfold str_len in Hn. cbn [String.length] in Hn. lia. }
    rewrite (number_exp neg (String c "") _ _ Hip Hed Hne).
    rewrite Hev, Hexp. apply (f_equal (fun v => Some (JFloat v, EmptyString))).
    apply (literal_value neg _ _ _ d k 0); [exact Hd|lia| |].
    + rewrite str_app_empty_r. rewrite <- Hval, Ht. change (10 ^ 0) with 1. lia.
    + unfold str_len. cbn [String.length]. rewrite Ht in Hn. unfold str_len in Hn.
      cbn [String.length] in Hn. lia.
Qed.

(** [0.000ddd] *)
Lemma layout_small :
  p <= 0 ->
  match_number
    ((if neg then "-" else "")%string +:+
     "0." +:+ str_repeat "0"%char (Z.to_nat (- p)) +:+ String c t)
  = Some (JFloat (PyFloat.of_scaled neg d k), EmptyString).
Proof.
  intros Hp. pose proof n_eq as Hn.
  set (zs := str_repeat "0"%char (Z.to_nat (- p))).
  change ("0." +:+ zs +:+ String c t) with (String "0" ("." +:+ zs +:+ String c t)).
  rewrite match_number_signed by reflexivity.
  change (String "0" ("." +:+ zs +:+ String c t)) with ("0" +:+ "." +:+ zs +:+ String c t).
  rewrite (number_point neg "0" (zs +:+ String c t)).
  - apply (f_equal (fun v => Some (JFloat v, EmptyString))).
    apply (literal_value neg _ _ _ d k 0); [exact Hd|lia| |].
    + rewrite !digits_value_app. change (digits_value 0 "0") with 0.
      unfold zs. rewrite digits_value_zeros, Z.mul_0_l, Hval. change (10 ^ 0) with 1. lia.
    + rewrite str_len_app. unfold zs. rewrite str_len_zeros.
      fold n. unfold p in *. lia.
  - reflexivity.
  - rewrite all_digits_app. unfold zs. rewrite all_digits_zeros.
    cbn [all_digits andb]. rewrite Hcd, Hall. reflexivity.
  - destruct zs; discriminate.
Qed.

(** [ddd000.0] *)
Lemma layout_integer :
  n <= p ->
  match_number
    ((if neg then "-" else "")%string +:+
     String c t +:+ str_repeat "0"%char (Z.to_nat (p - n)) +:+ ".0")
  = Some (JFloat (PyFloat.of_scaled neg d k), EmptyString).
Proof.
  intros Hp. pose proof n_eq as Hn.
  set (zs := str_repeat "0"%char (Z.to_nat (p - n))).
  rewrite app_String, match_number_signed by exact Hcd.
  change (String c (t +:+ zs +:+ ".0")) with (String c t +:+ zs +:+ "." +:+ "0").
  rewrite <- str_app_assoc.
  rewrite (number_point neg (String c t +:+ zs) "0").
  - apply (f_equal (fun v => Some (JFloat v, EmptyString))).
    apply (literal_value neg _ _ _ d k (k + 1)); [exact Hd|unfold p in Hp; lia| |].
    + rewrite !digits_value_app, Hval. unfold zs. rewrite digits_value_zeros.
      cbn [digits_value]. change (digit_value "0") with 0.
      rewrite Z2Nat.id by lia. replace (p - n) with k by (unfold p; lia).
      rewrite Z.pow_add_r by (unfold p in Hp; lia). change (10 ^ 1) with 10. lia.
    + unfold str_len. cbn [String.length]. lia.
  - rewrite app_String. cbn [int_part]. rewrite decide_False by exact Hc0.
    rewrite Hcd, all_digits_app, Hall. unfold zs. rewrite all_digits_zeros. reflexivity.
  - reflexivity.
  - discriminate.
Qed.

(** [dd.ddd] *)
Lemma layout_point :
  0 < p < n ->
  match_number
    ((if neg then "-" else "")%string +:+
     String.substring 0 (Z.to_nat p) (String c t) +:+ "." +:+
     String.substring (Z.to_nat p) (Z.to_nat (n - p)) (String c t))
  = Some (JFloat (PyFloat.of_scaled neg d k), EmptyString).
Proof.
  intros Hp. pose proof n_eq as Hn.
  set (ds := String c t) in *.
  assert (Hlen : (Z.to_nat p <= String.length ds)%nat) by (unfold n, str_len in *; lia).
  assert (Hsub : Z.to_nat (n - p) = (String.length ds - Z.to_nat p)%nat)
    by (unfold n, str_len in *; lia).
  rewrite Hsub.
  pose proof (substring_split ds (Z.to_nat p) Hlen) as Hsplit.
  pose proof (substring_length ds (Z.to_nat p) Hlen) as Hl1.
  set (ip := String.substring 0 (Z.to_nat p) ds) in *.
  set (fp := String.substring (Z.to_nat p) (String.length ds - Z.to_nat p) ds) in *.
  assert (Hdig : all_digits ip = true /\ all_digits fp = true).
  { assert (H : all_digits (ip +:+ fp) = true).
    { rewrite Hsplit. unfold ds. cbn [all_digits]. rewrite Hcd, Hall. reflexivity. }
    rewrite all_digits_app in H. apply andb_prop in H. exact H. }
  destruct Hdig as [Hdi Hdf].
  assert (Hl2 : (String.length fp = String.length ds - Z.to_nat p)%nat).
  { pose proof (str_len_app ip fp) as H. unfold str_len in H. rewrite Hsplit, Hl1 in H. lia. }
  assert (Hip : exists t', ip = String c t').
  { unfold ip, ds. destruct (Z.to_nat p) as [|i] eqn:Hi; [lia|].
    cbn [String.substring]. eauto. }
  destruct Hip as [t' Hip].
  rewrite Hip, app_String, match_number_signed by exact Hcd.
  rewrite <- app_String, <- Hip.
  rewrite (number_point neg ip fp).
  - apply (f_equal (fun v => Some (JFloat v, EmptyString))).
    apply (literal_value neg _ _ _ d k 0); [exact Hd|lia| |].
    + rewrite Hsplit. change (10 ^ 0) with 1. rewrite Z.mul_1_r. exact Hval.
    + unfold str_len. rewrite Hl2. unfold n, p, str_len in *. lia.
  - rewrite Hip. cbn [int_part]. rewrite decide_False by exact Hc0.
    rewrite Hcd. rewrite Hip in Hdi. cbn [all_digits] in Hdi.
    apply andb_prop in Hdi as [_ Hdi]. rewrite Hdi. reflexivity.
  - exact Hdf.
  - intros Hfp. rewrite Hfp in Hl2. cbn [String.length] in Hl2.
    unfold n, str_len in *. lia.
Qed.

End Layouts.

(** The text of a finite float is read back as that float. *)
Lemma repr_finite_reads_back neg m e :
  bounded64 m e = true ->
  match_number (repr_finite neg m e) = Some (JFloat (S754_finite neg m e), EmptyString).
Proof.
  intros Hb. unfold repr_finite.
  pose proof (shortest_reads_back neg m e Hb) as Hs.
  destruct (PyFloat.shortest m e) as [d0 k0].
  destruct (PyFloat.strip_zeros 20 d0 k0) as [d k].
  destruct Hs as [Hd <-].
  destruct (pretty_digits d Hd) as (Hall & Hval & c & t & Hds & Hc0 & Hcd).
  rewrite Hds in *. cbn [all_digits] in Hall. apply andb_prop in Hall as [_ Hall].
  cbv zeta.
  set (n := Z.of_nat (str_len (String c t))). set (p := n + k).
  destruct ((p <=? -4) || (16 <? p)) eqn:Hexp.
  - apply (layout_exponent neg d k c t Hd Hc0 Hcd Hall Hval).
    fold n. fold p. apply orb_prop in Hexp as [H|H]; [apply Z.leb_le in H|apply Z.ltb_lt in H]; lia.
  - apply orb_false_elim in Hexp as [H1 H2].
    apply Z.leb_gt in H1. apply Z.ltb_ge in H2.
    destruct (Z.leb_spec p 0) as [Hp|Hp].
    + apply (layout_small neg d k c t Hd Hcd Hall Hval). fold n. fold p. exact Hp.
    + destruct (Z.leb_spec n p) as [Hnp|Hnp].
      * apply (layout_integer neg d k c t Hd Hc0 Hcd Hall Hval). fold n. fold p. exact Hnp.
      * apply (layout_point neg d k c t Hd Hc0 Hcd Hall Hval). fold n. fold p. lia.
Qed.

Lemma scan_scalar_number s v :
  match_number s = Some v -> scan_scalar s = Ok v.
Proof.
  intros Hm. destruct s as [|c t]; [discriminate|].
  assert (Hc : c = "-"%char \/ is_digit c = true).
  { destruct (decide (c = "-"%char)) as [|Hne]; [left; assumption|]. right.
    destruct (is_digit c) eqn:Hd; [reflexivity|].
    rewrite (match_number_first c t Hne Hd) in Hm. discriminate. }
  assert (Hn : "n"%char <> c) by (destruct Hc as [->|Hd]; [discriminate|intros <-; discriminate]).
  assert (Ht : "t"%char <> c) by (destruct Hc as [->|Hd]; [discriminate|intros <-; discriminate]).
  assert (Hf : "f"%char <> c) by (destruct Hc as [->|Hd]; [discriminate|intros <-; discriminate]).
  unfold scan_scalar.
  rewrite (strip_prefix_mismatch "n" "ull" c t Hn), (strip_prefix_mismatch "t" "rue" c t Ht),
    (strip_prefix_mismatch "f" "alse" c t Hf), Hm.
  reflexivity.
Qed.

(** Every float is read back from its text. *)
Lemma valid_reads_back x :
  valid_binary PyFloat.prec PyFloat.emax x = true -> reads_back x = true.
Proof.
  intros Hv. destruct x as [[|]|[|]| |s m e]; try reflexivity.
  unfold reads_back. cbn [float_token float_repr].
  rewrite (scan_scalar_number _ _ (repr_finite_reads_back s m e Hv)).
  apply bool_decide_eq_true. reflexivity.
Qed.

(** ** The json output for any float *)

Lemma valid_times_ok sentences : valid_times sentences -> sentences_ok sentences.
Proof.
  unfold valid_times, sentences_ok. intros H. eapply Forall_impl; [exact H|].
  intros s [Hs He]. split; apply valid_reads_back; assumption.
Qed.

(** X1: the json output is read back whatever the times are.  For every
    transcript whose times are binary64 numbers (NaN, infinities and
    negative zero included), [json.loads] of the text written by
    [format_output] gives the object with the text and, in order, one
    object per sentence with its text, start and end, the floats being
    the very floats of the transcript. *)
Theorem json_output_read_back (result : TranscriptResult) :
  valid_times (r_sentences result) ->
  exists text,
    format_output result "json" = Ok text /\
    loads text =
      Ok (JObj [("text", JStr (r_text result));
                ("sentences",
                 JArr (map (fun s => JObj [("text", JStr (s_text s));
                                           ("start", JFloat (s_start s));
                                           ("end", JFloat (s_end s))])
                         (r_sentences result)))]).
Proof.
  intros Hvalid%valid_times_ok.
  exists (dumps (result_object result)). split; [reflexivity|].
  unfold loads.
  assert (Hws : skip_ws (dumps (result_object result)) = dumps (result_object result))
    by reflexivity.
  rewrite Hws.
  pose proof (scan_result (S (str_len (dumps (result_object result)))) result ""
                Hvalid) as Hscan.
  rewrite str_app_empty_r in Hscan. rewrite Hscan.
  - reflexivity.
  - pose proof (str_len_dumps_result result). lia.
Qed.

Lemma json_output_read_back_witness :
  valid_times (r_sentences awkward_times) /\
  exists text,
    format_output awkward_times "json" = Ok text /\
    loads text =
      Ok (JObj [("text", JStr "a b c");
                ("sentences",
                 JArr (map (fun s => JObj [("text", JStr (s_text s));
                                           ("start", JFloat (s_start s));
                                           ("end", JFloat (s_end s))])
                         (r_sentences awkward_times)))]).
Proof.
  assert (Hv : valid_times (r_sentences awkward_times)).
  { repeat constructor. }
  split; [exact Hv|]. exact (json_output_read_back awkward_times Hv).
Defined.

(** ** The fields of a timestamp stay in their ranges *)

Lemma fraction_near_one mf ef :
  bounded64 mf ef = true ->
  Zpos mf * 2 ^ (ef + 1074) < unit_ticks ->
  999 * unit_ticks <= Zpos mf * 2 ^ (ef + 1074) * 1000 ->
  ef = -53 /\ 2 ^ 52 <= Zpos mf < 2 ^ 53 /\ 999 * 2 ^ 53 <= Zpos mf * 1000.
Proof.
  intros Hb Hlt Hge. pose proof (bounded64_range _ _ Hb) as [He Hm].
  pose proof Hb as [Hc _]%bounded64_spec. rewrite fexp64_spec in Hc.
  pose proof (digits2_pos_bounds mf) as [Hlo Hhi].
  set (d := Zpos (digits2_pos mf)) in *.
  assert (Hd1 : 1 <= d) by (unfold d; lia).
  unfold unit_ticks in *.
  assert (HP : 0 < 2 ^ (ef + 1074)) by (apply Z.pow_pos_nonneg; lia).
  assert (Hhalf : 2 ^ 1073 < Zpos mf * 2 ^ (ef + 1074)).
  { replace (2 ^ 1074) with (2 * 2 ^ 1073) in Hge by reflexivity. lia. }
  assert (Hup : d + ef <= 0).
  { assert (H2 : 2 ^ (d - 1 + (ef + 1074)) < 2 ^ 1074).
    { rewrite Z.pow_add_r by lia. nia. }
    apply pow2_lt_exp in H2; lia. }
  assert (Hdown : 0 <= d + ef).
  { assert (H2 : 2 ^ 1073 < 2 ^ (d + (ef + 1074))).
    { rewrite Z.pow_add_r by lia. nia. }
    apply pow2_lt_exp in H2; lia. }
  assert (Hef : ef = -53) by lia. assert (Hd : d = 53) by lia.
  rewrite Hd in Hlo, Hhi. change (2 ^ (53 - 1)) with (2 ^ 52) in Hlo.
  split; [exact Hef|]. split; [lia|].
  subst ef. change (-53 + 1074) with 1021 in *.
  replace (2 ^ 1074) with (2 ^ 53 * 2 ^ 1021) in Hge by reflexivity.
  nia.
Qed.

(** A fraction of at least 0.999 gives 999 milliseconds, never 1000. *)
Lemma py_int_fmul_top f :
  nonneg_canonical f -> ticks f < unit_ticks ->
  999 * unit_ticks <= ticks f * 1000 ->
  PyFloat.py_int (PyFloat.fmul f (PyFloat.of_Z 1000)) = Ok 999.
Proof.
  intros [->|(mf & ef & -> & Hb)] Hlt Hge.
  - exfalso. change (ticks (S754_zero false)) with 0 in Hge.
    pose proof unit_ticks_pos. lia.
  - rewrite ticks_finite in *.
    destruct (fraction_near_one mf ef Hb Hlt Hge) as (-> & Hmf & Hbig).
    rewrite of_Z_1000. unfold PyFloat.fmul, SFmul. cbn [xorb].
    set (A := Zpos (mf * (1000 * 2 ^ 43))).
    assert (HA : A = Zpos mf * 1000 * 2 ^ 43) by (unfold A; lia).
    change (-53 + -43) with (-96).
    set (B := 2 ^ 53).
    assert (HB : 0 < B) by reflexivity.
    assert (HA0 : 0 <= A) by lia.
    assert (Hq : 999 * 2 ^ 43 <= A / B <= 1000 * 2 ^ 43 - 1).
    { split.
      - apply Z.div_le_lower_bound; [exact HB|]. unfold B. rewrite HA.
        replace (2 ^ 53 * (999 * 2 ^ 43)) with (999 * 2 ^ 53 * 2 ^ 43) by lia.
        apply Z.mul_le_mono_nonneg_r; [apply Z.pow_nonneg; lia|exact Hbig].
      - assert (A / B < 1000 * 2 ^ 43); [|lia].
        apply Z.div_lt_upper_bound; [exact HB|]. unfold B. rewrite HA.
        replace (2 ^ 53 * (1000 * 2 ^ 43)) with (2 ^ 53 * 1000 * 2 ^ 43) by lia.
        apply Z.mul_lt_mono_pos_r; [reflexivity|]. lia. }
    assert (Hdq : Zdigits2 (A / B) = 53).
    { apply Zdigits2_unique; [|lia]. change (2 ^ (53 - 1)) with (2 ^ 52).
      assert (H1 : 2 ^ 52 <= 999 * 2 ^ 43) by (vm_compute; discriminate).
      assert (H2 : 1000 * 2 ^ 43 - 1 < 2 ^ 53) by reflexivity. lia. }
    assert (HdA : Zdigits2 A = 106).
    { apply Zdigits2_unique; [|lia]. rewrite HA. split.
      - change (2 ^ (106 - 1)) with (2 ^ 62 * 2 ^ 43).
        apply Z.mul_le_mono_nonneg_r; [apply Z.pow_nonneg; lia|].
        assert (H1 : 2 ^ 62 <= 999 * 2 ^ 53) by (vm_compute; discriminate). lia.
      - change (2 ^ 106) with (2 ^ 63 * 2 ^ 43).
        apply Z.mul_lt_mono_pos_r; [reflexivity|].
        assert (H1 : 2 ^ 53 * 1000 < 2 ^ 63) by reflexivity. lia. }
    set (l := loc_of_shr_record (rep A B)).
    assert (Hl : shr_record_of_loc (A / B) l = rep A B) by (unfold l, rep; apply loc_of_rep).
    replace (binary_round_aux PyFloat.prec PyFloat.emax false A (-96) loc_Exact)
      with (binary_round_aux PyFloat.prec PyFloat.emax false (A / 1) (-96) loc_Exact)
      by (rewrite Z.div_1_r; reflexivity).
    assert (H1l : shr_record_of_loc (A / 1) loc_Exact = rep A 1)
      by (rewrite Z.div_1_r; apply rep_exact).
    assert (H1e : -96 <= fexp64 (Zdigits2 (A / 1) + -96))
      by (rewrite Z.div_1_r, HdA, fexp64_spec; lia).
    assert (H2e : -43 <= fexp64 (Zdigits2 (A / B) + -43))
      by (rewrite Hdq, fexp64_spec; lia).
    assert (Hval : A * B = A * 1 * 2 ^ (-43 - -96))
      by (unfold B; change (-43 - -96) with 53; lia).
    rewrite (round_same_value false A 1 (-96) loc_Exact A B (-43) l
               HA0 ltac:(lia) HA0 HB H1l Hl H1e H2e ltac:(lia) Hval).
    { rewrite (round_at_exponent false A B (-43) l HA0 HB Hl)
        by (rewrite Hdq; reflexivity).
      destruct (round_nearest_even_cases (shr_m (rep A B)) (loc_of_shr_record (rep A B)))
        as [Hr|Hr].
      * (* rounded down *)
        cbn [rep shr_m] in Hr.
        destruct (A / B) as [|m2|m2] eqn:Hm2; try lia.
        rewrite (finish_canonical false (rep A B) m2 (-43)).
        -- unfold PyFloat.py_int. cbn [cond_Zopp Z.leb Z.opp]. f_equal.
           symmetry. apply (Z.div_unique (Zpos m2) (2 ^ 43) 999 (Zpos m2 - 999 * 2 ^ 43)); lia.
        -- cbn [rep shr_m]. rewrite Hm2. exact Hr.
        -- apply bounded64_spec. split; [|lia]. cbn [Zdigits2] in Hdq. rewrite Hdq. reflexivity.
      * (* rounded up: the rest reached one half *)
        assert (Hup : A / B <= 1000 * 2 ^ 43 - 2).
        { destruct (Z_le_gt_dec (A / B) (1000 * 2 ^ 43 - 2)) as [|Htop]; [assumption|].
          exfalso.
          assert (Hqe : A / B = 1000 * 2 ^ 43 - 1) by lia.
          pose proof (Z.div_mod A B ltac:(lia)) as Hdm. rewrite Hqe in Hdm.
          assert (HR : 2 * (A mod B) < B).
          { unfold B in *. rewrite HA in Hdm |- *.
            assert (Zpos mf * 1000 * 2 ^ 43 <= (2 ^ 53 - 1) * 1000 * 2 ^ 43).
            { apply Z.mul_le_mono_nonneg_r; [apply Z.pow_nonneg; lia|]. lia. }
            set (R := (Zpos mf * 1000 * 2 ^ 43) mod 2 ^ 53) in *.
            assert (Hc24 : 2 * (24 * 2 ^ 43) < 2 ^ 53) by reflexivity.
            assert (R <= 24 * 2 ^ 43); [|lia].
            replace ((2 ^ 53 - 1) * 1000 * 2 ^ 43)
              with (2 ^ 53 * (1000 * 2 ^ 43 - 1) + 24 * 2 ^ 43) in H by reflexivity.
            lia. }
          unfold rep in Hr. cbn [shr_m loc_of_shr_record] in Hr.
          destruct (Z.leb_spec B (2 * (A mod B))) as [|_]; [lia|].
          destruct (negb (A mod B =? 0) && negb (2 * (A mod B) =? B));
            cbn [loc_of_shr_record round_nearest_even] in Hr; lia. }
        cbn [rep shr_m] in Hr.
        destruct (A / B + 1) as [|m2|m2] eqn:Hm2; try lia.
        rewrite (finish_canonical false (rep A B) m2 (-43)).
        -- unfold PyFloat.py_int. cbn [cond_Zopp Z.leb Z.opp]. f_equal.
           symmetry. apply (Z.div_unique (Zpos m2) (2 ^ 43) 999 (Zpos m2 - 999 * 2 ^ 43)); lia.
        -- cbn [rep shr_m]. exact Hr.
        -- apply bounded64_spec. split; [|lia]. rewrite fexp64_spec.
           rewrite (digits2_pos_unique m2 53); [reflexivity|].
           change (2 ^ (53 - 1)) with (2 ^ 52).
           assert (H1 : 2 ^ 52 <= 999 * 2 ^ 43) by (vm_compute; discriminate).
           assert (H2 : 1000 * 2 ^ 43 - 1 < 2 ^ 53) by reflexivity. lia.
    }
Qed.

Lemma millis_in_range f ms :
  nonneg_canonical f -> ticks f < unit_ticks ->
  PyFloat.py_int (PyFloat.fmul f (PyFloat.of_Z 1000)) = Ok ms ->
  0 <= ms <= 999.
Proof.
  intros Hf Hlt Hms. pose proof unit_ticks_pos as HU.
  destruct (good_ticks f Hf) as [_ Hf0].
  destruct (py_int_fmul_1000 f Hf Hlt) as (ms' & Hms' & Hlo & Hhi).
  rewrite Hms in Hms'. injection Hms' as <-.
  assert (Hq0 : 0 <= ticks f * 1000 / unit_ticks) by (apply Z.div_pos; lia).
  destruct (Z_le_gt_dec (ticks f * 1000 / unit_ticks) 998) as [Hsmall|Hbig]; [lia|].
  assert (Hge : 999 * unit_ticks <= ticks f * 1000).
  { pose proof (Z.div_mod (ticks f * 1000) unit_ticks ltac:(lia)) as Hdm.
    pose proof (Z.mod_pos_bound (ticks f * 1000) unit_ticks HU) as HR. nia. }
  rewrite (py_int_fmul_top f Hf Hlt Hge) in Hms. injection Hms as <-. lia.
Qed.

(** *** The width of a padded field *)

Lemma digit_value_range c : is_digit c = true -> 0 <= digit_value c <= 9.
Proof.
  unfold is_digit, digit_value. intros H%bool_decide_eq_true. lia.
Qed.

Lemma digits_value_bound s :
  all_digits s = true -> 0 <= digits_value 0 s < 10 ^ Z.of_nat (str_len s).
Proof.
  unfold str_len. induction s as [|c s IH]; intros Hall.
  - cbn. lia.
  - cbn [all_digits] in Hall. apply andb_prop in Hall as [Hc Hall].
    pose proof (digit_value_range c Hc) as Hdv.
    cbn [digits_value String.length]. rewrite digits_value_shift.
    specialize (IH Hall). unfold str_len.
    rewrite Nat2Z.inj_succ, Z.pow_succ_r by lia.
    assert (0 < 10 ^ Z.of_nat (String.length s)) by (apply Z.pow_pos_nonneg; lia).
    nia.
Qed.

Lemma pretty_width d w :
  0 <= d < 10 ^ Z.of_nat w -> (1 <= w)%nat -> (1 <= str_len (pretty d) <= w)%nat.
Proof.
  intros Hd Hw. destruct (Z.eq_dec d 0) as [->|Hne].
  - change (pretty 0) with "0". cbn. lia.
  - destruct (pretty_digits d ltac:(lia)) as (Hall & Hval & c & t & Hct & Hc0 & Hcd).
    rewrite Hct in *. unfold str_len. cbn [String.length]. split; [lia|].
    cbn [all_digits] in Hall. apply andb_prop in Hall as [_ Hall].
    cbn [digits_value] in Hval. rewrite digits_value_shift in Hval.
    pose proof (digits_value_bound t Hall) as Ht. unfold str_len in Ht.
    pose proof (digit_value_range c Hcd) as Hdv.
    assert (Hc1 : 1 <= digit_value c).
    { destruct (Z.eq_dec (digit_value c) 0) as [Hz|]; [|lia]. exfalso. apply Hc0.
      unfold digit_value in Hz. unfold is_digit in Hcd. apply bool_decide_eq_true in Hcd.
      assert (Hn : nat_of_ascii c = 48%nat) by lia.
      rewrite <- (ascii_nat_embedding c), Hn. reflexivity. }
    destruct (Nat.le_gt_cases (S (String.length t)) w) as [|Hgt]; [assumption|].
    exfalso.
    assert (Hpow : 10 ^ Z.of_nat w <= 10 ^ Z.of_nat (String.length t))
      by (apply Z.pow_le_mono_r; lia).
    unfold str_len in *.
    assert (Hp0 : 0 < 10 ^ Z.of_nat (String.length t)) by (apply Z.pow_pos_nonneg; lia).
    assert (Hlead : 1 * 10 ^ Z.of_nat (String.length t)
                    <= (10 * 0 + digit_value c) * 10 ^ Z.of_nat (String.length t))
      by (apply Z.mul_le_mono_nonneg_r; lia).
    lia.
Qed.

Lemma zfill_width w s : (str_len s <= w)%nat -> str_len (zfill w s) = w.
Proof.
  intros H. unfold zfill. rewrite str_len_app, str_len_zeros. lia.
Qed.

Lemma format_0d_width w z :
  0 <= z < 10 ^ Z.of_nat w -> (1 <= w)%nat -> str_len (format_0d w z) = w.
Proof.
  intros Hz Hw. unfold format_0d. destruct (Z.ltb_spec z 0); [lia|].
  apply zfill_width. apply (pretty_width z w Hz Hw).
Qed.

(** X2: the fields of a timestamp stay in their ranges.  For a non-negative
    finite number of seconds below [2^53] the text is made of the hours, a
    number of minutes from 0 to 59, a number of seconds from 0 to 59 and a
    number of milliseconds from 0 to 999 (the product by 1000 never rounds
    up to 1000); below 100 hours the text has exactly twelve characters. *)
Theorem timestamp_fields_in_range (seconds : PyFloat.float) (fmt : string) :
  nonneg_finite seconds = true ->
  (float_value seconds < inject_Z (2 ^ 53))%Q ->
  exists hours minutes secs millis text,
    format_timestamp seconds fmt = Ok text /\
    text = format_0d 2 hours +:+ ":" +:+ format_0d 2 minutes +:+ ":" +:+
           format_0d 2 secs +:+ (if decide (fmt = "srt") then "," else ".") +:+
           format_0d 3 millis /\
    hours = Qfloor (float_value seconds / 3600) /\
    0 <= hours /\ 0 <= minutes <= 59 /\ 0 <= secs <= 59 /\ 0 <= millis <= 999 /\
    ((float_value seconds < 360000)%Q -> hours <= 99 /\ str_len text = 12%nat).
Proof.
  intros Hx%nonneg_finite_good Hlt.
  pose proof (value_below _ _ Hx Hlt) as Ht.
  pose proof (value_ticks _ Hx) as Hv.
  pose proof unit_ticks_pos as HU.
  destruct (good_ticks seconds Hx) as [_ Ht0].
  destruct (format_timestamp_ticks seconds fmt Hx Ht) as (f & ms & Hf & Htf & Hms & _ & Hfmt).
  cbv zeta in Hfmt. set (t := ticks seconds) in *.
  pose proof (Z.mod_pos_bound t (3600 * unit_ticks) ltac:(lia)) as Hr.
  pose proof (Z.mod_pos_bound t (60 * unit_ticks) ltac:(lia)) as Hs.
  pose proof (Z.mod_pos_bound t unit_ticks ltac:(lia)) as Hfr.
  assert (Hms' : 0 <= ms <= 999).
  { apply (millis_in_range f ms Hf); [rewrite Htf; lia|exact Hms]. }
  assert (Hh : 0 <= t / (3600 * unit_ticks)) by (apply Z.div_pos; lia).
  assert (Hm : 0 <= t mod (3600 * unit_ticks) / (60 * unit_ticks) <= 59).
  { split; [apply Z.div_pos; lia|].
    assert (t mod (3600 * unit_ticks) / (60 * unit_ticks) < 60); [|lia].
    apply Z.div_lt_upper_bound; lia. }
  assert (Hsec : 0 <= t mod (60 * unit_ticks) / unit_ticks <= 59).
  { split; [apply Z.div_pos; lia|].
    assert (t mod (60 * unit_ticks) / unit_ticks < 60); [|lia].
    apply Z.div_lt_upper_bound; lia. }
  eexists _, _, _, ms, _. split; [exact Hfmt|]. split; [reflexivity|].
  split.
  { change 3600%Q with (inject_Z (Zpos 3600)).
    rewrite (Qfloor_div _ t unit_pos 3600 Hv), unit_ticks_pos_eq. reflexivity. }
  split; [exact Hh|]. split; [exact Hm|]. split; [exact Hsec|]. split; [exact Hms'|].
  intros Hsmall.
  assert (Ht' : t < 360000 * unit_ticks).
  { apply (value_below seconds 360000 Hx). exact Hsmall. }
  assert (Hh99 : t / (3600 * unit_ticks) <= 99).
  { assert (t / (3600 * unit_ticks) < 100); [|lia].
    apply Z.div_lt_upper_bound; lia. }
  split; [exact Hh99|].
  rewrite !str_len_app.
  rewrite !(format_0d_width 2) by (change (10 ^ Z.of_nat 2) with 100; lia).
  rewrite (format_0d_width 3) by (change (10 ^ Z.of_nat 3) with 1000; lia).
  case_decide; reflexivity.
Qed.

Lemma timestamp_fields_in_range_witness :
  exists hours minutes secs millis text,
    format_timestamp (PyFloat.of_scaled false 3599999999 (-6)) "vtt" = Ok text /\
    text = format_0d 2 hours +:+ ":" +:+ format_0d 2 minutes +:+ ":" +:+
           format_0d 2 secs +:+ "." +:+ format_0d 3 millis /\
    0 <= minutes <= 59 /\ 0 <= secs <= 59 /\ 0 <= millis <= 999 /\
    str_len text = 12%nat.
Proof.
  destruct (timestamp_fields_in_range (PyFloat.of_scaled false 3599999999 (-6)) "vtt")
    as (h & m & s & ms & text & Hfmt & Htext & _ & _ & Hm & Hs & Hms & Hlen).
  - vm_compute. reflexivity.
  - vm_compute. reflexivity.
  - exists h, m, s, ms, text. split; [exact Hfmt|]. split; [exact Htext|].
    split; [exact Hm|]. split; [exact Hs|]. split; [exact Hms|].
    apply Hlen. vm_compute. reflexivity.
Defined.

(** *** Whole seconds *)

Lemma ticks_zero_float f : nonneg_canonical f -> ticks f = 0 -> f = S754_zero false.
Proof.
  intros [->|(m & e & -> & Hb)] Hz; [reflexivity|].
  pose proof (bounded64_range _ _ Hb) as [He _].
  pose proof (ticks_pos_finite m e (proj1 He)). rewrite ticks_finite in Hz. lia.
Qed.

(** X3: a whole number of seconds.  For an integer [n] from 0 to below
    [2^53], the timestamp of [float(n)] shows [n // 3600] hours,
    [n % 3600 // 60] minutes, [n % 60] seconds and 000 milliseconds. *)
Theorem timestamp_of_whole_seconds (n : Z) (fmt : string) :
  0 <= n < 2 ^ 53 ->
  format_timestamp (PyFloat.of_Z n) fmt
  = Ok (format_0d 2 (n / 3600) +:+ ":" +:+ format_0d 2 (n mod 3600 / 60) +:+ ":" +:+
        format_0d 2 (n mod 60) +:+ (if decide (fmt = "srt") then "," else ".") +:+ "000").
Proof.
  intros Hn. pose proof unit_ticks_pos as HU.
  assert (Hnu : 0 <= n * unit_ticks) by nia.
  destruct (of_ticks_good _ (representable_small n Hn) Hnu) as [Hg Ht].
  rewrite of_Z_ticks by exact Hn.
  assert (Hlt : ticks (of_ticks (n * unit_ticks)) < 2 ^ 53 * unit_ticks) by (rewrite Ht; nia).
  destruct (format_timestamp_ticks _ fmt Hg Hlt) as (f & ms & Hf & Htf & Hms & _ & Hfmt).
  cbv zeta in Hfmt. rewrite Ht in Hfmt, Htf.
  rewrite Z.mod_mul in Htf by lia.
  rewrite (ticks_zero_float f Hf Htf) in Hms.
  change (PyFloat.py_int (PyFloat.fmul (S754_zero false) (PyFloat.of_Z 1000)))
    with (@Ok Z 0) in Hms.
  injection Hms as <-.
  rewrite Hfmt.
  rewrite Z.div_mul_cancel_r by lia.
  rewrite !Z.mul_mod_distr_r by lia.
  rewrite Z.div_mul_cancel_r by lia.
  rewrite Z.div_mul by lia.
  reflexivity.
Qed.

Lemma timestamp_of_whole_seconds_witness :
  format_timestamp (PyFloat.of_Z 86399) "srt" = Ok "23:59:59,000".
Proof.
  rewrite (timestamp_of_whole_seconds 86399 "srt"); [|split; [discriminate|reflexivity]].
  reflexivity.
Defined.

(** ** Times that are not finite *)

Lemma py_int_raises x e :
  PyFloat.py_int x = Raise e -> e = nan_to_integer \/ e = infinity_to_integer.
Proof.
  destruct x as [s|s| |s m ex]; cbn [PyFloat.py_int]; intros H; try discriminate;
    injection H as <-; auto.
Qed.

Lemma py_floordiv_returns x y :
  PyFloat.is_zero y = false -> exists q, PyFloat.py_floordiv x y = Ok q.
Proof. intros Hy. unfold PyFloat.py_floordiv. rewrite Hy. eauto. Qed.

Lemma py_mod_returns x y :
  PyFloat.is_zero y = false -> exists r, PyFloat.py_mod x y = Ok r.
Proof. intros Hy. unfold PyFloat.py_mod. rewrite Hy. eauto. Qed.

(** The only exceptions of [format_timestamp] are those of [int()]. *)
Lemma format_timestamp_raises x fmt e :
  format_timestamp x fmt = Raise e -> e = nan_to_integer \/ e = infinity_to_integer.
Proof.
  unfold format_timestamp.
  destruct (py_floordiv_returns x (PyFloat.of_Z 3600) eq_refl) as [h ->].
  cbn [mbind outcome_bind].
  destruct (PyFloat.py_int h) as [hours|e1] eqn:H1; cbn [mbind outcome_bind];
    [|intros [= <-]; exact (py_int_raises _ _ H1)].
  destruct (py_mod_returns x (PyFloat.of_Z 3600) eq_refl) as [r ->].
  cbn [mbind outcome_bind].
  destruct (py_floordiv_returns r (PyFloat.of_Z 60) eq_refl) as [m ->].
  cbn [mbind outcome_bind].
  destruct (PyFloat.py_int m) as [minutes|e2] eqn:H2; cbn [mbind outcome_bind];
    [|intros [= <-]; exact (py_int_raises _ _ H2)].
  destruct (py_mod_returns x (PyFloat.of_Z 60) eq_refl) as [s ->].
  cbn [mbind outcome_bind].
  destruct (PyFloat.py_int s) as [secs|e3] eqn:H3; cbn [mbind outcome_bind];
    [|intros [= <-]; exact (py_int_raises _ _ H3)].
  destruct (py_mod_returns x (PyFloat.of_Z 1) eq_refl) as [f ->].
  cbn [mbind outcome_bind].
  destruct (PyFloat.py_int (PyFloat.fmul f (PyFloat.of_Z 1000))) as [millis|e4] eqn:H4;
    cbn [mbind outcome_bind]; [|intros [= <-]; exact (py_int_raises _ _ H4)].
  case_decide; discriminate.
Qed.

Lemma format_timestamp_not_finite x fmt :
  is_finite x = false -> format_timestamp x fmt = Raise nan_to_integer.
Proof.
  destruct x as [s|[|]| |s m e]; try discriminate; intros _; reflexivity.
Qed.

Lemma cue_lines_raises fmt sentences :
  forall i e, cue_lines fmt i sentences = Raise e ->
    e = nan_to_integer \/ e = infinity_to_integer.
Proof.
  induction sentences as [|s rest IH]; intros i e; cbn [cue_lines]; [discriminate|].
  destruct (format_timestamp (s_start s) fmt) as [a|e1] eqn:H1; cbn [mbind outcome_bind];
    [|intros [= <-]; exact (format_timestamp_raises _ _ _ H1)].
  destruct (format_timestamp (s_end s) fmt) as [b|e2] eqn:H2; cbn [mbind outcome_bind];
    [|intros [= <-]; exact (format_timestamp_raises _ _ _ H2)].
  destruct (cue_lines fmt (S i) rest) as [more|e3] eqn:H3; cbn [mbind outcome_bind];
    [discriminate|intros [= <-]; exact (IH _ _ H3)].
Qed.

Lemma cue_lines_not_finite fmt sentences :
  Exists (fun s => is_finite (s_start s) = false \/ is_finite (s_end s) = false) sentences ->
  forall i, exists e, cue_lines fmt i sentences = Raise e.
Proof.
  induction 1 as [s rest [Hs|He]|s rest _ IH]; intros i; cbn [cue_lines].
  - rewrite (format_timestamp_not_finite _ fmt Hs). cbn [mbind outcome_bind]. eauto.
  - destruct (format_timestamp (s_start s) fmt) as [a|e1]; cbn [mbind outcome_bind]; [|eauto].
    rewrite (format_timestamp_not_finite _ fmt He). cbn [mbind outcome_bind]. eauto.
  - destruct (format_timestamp (s_start s) fmt) as [a|e1]; cbn [mbind outcome_bind]; [|eauto].
    destruct (format_timestamp (s_end s) fmt) as [b|e2]; cbn [mbind outcome_bind]; [|eauto].
    destruct (IH (S i)) as [e ->]. cbn [mbind outcome_bind]. eauto.
Qed.

(** X4: subtitles need finite times.  When a sentence starts or ends at
    NaN or at an infinity, formatting as srt or vtt raises, with the
    ValueError or the OverflowError of [int()], and gives no text; the
    formats txt and json give their text for the same transcript. *)
Theorem subtitles_need_finite_times (result : TranscriptResult) (fmt : string) :
  fmt = "srt" \/ fmt = "vtt" ->
  Exists (fun s => is_finite (s_start s) = false \/ is_finite (s_end s) = false)
    (r_sentences result) ->
  (exists e, format_output result fmt = Raise e /\
             (e = nan_to_integer \/ e = infinity_to_integer)) /\
  format_output result "txt" = Ok (r_text result) /\
  exists text, format_output result "json" = Ok text.
Proof.
  intros Hfmt Hbad. split; [|split; [reflexivity|eexists; reflexivity]].
  destruct (cue_lines_not_finite fmt _ Hbad 1%nat) as [e He].
  exists e. split; [|exact (cue_lines_raises _ _ _ _ He)].
  unfold format_output.
  rewrite decide_False by (destruct Hfmt as [-> | ->]; discriminate).
  rewrite decide_False by (destruct Hfmt as [-> | ->]; discriminate).
  rewrite decide_True by exact Hfmt.
  cbv zeta. rewrite He. reflexivity.
Qed.

Lemma subtitles_need_finite_times_witness :
  format_output open_ended "srt" = Raise nan_to_integer /\
  format_output open_ended "txt" = Ok "Hello".
Proof.
  destruct (subtitles_need_finite_times open_ended "srt") as ([e [He _]] & Htxt & _).
  - left. reflexivity.
  - constructor. right. reflexivity.
  - split; [|exact Htxt]. rewrite He.
    assert (Hc : format_output open_ended "srt" = Raise nan_to_integer)
      by (vm_compute; reflexivity).
    rewrite He in Hc. exact Hc.
Defined.

(** ** The layout of subtitles *)

Lemma str_join_block nl a b c more :
  str_join nl (a :: b :: c :: "" :: more)
  = str_join nl ((a +:+ nl +:+ b +:+ nl +:+ c +:+ nl) ::
                 match more with [] => [] | _ => [str_join nl more] end).
Proof.
  destruct more as [|x more].
  - cbn [str_join]. rewrite str_app_empty_r. reflexivity.
  - cbn [str_join]. rewrite !str_app_assoc, app_empty_l. reflexivity.
Qed.

Lemma str_join_two nl x rest :
  str_join nl (x :: match rest with [] => [] | _ => [str_join nl rest] end)
  = str_join nl (x :: rest).
Proof. destruct rest as [|y rest]; reflexivity. Qed.

Lemma cue_lines_blocks fmt sentences :
  forall i cues,
    cue_lines fmt i sentences = Ok cues ->
    exists blocks,
      cue_blocks fmt i sentences blocks /\
      (cues = [] <-> blocks = []) /\
      str_join newline cues = str_join newline blocks.
Proof.
  induction sentences as [|s rest IH]; intros i cues; cbn [cue_lines].
  - intros [= <-]. exists []. split; [constructor|]. split; [tauto|reflexivity].
  - destruct (format_timestamp (s_start s) fmt) as [a|e1] eqn:H1; cbn [mbind outcome_bind];
      [|discriminate].
    destruct (format_timestamp (s_end s) fmt) as [b|e2] eqn:H2; cbn [mbind outcome_bind];
      [|discriminate].
    destruct (cue_lines fmt (S i) rest) as [more|e3] eqn:H3; cbn [mbind outcome_bind];
      [|discriminate].
    intros [= <-].
    destruct (IH (S i) more H3) as (blocks & Hblocks & Hempty & Hjoin).
    exists (cue_block i (a +:+ " --> " +:+ b) (s_text s) :: blocks).
    split; [econstructor; eassumption|]. split; [split; discriminate|].
    rewrite str_join_block. unfold cue_block.
    destruct more as [|x more].
    + destruct blocks as [|y blocks]; [|destruct Hempty as [He _]; discriminate (He eq_refl)].
      cbn [str_join]. rewrite !str_app_assoc. reflexivity.
    + destruct blocks as [|y blocks]; [destruct Hempty as [_ He]; discriminate (He eq_refl)|].
      rewrite Hjoin. cbn [str_join]. rewrite !str_app_assoc. reflexivity.
Qed.

Lemma format_timestamp_returns x fmt :
  nonneg_finite x = true -> (float_value x < inject_Z (2 ^ 53))%Q ->
  exists text, format_timestamp x fmt = Ok text.
Proof.
  intros Hx%nonneg_finite_good Hlt.
  pose proof (value_below _ _ Hx Hlt) as Ht.
  destruct (format_timestamp_ticks x fmt Hx Ht) as (f & ms & _ & _ & _ & _ & Hfmt).
  eauto.
Qed.

Lemma cue_lines_return fmt sentences :
  ordinary_times sentences -> forall i, exists cues, cue_lines fmt i sentences = Ok cues.
Proof.
  induction 1 as [|s rest [[Hs1 Hs2] [He1 He2]] _ IH]; intros i; cbn [cue_lines].
  - eauto.
  - destruct (format_timestamp_returns _ fmt Hs1 Hs2) as [a ->].
    destruct (format_timestamp_returns _ fmt He1 He2) as [b ->].
    destruct (IH (S i)) as [more ->]. cbn [mbind outcome_bind]. eauto.
Qed.

(** X5: the layout of subtitles.  Whenever srt or vtt formatting returns a
    text, the text is the blocks of the sentences, numbered from 1 in the
    order of the transcript, each block being the counter, the time range
    and the sentence on three lines; the blocks are separated by exactly
    one empty line and nothing follows the newline that ends the last
    block.  For vtt the text starts with the line WEBVTT and an empty line.
    Without sentences srt gives the empty text and vtt the line WEBVTT.
    Formatting does return a text when all times are ordinary
    timestamps. *)
Theorem subtitle_layout (result : TranscriptResult) (fmt : string) :
  fmt = "srt" \/ fmt = "vtt" ->
  (forall text,
     format_output result fmt = Ok text ->
     exists blocks,
       cue_blocks fmt 1 (r_sentences result) blocks /\
       text =
         (if decide (fmt = "vtt")
          then "WEBVTT" +:+ newline +:+ match blocks with [] => "" | _ => newline end
          else "") +:+ str_join newline blocks) /\
  (r_sentences result = [] ->
   format_output result fmt = Ok (if decide (fmt = "vtt") then "WEBVTT" +:+ newline else "")) /\
  (ordinary_times (r_sentences result) -> exists text, format_output result fmt = Ok text).
Proof.
  intros Hfmt.
  assert (Hout : format_output result fmt
                 = (cues ← cue_lines fmt 1 (r_sentences result);
                    Ok (str_join newline
                          ((if decide (fmt = "vtt") then ["WEBVTT" +:+ newline] else [])
                           ++ cues)))).
  { unfold format_output.
    rewrite decide_False by (destruct Hfmt as [-> | ->]; discriminate).
    rewrite decide_False by (destruct Hfmt as [-> | ->]; discriminate).
    rewrite decide_True by exact Hfmt. reflexivity. }
  split; [|split].
  - intros text. rewrite Hout.
    destruct (cue_lines fmt 1 (r_sentences result)) as [cues|e] eqn:Hc;
      cbn [mbind outcome_bind]; [|discriminate].
    intros [= <-].
    destruct (cue_lines_blocks fmt _ _ _ Hc) as (blocks & Hblocks & Hempty & Hjoin).
    exists blocks. split; [exact Hblocks|].
    destruct (decide (fmt = "vtt")) as [_|_].
    + destruct cues as [|c cues].
      * destruct blocks as [|b blocks]; [reflexivity|].
        destruct Hempty as [He _]. discriminate (He eq_refl).
      * destruct blocks as [|b blocks]; [destruct Hempty as [_ He]; discriminate (He eq_refl)|].
        cbn [app]. rewrite str_join_cons, Hjoin, !str_app_assoc. reflexivity.
    + rewrite app_nil_l, app_empty_l. exact Hjoin.
  - intros Hnil. rewrite Hout, Hnil. cbn [cue_lines mbind outcome_bind].
    rewrite app_nil_r. destruct (decide (fmt = "vtt")); reflexivity.
  - intros Hord. rewrite Hout.
    destruct (cue_lines_return fmt _ Hord 1%nat) as [cues ->].
    cbn [mbind outcome_bind]. eauto.
Qed.

Lemma subtitle_layout_witness :
  format_output hello_world "vtt"
  = Ok ("WEBVTT" +:+ newline +:+ newline +:+
        cue_block 1 "00:00:00.000 --> 00:00:01.500" "Hello" +:+ newline +:+
        cue_block 2 "00:00:01.500 --> 00:00:03.000" "World").
Proof.
  destruct (subtitle_layout hello_world "vtt") as (Hlayout & _ & Hreturns).
  - right. reflexivity.
  - destruct Hreturns as [text Htext].
    + repeat constructor.
    + destruct (Hlayout text Htext) as (blocks & Hblocks & ->). rewrite Htext.
      assert (Hc : format_output hello_world "vtt"
                   = Ok ("WEBVTT" +:+ newline +:+ newline +:+
                         cue_block 1 "00:00:00.000 --> 00:00:01.500" "Hello" +:+ newline +:+
                         cue_block 2 "00:00:01.500 --> 00:00:03.000" "World"))
        by (vm_compute; reflexivity).
      rewrite Htext in Hc. exact Hc.
Defined.

(** ** Runs of the whole program *)

Lemma transcribe_quiet env p out fmt w r w' :
  transcribe env p out fmt true w = (r, w') -> w_stderr w' = w_stderr w.
Proof.
  unfold transcribe, eprint_unless, called, print, stored.
  destruct (env_transcribe env _ _) as [result|e].
  - destruct (format_output result fmt) as [content|e]; [|intros [= <- <-]; reflexivity].
    destruct (write_text _ out content) as [fs'|e]; intros [= <- <-]; reflexivity.
  - destruct (exn_is_exception e); intros [= <- <-]; reflexivity.
Qed.

Lemma batch_quiet env args paths :
  a_quiet args = true ->
  forall success w ending w',
    batch env args paths success w = (ending, w') -> w_stderr w' = w_stderr w.
Proof.
  intros Hq. induction paths as [|p rest IH]; intros success w ending w'; cbn [batch].
  - intros [= <- <-]. reflexivity.
  - destruct (get_output_path _ p _ _) as [[out|e]|];
      [|intros [= <- <-]; reflexivity|intros [= <- <-]; reflexivity].
    rewrite Hq.
    destruct (transcribe env p out (a_format args) true w) as [[ok|e] w1] eqn:Ht.
    + intros Hb. rewrite (IH _ _ _ _ Hb). exact (transcribe_quiet _ _ _ _ _ _ _ Ht).
    + intros [= <- <-]. exact (transcribe_quiet _ _ _ _ _ _ _ Ht).
Qed.


Lemma missing_inputs_none fs paths :
  missing_inputs fs paths = Ok [] -> Forall (fun p => path_exists fs p = Ok true) paths.
Proof.
  induction paths as [|p ps IH]; cbn [missing_inputs]; [constructor|].
  destruct (path_exists fs p) as [[|]|e] eqn:Hp; cbn [mbind outcome_bind];
    [| |discriminate];
    destruct (missing_inputs fs ps) as [ms|e]; cbn [mbind outcome_bind];
    try discriminate.
  intros [= ->]. constructor; [exact Hp|apply IH; reflexivity].
Qed.

Lemma missing_inputs_raise fs paths e :
  missing_inputs fs paths = Raise e -> probe_error e.
Proof.
  induction paths as [|p ps IH]; cbn [missing_inputs]; [discriminate|].
  destruct (path_exists fs p) as [b|e'] eqn:Hp; cbn [mbind outcome_bind].
  - destruct (missing_inputs fs ps) as [ms|e'']; cbn [mbind outcome_bind];
      [discriminate|].
    intros [= <-]. apply IH. reflexivity.
  - intros [= <-]. eexists. eapply path_exists_raise. exact Hp.
Qed.

Lemma output_not_dir_raise fs output e :
  output_not_dir fs output = Raise e -> probe_error e.
Proof.
  unfold output_not_dir. destruct (given output) as [out|]; [|discriminate].
  destruct (path_is_dir fs (Path_of out)) as [b|e'] eqn:Hdir; cbn [mbind outcome_bind];
    [discriminate|].
  intros [= <-]. eexists. eapply path_is_dir_raise. exact Hdir.
Qed.

(** The run of [main], step by step: it stops on one of its checks with
    status 1, or on a check that raises, or goes on to load the model. *)
Lemma main_cases env args w :
  let inputs := expand_paths env (w_fs w) (a_input args) in
  (exists w', main env args w = (Exit 1, w') /\
     w_fs w' = w_fs w /\ w_stdout w' = w_stdout w /\ w_calls w' = w_calls w /\
     (a_quiet args = true -> w_stderr w' = w_stderr w)) \/
  (exists e, main env args w = (Uncaught e, w) /\ probe_error e) \/
  (inputs <> [] /\ Forall (fun p => path_exists (w_fs w) p = Ok true) inputs /\
   main env args w
   = match env_load env with
     | Some e => (Uncaught e, before_loading env args w)
     | None => batch env args inputs true (before_loading env args w)
     end).
Proof.
  intros inputs. unfold main. fold inputs.
  destruct inputs as [|p ps] eqn:Hin.
  { left. eexists. split; [reflexivity|]. unfold eprint_unless.
    destruct (a_quiet args); simpl; repeat split; try reflexivity; discriminate. }
  destruct (missing_inputs (w_fs w) (p :: ps)) as [[|m ms]|e] eqn:Hmiss.
  3:{ right. left. exists e. split; [reflexivity|].
      eapply missing_inputs_raise. exact Hmiss. }
  2:{ left. eexists. split; [reflexivity|]. rewrite report_missing_spec.
      cbn [w_fs w_stdout w_calls w_stderr]. repeat split.
      intros ->. rewrite app_nil_r. reflexivity. }
  destruct (if (1 <? length (p :: ps))%nat
            then output_not_dir (w_fs w) (a_output args) else Ok false)
    as [[|]|e] eqn:Hcheck.
  3:{ right. left. exists e. split; [reflexivity|].
      destruct (1 <? length (p :: ps))%nat; [|discriminate].
      eapply output_not_dir_raise. exact Hcheck. }
  { left. eexists. split; [reflexivity|]. unfold eprint_unless.
    destruct (a_quiet args); simpl; repeat split; try reflexivity; discriminate. }
  right. right. split; [discriminate|]. split; [apply missing_inputs_none, Hmiss|].
  assert (Hw : (if negb (a_quiet args) && negb (env_cached env)
                then eprint ("Model not found locally. Downloading " +:+ MODEL_ID +:+ "...") w
                else w) = before_loading env args w).
  { unfold before_loading, eprint, download_notice.
    destruct (negb (a_quiet args) && negb (env_cached env)); [reflexivity|].
    rewrite app_nil_r. destruct w; reflexivity. }
  rewrite Hw. reflexivity.
Qed.

(** X6: a quiet run prints nothing on standard error.  With [-q],
    whatever the inputs, the collaborators and the file system do, and
    however the run ends, [main] adds no line to standard error.  What the
    interpreter reports about an exception that nobody caught comes after
    [main] and is not counted. *)
Theorem quiet_run_is_silent (env : Env) (args : Args) (w : World)
    (ending : ending) (w' : World) :
  a_quiet args = true ->
  main env args w = (ending, w') ->
  w_stderr w' = w_stderr w.
Proof.
  intros Hq Hmain.
  destruct (main_cases env args w) as [(w1 & H1 & _ & _ & _ & Herr)|[(e & H1 & _)|(_ & _ & H2)]].
  - rewrite H1 in Hmain. injection Hmain as <- <-. exact (Herr Hq).
  - rewrite H1 in Hmain. injection Hmain as <- <-. reflexivity.
  - rewrite H2 in Hmain.
    assert (Hw : w_stderr (before_loading env args w) = w_stderr w).
    { unfold before_loading. cbn [w_stderr]. rewrite Hq. cbn [negb andb].
      apply app_nil_r. }
    destruct (env_load env); [injection Hmain as <- <-; exact Hw|].
    rewrite <- Hw. eapply batch_quiet; eassumption.
Qed.

Lemma quiet_run_is_silent_witness :
  let run := main data_env quiet_args (mkWorld data_fs [] ["earlier"] []) in
  fst run = Exit 1 /\ w_stderr (snd run) = ["earlier"] /\
  w_stdout (snd run) = ["/data/a.txt"; "/data/c.txt"].
Proof.
  intros run. split; [vm_compute; reflexivity|]. split.
  - apply (quiet_run_is_silent data_env quiet_args (mkWorld data_fs [] ["earlier"] [])
             (fst run) (snd run)); [reflexivity|apply surjective_pairing].
  - vm_compute. reflexivity.
Defined.

(** One input either stores one transcript in the place it was given and
    prints that place, or leaves the files and the standard output as
    they are. *)
Lemma transcribe_effect env p out fmt quiet w r w' :
  transcribe env p out fmt quiet w = (r, w') ->
  (r = Ok true /\
   (exists content, write_text (w_fs w) out content = Ok (w_fs w')) /\
   w_stdout w' = w_stdout w ++ [path_str out]) \/
  (r <> Ok true /\ w_fs w' = w_fs w /\ w_stdout w' = w_stdout w).
Proof.
  unfold transcribe, eprint_unless, eprint, called, print, stored.
  destruct (env_transcribe env _ _) as [result|e].
  - destruct (format_output result fmt) as [content|e].
    + destruct quiet; cbn [w_fs w_stdout w_stderr w_calls];
        destruct (write_text (w_fs w) out content) as [fs'|e] eqn:Hw;
        intros [= <- <-]; cbn [w_fs w_stdout];
        solve [left; split; [reflexivity|]; split; [eauto|reflexivity]
              |right; split; [discriminate|]; split; reflexivity].
    + destruct quiet; intros [= <- <-]; right; split; try discriminate; split; reflexivity.
  - destruct (exn_is_exception e), quiet; intros [= <- <-]; right;
      split; try discriminate; split; reflexivity.
Qed.

(** The files of a batch: every file that was there keeps its content, and
    the places printed are new, there afterwards, and no two the same. *)
Lemma batch_files env args paths :
  forall success w ending w',
    Forall (fun p => wf_path p = true) paths ->
    batch env args paths success w = (ending, w') ->
    fs_extends (w_fs w) (w_fs w') /\
    (ending <> Diverge ->
     exists outs,
       w_stdout w' = w_stdout w ++ map path_str outs /\
       NoDup outs /\
       Forall (fun o => path_exists (w_fs w) o = Ok false /\
                        path_exists (w_fs w') o = Ok true) outs).
Proof.
  assert (Hnone : forall w, exists outs : list Path,
            w_stdout w = w_stdout w ++ map path_str outs /\
            NoDup outs /\
            Forall (fun o => path_exists (w_fs w) o = Ok false /\
                             path_exists (w_fs w) o = Ok true) outs).
  { intros w. exists []. rewrite app_nil_r. split; [reflexivity|]. split; constructor. }
  induction paths as [|p rest IH]; intros success w ending w' Hwf; cbn [batch].
  - intros [= <- <-]. split; [apply fs_extends_refl|]. intros _. apply Hnone.
  - inversion Hwf as [|? ? Hp Hrest]; subst.
    destruct (get_output_path_fresh (w_fs w) p (a_output args) (a_format args) Hp)
      as (r0 & -> & Hr0).
    destruct r0 as [out|e0];
      [|intros [= <- <-]; split; [apply fs_extends_refl|intros _; apply Hnone]].
    rename Hr0 into Hfresh.
    destruct (transcribe env p out (a_format args) (a_quiet args) w) as [r w1] eqn:Ht.
    destruct (transcribe_effect _ _ _ _ _ _ _ _ Ht)
      as [(-> & (content & Hwrite) & Hout)|(Hr & Hfs & Hout)].
    + destruct (write_text_new _ _ _ _ Hfresh Hwrite) as [Hext Hfile].
      apply file_content_exists in Hfile.
      intros Hb. apply IH in Hb as [Hext' Houts]; [|exact Hrest].
      split; [eapply fs_extends_trans; eassumption|]. intros Hend.
      destruct (Houts Hend) as (outs & Hstd & Hnd & Hall).
      exists (out :: outs). split; [rewrite Hstd, Hout, <- app_assoc; reflexivity|].
      split.
      * constructor; [|exact Hnd]. intros Hin.
        rewrite Forall_forall in Hall. destruct (Hall _ Hin) as [Hnew _]. congruence.
      * constructor.
        -- split; [exact Hfresh|]. eapply path_exists_extends; eassumption.
        -- eapply Forall_impl; [exact Hall|]. intros o [Hnew Hthere].
           split; [|exact Hthere]. eapply path_missing_before; eassumption.
    + destruct r as [[|]|e].
      * exfalso. apply Hr. reflexivity.
      * rewrite <- Hfs, <- Hout. apply IH. exact Hrest.
      * intros [= <- <-]. rewrite Hfs, Hout. split; [apply fs_extends_refl|].
        intros _. rewrite <- Hfs, <- Hout. apply Hnone.
Qed.

(** X7: a run never touches a file that is there.  Whatever happens, every
    file of the file system before the run is there after it with the same
    content; and when the run ends with a status, the lines on standard
    output are the places of the files it made, each one a place where
    nothing was before and where something is now, and no two the same. *)
Theorem existing_files_are_kept (env : Env) (args : Args) (w : World)
    (ending : ending) (w' : World) :
  main env args w = (ending, w') ->
  (forall p content,
      file_content (w_fs w) p = Some content ->
      file_content (w_fs w') p = Some content) /\
  (forall code, ending = Exit code ->
     exists outs,
       w_stdout w' = w_stdout w ++ map path_str outs /\
       NoDup outs /\
       Forall (fun o => path_exists (w_fs w) o = Ok false /\
                        path_exists (w_fs w') o = Ok true) outs).
Proof.
  intros Hmain.
  assert (H : fs_extends (w_fs w) (w_fs w') /\
              (ending <> Diverge ->
               exists outs,
                 w_stdout w' = w_stdout w ++ map path_str outs /\
                 NoDup outs /\
                 Forall (fun o => path_exists (w_fs w) o = Ok false /\
                                  path_exists (w_fs w') o = Ok true) outs)).
  { assert (Hnone : forall w0, w_fs w0 = w_fs w -> w_stdout w0 = w_stdout w ->
              fs_extends (w_fs w) (w_fs w0) /\
              (ending <> Diverge ->
               exists outs,
                 w_stdout w0 = w_stdout w ++ map path_str outs /\
                 NoDup outs /\
                 Forall (fun o => path_exists (w_fs w) o = Ok false /\
                                  path_exists (w_fs w0) o = Ok true) outs)).
    { intros w0 Hfs Hout. rewrite Hfs, Hout. split; [apply fs_extends_refl|].
      intros _. exists []. rewrite app_nil_r. split; [reflexivity|]. split; constructor. }
    destruct (main_cases env args w)
      as [(w1 & H1 & Hfs & Hout & _)|[(e & H1 & _)|(_ & _ & H2)]].
    - rewrite H1 in Hmain. injection Hmain as <- <-. apply Hnone; assumption.
    - rewrite H1 in Hmain. injection Hmain as <- <-. apply Hnone; reflexivity.
    - rewrite H2 in Hmain. destruct (env_load env) as [e|].
      + injection Hmain as <- <-. apply Hnone; reflexivity.
      + apply batch_files in Hmain; [|apply expand_paths_wf]. exact Hmain. }
  destruct H as [Hext Houts]. split.
  - intros p content. apply file_content_extends. exact Hext.
  - intros code ->. apply Houts. discriminate.
Qed.

Lemma existing_files_are_kept_witness :
  let run := main data_env taken_args (mkWorld taken_fs [] [] []) in
  fst run = Exit 0 /\
  w_stdout (snd run) = ["/data/a-2.txt"] /\
  file_content (w_fs (snd run)) (Path_of "/data/a.txt") = Some "first" /\
  file_content (w_fs (snd run)) (Path_of "/data/a-1.txt") = Some "second" /\
  file_content (w_fs (snd run)) (Path_of "/data/a-2.txt") = Some "Hello World".
Proof.
  intros run.
  destruct (existing_files_are_kept data_env taken_args (mkWorld taken_fs [] [] [])
              (fst run) (snd run) (surjective_pairing _)) as [Hkept _].
  split; [vm_compute; reflexivity|]. split; [vm_compute; reflexivity|].
  split; [apply Hkept; vm_compute; reflexivity|].
  split; [apply Hkept; vm_compute; reflexivity|].
  vm_compute. reflexivity.
Defined.

Lemma sorted_empty names : sorted names = [] -> names = [].
Proof.
  unfold sorted. intros H.
  apply Permutation_nil_r. rewrite <- H. symmetry. apply merge_sort_Permutation.
Qed.

Lemma expand_paths_nil env fs patterns :
  expand_paths env fs patterns = [] <->
  Forall (fun pattern => has_glob_char pattern = true /\ env_glob env pattern = [])
    patterns.
Proof.
  induction patterns as [|pattern rest IH]; cbn [expand_paths].
  - split; [constructor|reflexivity].
  - split.
    + intros [Hhead Hrest]%app_eq_nil. constructor; [|apply IH, Hrest].
      destruct (has_glob_char pattern); [|discriminate]. split; [reflexivity|].
      apply fmap_nil_inv in Hhead. apply sorted_empty, Hhead.
    + intros H. inversion H as [|? ? [Hglob Hnone] Hrest]; subst.
      rewrite Hglob, Hnone. apply IH in Hrest. rewrite Hrest. reflexivity.
Qed.

(** X8: a run without inputs.  The expansion of the patterns is empty
    exactly when every pattern has a glob character and glob finds nothing
    for it (a pattern without one always gives a path); the run then ends
    with status 1 and the one line [Error: No matching files found] on
    standard error, nothing when quiet, before anything else is done. *)
Theorem nothing_matches (env : Env) (args : Args) (w : World) :
  (expand_paths env (w_fs w) (a_input args) = [] <->
   Forall (fun pattern => has_glob_char pattern = true /\ env_glob env pattern = [])
     (a_input args)) /\
  (Forall (fun pattern => has_glob_char pattern = true /\ env_glob env pattern = [])
     (a_input args) ->
   main env args w
   = (Exit 1,
      mkWorld (w_fs w) (w_stdout w)
        (w_stderr w ++ (if a_quiet args then [] else ["Error: No matching files found"]))
        (w_calls w))).
Proof.
  split; [apply expand_paths_nil|].
  intros H. apply (proj2 (expand_paths_nil env (w_fs w) (a_input args))) in H.
  unfold main. rewrite H.
  unfold eprint_unless, eprint. destruct (a_quiet args); [|reflexivity].
  rewrite app_nil_r. destruct w; reflexivity.
Qed.

Lemma nothing_matches_witness :
  main data_env (mkArgs ["*.wav"; "take[1].mp3"] None "srt" false)
    (mkWorld data_fs [] [] [])
  = (Exit 1, mkWorld data_fs [] ["Error: No matching files found"] []).
Proof.
  apply (nothing_matches data_env (mkArgs ["*.wav"; "take[1].mp3"] None "srt" false)
           (mkWorld data_fs [] [] [])).
  repeat constructor.
Defined.



Lemma successes_all {A} (l : list (outcome A)) :
  forallb is_ok l = true -> l = map Ok (successes l).
Proof.
  induction l as [|[a|e] l IH]; simpl; [reflexivity| |discriminate].
  intros H. rewrite <- (IH H). reflexivity.
Qed.

Lemma answers_length env calls paths : length (answers env calls paths) = length paths.
Proof.
  revert calls. induction paths as [|p ps IH]; intros calls; simpl; [reflexivity|].
  rewrite IH. reflexivity.
Qed.



(** X11: what status 0 stands for.  When a run ends with status 0, the
    patterns gave at least one input, every input was there, the model was
    called once for each of them in order and returned a transcript each
    time, and standard output has one line per input: the place of a file
    that was not there before and now holds that input's transcript in
    the chosen format. *)
Theorem status_zero_means_all_written (env : Env) (args : Args) (w w' : World) :
  main env args w = (Exit 0, w') ->
  let inputs := expand_paths env (w_fs w) (a_input args) in
  inputs <> [] /\
  Forall (fun p => path_exists (w_fs w) p = Ok true) inputs /\
  w_calls w' = w_calls w ++ map path_str inputs /\
  exists results outs,
    answers env (w_calls w) inputs = map Ok results /\
    length results = length inputs /\
    w_stdout w' = w_stdout w ++ map path_str outs /\
    Forall2 (written (w_fs w) (w_fs w') (a_format args)) outs results.
Proof.
  intros Hmain inputs.
  destruct (main_cases env args w) as [(w1 & H1 & _)|[(e1 & H1 & _)|(Hne & Hall & H2)]].
  { rewrite H1 in Hmain. discriminate. }
  { rewrite H1 in Hmain. discriminate. }
  fold inputs in Hne, Hall, H2. rewrite H2 in Hmain.
  destruct (env_load env); [discriminate|].
  apply batch_spec in Hmain as [_ Hspec]; [|apply expand_paths_wf].
  cbn [before_loading w_calls w_fs w_stdout] in Hspec.
  destruct Hspec as (Hcode & _ & Hcalls & _ & outs & Hout & Hfiles).
  split; [exact Hne|]. split; [exact Hall|]. split; [exact Hcalls|].
  destruct (forallb is_ok (answers env (w_calls w) inputs)) eqn:Hok;
    [|simpl in Hcode; discriminate].
  exists (successes (answers env (w_calls w) inputs)), outs.
  split; [apply successes_all, Hok|].
  split; [|split; [exact Hout|exact Hfiles]].
  rewrite <- (answers_length env (w_calls w) inputs).
  rewrite (successes_all _ Hok) at 2. rewrite length_map. reflexivity.
Qed.

Lemma status_zero_means_all_written_witness :
  let w := mkWorld data_fs [] [] [] in
  let args := mkArgs ["a.mp3"; "c.mp3"] (Some "") "vtt" false in
  let w' := snd (main data_env args w) in
  w_calls w' = ["/data/a.mp3"; "/data/c.mp3"] /\
  w_stdout w' = ["/data/a.vtt"; "/data/c.vtt"].
Proof.
  intros w args w'.
  destruct (status_zero_means_all_written data_env args w w')
    as (_ & _ & Hcalls & _).
  { vm_compute. reflexivity. }
  split; [exact Hcalls|]. vm_compute. reflexivity.
Defined.


(** ** Where the output goes *)








Section Derived.
Variables (dir : Path) (stem e : string).
Hypothesis stem_named : stem <> "".
Hypothesis stem_plain : str_contains "/" stem = false.
Hypothesis e_letters : e <> "".
Hypothesis e_no_dot : str_contains "." e = false.
Hypothesis e_plain : str_contains "/" e = false.



End Derived.



(** ** The inputs of a run *)

Lemma removelast_Forall {A} (P : A -> Prop) l : Forall P l -> Forall P (removelast l).
Proof.
  destruct l as [|x l _] using rev_ind; [auto|].
  rewrite removelast_last. intros [H _]%Forall_app. exact H.
Qed.

Lemma normalize_no_dotdot acc parts :
  Forall (fun c => c <> "..") acc -> Forall (fun c => c <> "..") (normalize acc parts).
Proof.
  revert acc. induction parts as [|c parts IH]; intros acc Hacc; cbn [normalize]; [exact Hacc|].
  case_decide as Hc.
  - apply IH, removelast_Forall, Hacc.
  - apply IH, Forall_app. split; [exact Hacc|]. constructor; [exact Hc|constructor].
Qed.

Lemma normalize_plain acc parts :
  Forall (fun c => c <> "..") parts -> normalize acc parts = acc ++ parts.
Proof.
  revert acc. induction parts as [|c parts IH]; intros acc H; cbn [normalize].
  - rewrite app_nil_r. reflexivity.
  - inversion H as [|? ? Hc Hrest]; subst. rewrite decide_False by exact Hc.
    rewrite (IH _ Hrest), <- app_assoc. reflexivity.
Qed.

Lemma is_component_plain c : is_component c = true -> c <> "" /\ c <> "." /\ str_contains "/" c = false.
Proof.
  unfold is_component, keep_segment.
  intros [[H1 H2]%andb_prop H3]%andb_prop.
  apply negb_true_iff, bool_decide_eq_false in H1.
  apply negb_true_iff, bool_decide_eq_false in H2.
  apply negb_true_iff in H3. auto.
Qed.

Lemma resolve_plain fs p :
  wf_path p = true -> Forall plain_component (p_parts (resolve fs p)).
Proof.
  intros Hwf. pose proof (resolve_wf fs p Hwf) as Hres.
  unfold wf_path in Hres. rewrite forallb_forall in Hres.
  pose proof (normalize_no_dotdot [] (abs_parts fs p) (Forall_nil_2 _)) as Hdd.
  rewrite Forall_forall in Hdd. apply Forall_forall. intros c Hc.
  destruct (is_component_plain c (Hres c (proj1 (list_elem_of_In _ _) Hc))) as (H1 & H2 & H3).
  unfold plain_component. split; [exact H1|]. split; [exact H2|].
  split; [apply Hdd, Hc|exact H3].
Qed.

Lemma str_split_cons c rest :
  str_contains "/" c = false ->
  str_split "/" (c +:+ "/" +:+ rest) = c :: str_split "/" rest.
Proof.
  induction c as [|x c IH]; intros Hc.
  - rewrite app_empty_l. change ("/" +:+ rest) with (String "/" rest).
    reflexivity.
  - rewrite app_String. cbn [str_split]. cbn [str_contains] in Hc.
    destruct (decide (x = "/"%char)) as [Hx|Hx]; [discriminate|].
    rewrite (IH Hc). reflexivity.
Qed.

Lemma str_split_join parts :
  parts <> [] -> Forall (fun c => str_contains "/" c = false) parts ->
  str_split "/" (str_join "/" parts) = parts.
Proof.
  induction parts as [|c parts IH]; intros Hne Hall; [contradiction|].
  inversion Hall as [|? ? Hc Hrest]; subst.
  destruct parts as [|d parts].
  - cbn [str_join]. apply str_split_plain, Hc.
  - rewrite str_join_cons. rewrite (str_split_cons _ _ Hc).
    rewrite IH; [reflexivity|discriminate|exact Hrest].
Qed.

Lemma expand_paths_resolved env fs patterns p :
  In p (expand_paths env fs patterns) -> exists s, p = resolve fs (Path_of s).
Proof.
  induction patterns as [|pattern rest IH]; cbn [expand_paths]; [contradiction|].
  intros [H|H]%in_app_or; [|exact (IH H)].
  destruct (has_glob_char pattern).
  - apply in_map_iff in H as (s & <- & _). eauto.
  - destruct H as [<-|[]]. eauto.
Qed.

Lemma filter_keep_plain parts :
  Forall plain_component parts -> List.filter keep_segment parts = parts.
Proof.
  induction 1 as [|c parts (H1 & H2 & _) _ IH]; cbn [List.filter]; [reflexivity|].
  unfold keep_segment at 1.
  rewrite !bool_decide_eq_false_2 by assumption. cbn [negb andb]. rewrite IH. reflexivity.
Qed.

(** X14: the inputs of a run are resolved paths.  Every path that the
    expansion of the patterns gives is absolute and has only plain
    components: none is empty, a dot or a double dot, none has a slash.
    Resolving it again changes nothing, and the string made of it, which is
    what the model is called with, reads back as the same path. *)
Theorem expanded_paths_are_resolved (env : Env) (fs : FS) (patterns : list string)
    (p : Path) :
  In p (expand_paths env fs patterns) ->
  p_abs p = true /\
  Forall plain_component (p_parts p) /\
  resolve fs p = p /\
  Path_of (path_str p) = p.
Proof.
  intros [s ->]%expand_paths_resolved.
  pose proof (resolve_plain fs (Path_of s) (Path_of_wf s)) as Hplain.
  split; [reflexivity|]. split; [exact Hplain|].
  set (q := resolve fs (Path_of s)) in *.
  assert (Hq : q = mkPath Slash (p_parts q)) by reflexivity.
  split.
  - unfold resolve. unfold abs_parts. rewrite Hq at 1. cbn [p_abs p_root p_parts app].
    rewrite normalize_plain; [rewrite Hq at 2; reflexivity|].
    eapply Forall_impl; [exact Hplain|]. intros c (_ & _ & H & _). exact H.
  - rewrite Hq at 2. unfold path_str. rewrite Hq at 1. cbn [p_root p_parts root_str].
    change ("/" +:+ str_join "/" (p_parts q)) with (String "/" (str_join "/" (p_parts q))).
    unfold Path_of. f_equal.
    + destruct (p_parts q) as [|c parts] eqn:Hparts; [reflexivity|].
      inversion Hplain as [|? ? (Hc & _ & _ & Hslash) _]; subst.
      destruct c as [|a c]; [contradiction|].
      assert (Ha : a <> "/"%char).
      { cbn [str_contains] in Hslash. case_decide; [discriminate|assumption]. }
      destruct parts as [|d parts]; cbn [str_join]; rewrite ?app_String;
        cbn [root_of];
        destruct a as [[] [] [] [] [] [] [] []]; try reflexivity;
        exfalso; apply Ha; reflexivity.
    + cbn [str_split].
      rewrite decide_True by reflexivity. cbn [List.filter].
      change (keep_segment "") with false. cbv iota.
      destruct (p_parts q) as [|c parts] eqn:Hparts; [reflexivity|].
      rewrite str_split_join; [apply filter_keep_plain, Hplain|discriminate|].
      eapply Forall_impl; [exact Hplain|]. intros d (_ & _ & _ & H). exact H.
Qed.

Lemma expanded_paths_are_resolved_witness :
  expand_paths data_env data_fs ["../tmp/./x/../a.mp3"] = [Path_of "/tmp/a.mp3"] /\
  path_str (Path_of "/tmp/a.mp3") = "/tmp/a.mp3" /\
  resolve data_fs (Path_of "/tmp/a.mp3") = Path_of "/tmp/a.mp3".
Proof.
  split; [vm_compute; reflexivity|]. split; [vm_compute; reflexivity|].
  apply (expanded_paths_are_resolved data_env data_fs ["../tmp/./x/../a.mp3"]
           (Path_of "/tmp/a.mp3")).
  vm_compute. auto.
Defined.
